(** * Shenandoah root processor: a shallow embedding of
      [src/share/vm/gc_implementation/shenandoah/shenandoahRootProcessor.cpp]

    The file models the root-scanning entry points of the Shenandoah
    collector as programs over an explicit shared state.  A program is a
    sequence of atomic actions, so that the calls of several GC workers can
    be interleaved action by action; the same programs run sequentially
    through [exec].  Every call the source makes to a collaborator (a root
    table, the code cache, the heap, the phase timings) is recorded in the
    state's call log, in the order the calls are made. *)

From Stdlib Require Import String List Arith Bool Lia PeanoNat Permutation.
Import ListNotations.

Set Implicit Arguments.

(** ** Data *)

(** An [oop] is a heap address; [NULL] is address zero. *)
Definition oop := nat.
Definition NULL : oop := 0.
Definition is_null (p : oop) : bool := p =? NULL.

(** Closures are supplied by the caller and are opaque to the root
    processor; a caller-supplied closure is known by its identity only.  A
    C++ pointer to a closure is an [option]: [None] is the null pointer. *)
Definition OopClosure := nat.
Definition ThreadClosure := nat.
Definition Thread := nat.

Inductive CLDClosure : Type :=
| CLDToOopClosure (oops : option OopClosure)
| CallerCLDClosure (id : nat).

(** [CodeBlobToOopClosure::FixRelocations] is [true]. *)
Definition FixRelocations : bool := true.

Inductive CodeBlobClosure : Type :=
| CodeBlobToOopClosure (oops : option OopClosure) (fix_relocations : bool)
| CallerCodeBlobClosure (id : nat).

Inductive BoolObjectClosure : Type :=
| AlwaysTrueClosure
| CallerIsAliveClosure (id : nat).

(** The task ids of the two [SubTasksDone] claim sets (the enums
    [SHENANDOAH_RP_PS_*] and [SHENANDOAH_EVAC_*] of the header). *)
Inductive Task : Type :=
| SHENANDOAH_RP_PS_Universe_oops_do
| SHENANDOAH_RP_PS_JNIHandles_oops_do
| SHENANDOAH_RP_PS_JNIHandles_weak_oops_do
| SHENANDOAH_RP_PS_FlatProfiler_oops_do
| SHENANDOAH_RP_PS_Management_oops_do
| SHENANDOAH_RP_PS_SystemDictionary_oops_do
| SHENANDOAH_RP_PS_jvmti_oops_do
| SHENANDOAH_EVAC_Universe_oops_do
| SHENANDOAH_EVAC_JNIHandles_oops_do
| SHENANDOAH_EVAC_JNIHandles_weak_oops_do
| SHENANDOAH_EVAC_FlatProfiler_oops_do
| SHENANDOAH_EVAC_Management_oops_do
| SHENANDOAH_EVAC_SystemDictionary_oops_do
| SHENANDOAH_EVAC_jvmti_oops_do.

Definition Task_eq_dec (a b : Task) : {a = b} + {a <> b}.
Proof. decide equality. Defined.

(** The phases of [ShenandoahPhaseTimings] named in the source, and an
    opaque phase handed to a constructor. *)
Inductive Phase : Type :=
| CLDGRoots | ThreadRoots | UniverseRoots | JNIRoots | FlatProfilerRoots
| ManagementRoots | JVMTIRoots | SystemDictionaryRoots | JNIWeakRoots
| StringDedupRoots | ObjectSynchronizerRoots | StringTableRoots
| CodeCacheRoots
| CollectorPhase (id : nat).

(** ** The call log *)

(** One constructor per collaborator entry point the source calls, carrying
    the arguments of the call.  Three calls are logged by what they do:
    [SynchronizerIterator_block_do] is one monitor block handed to the
    closure by [ShenandoahSynchronizerIterator::parallel_oops_do],
    [Heap_object_copied] the copy a successful [evacuate_object] installs,
    and the two [WorkerTimingsTracker] calls are the construction and the
    destruction of a [ShenandoahWorkerTimingsTracker]. *)
Inductive Event : Type :=
| CodeCache_blobs_do (blobs : CodeBlobClosure)
| ClassLoaderDataGraph_cld_do (clds : CLDClosure)
| ClassLoaderDataGraph_roots_cld_do (strong weak : option CLDClosure)
| ClassLoaderDataGraph_clear_claimed_marks
| Universe_oops_do (f : option OopClosure)
| FlatProfiler_oops_do (f : option OopClosure)
| Management_oops_do (f : option OopClosure)
| JvmtiExport_oops_do (f : option OopClosure)
| JNIHandles_oops_do (f : option OopClosure)
| JNIHandles_weak_oops_do (is_alive : option BoolObjectClosure)
                          (f : option OopClosure)
| ObjectSynchronizer_oops_do (f : option OopClosure)
| SystemDictionary_roots_oops_do (strong weak : option OopClosure)
| SystemDictionary_oops_do (f : option OopClosure)
| StringTable_oops_do (f : option OopClosure)
| StringTable_possibly_parallel_oops_do (f : option OopClosure)
| StringTable_possibly_parallel_unlink_or_oops_do
    (is_alive : option BoolObjectClosure) (f : option OopClosure)
    (processed removed : nat)
| ShenandoahStringDedup_oops_do_slow (f : option OopClosure)
| ShenandoahStringDedup_parallel_oops_do (f : option OopClosure)
| ShenandoahStringDedup_clear_claimed
| Threads_possibly_parallel_oops_do (f : option OopClosure)
    (clds : option CLDClosure) (blobs : option CodeBlobClosure)
| SynchronizerIterator_block_do (f : option OopClosure) (block : nat)
| CsetCodeRoots_possibly_parallel_blobs_do (blobs : option CodeBlobClosure)
| Heap_evacuate_object (p : oop) (t : Thread)
| Heap_object_copied (p copy : oop) (t : Thread)
| Heap_set_par_threads (n : nat)
| StrongRootsScope_enter (activate : bool)
| WorkerTimingsTracker_begin (phase : Phase) (worker_id : nat)
| WorkerTimingsTracker_end (phase : Phase) (worker_id : nat)
| PhaseTimings_record_workers_start (phase : Phase) (at_time : nat)
| PhaseTimings_record_workers_end (phase : Phase) (at_time : nat).

(** ** The shared state *)

(** What the scan reads but never writes: VM flags, the pending-list-lock
    slot, the collection set, the monitor block list, the intern table. *)
Record VM : Type := {
  ShenandoahStringDedup_is_enabled : bool;
  UseCompressedOops : bool;
  is_evacuation_in_progress : bool;
  is_at_safepoint : bool;
  (* the oop stored at java_lang_ref_Reference::pending_list_lock_addr();
     the narrow and the wide load decode to the same oop *)
  pending_list_lock : oop;
  in_collection_set : oop -> bool;
  (* number of blocks of ObjectSynchronizer's monitor block list *)
  monitor_blocks : nat;
  (* the entries of the StringTable *)
  string_table : list oop;
  (* what a caller-supplied liveness closure answers *)
  caller_is_alive : nat -> oop -> bool
}.

Record State : Type := {
  (* SubTasksDone::_tasks, one flag per task id *)
  tasks : Task -> bool;
  (* SubTasksDone::_n_threads and _threads_completed *)
  n_threads : nat;
  threads_completed : nat;
  (* ShenandoahSynchronizerIterator::_cur, as the index of the next block *)
  om_cur : nat;
  (* the claim index of the StringTable's parallel traversal *)
  string_table_claimed : nat;
  (* the forwarding pointer of each object, None while it points to itself *)
  forwardee : oop -> option oop;
  (* to-space addresses still free; empty when allocation fails *)
  free_space : list oop;
  (* the clock read by the phase timings *)
  clock : nat;
  (* the calls made so far, oldest first *)
  log : list Event
}.

Definition set_tasks (s : State) (f : Task -> bool) : State :=
  {| tasks := f; n_threads := n_threads s;
     threads_completed := threads_completed s; om_cur := om_cur s;
     string_table_claimed := string_table_claimed s;
     forwardee := forwardee s; free_space := free_space s;
     clock := clock s; log := log s |}.

Definition set_n_threads (s : State) (n : nat) : State :=
  {| tasks := tasks s; n_threads := n;
     threads_completed := threads_completed s; om_cur := om_cur s;
     string_table_claimed := string_table_claimed s;
     forwardee := forwardee s; free_space := free_space s;
     clock := clock s; log := log s |}.

Definition set_threads_completed (s : State) (n : nat) : State :=
  {| tasks := tasks s; n_threads := n_threads s;
     threads_completed := n; om_cur := om_cur s;
     string_table_claimed := string_table_claimed s;
     forwardee := forwardee s; free_space := free_space s;
     clock := clock s; log := log s |}.

Definition set_om_cur (s : State) (n : nat) : State :=
  {| tasks := tasks s; n_threads := n_threads s;
     threads_completed := threads_completed s; om_cur := n;
     string_table_claimed := string_table_claimed s;
     forwardee := forwardee s; free_space := free_space s;
     clock := clock s; log := log s |}.

Definition set_string_table_claimed (s : State) (n : nat) : State :=
  {| tasks := tasks s; n_threads := n_threads s;
     threads_completed := threads_completed s; om_cur := om_cur s;
     string_table_claimed := n;
     forwardee := forwardee s; free_space := free_space s;
     clock := clock s; log := log s |}.

Definition set_heap (s : State) (f : oop -> option oop) (fr : list oop)
  : State :=
  {| tasks := tasks s; n_threads := n_threads s;
     threads_completed := threads_completed s; om_cur := om_cur s;
     string_table_claimed := string_table_claimed s;
     forwardee := f; free_space := fr;
     clock := clock s; log := log s |}.

Definition tick (s : State) : State :=
  {| tasks := tasks s; n_threads := n_threads s;
     threads_completed := threads_completed s; om_cur := om_cur s;
     string_table_claimed := string_table_claimed s;
     forwardee := forwardee s; free_space := free_space s;
     clock := S (clock s); log := log s |}.

(** Appends one call to the log. *)
Definition emit (e : Event) (s : State) : State :=
  {| tasks := tasks s; n_threads := n_threads s;
     threads_completed := threads_completed s; om_cur := om_cur s;
     string_table_claimed := string_table_claimed s;
     forwardee := forwardee s; free_space := free_space s;
     clock := clock s; log := log s ++ [e] |}.

(** ** Programs *)

(** A program is a tree of atomic actions on the shared state.  [Act a k]
    performs [a] in one step and continues with [k] on its result;
    [While c bound k] is the loop [while (c());] followed by [k]: the test
    [c] is a program of its own, whose actions are steps like any other,
    and [bound] is a number of rounds the loop stays within when no other
    thread runs ([well_bounded] below says so, [exec] counts down from it);
    [Fatal msg] is a failed assertion. *)
Inductive Prog (A : Type) : Type :=
| Ret (a : A)
| Act (X : Type) (a : State -> X * State) (k : X -> Prog A)
| While (c : Prog bool) (bound : State -> nat) (k : Prog A)
| Fatal (msg : string).

Arguments Ret {A} a.
Arguments Act {A X} a k.
Arguments While {A} c bound k.
Arguments Fatal {A} msg.

Fixpoint bind {A B : Type} (p : Prog A) (f : A -> Prog B) : Prog B :=
  match p with
  | Ret a => f a
  | Act a k => Act a (fun x => bind (k x) f)
  | While c m k => While c m (bind k f)
  | Fatal msg => Fatal msg
  end.

Declare Scope prog_scope.
Delimit Scope prog_scope with prog.
Notation "x <- p ;; q" := (bind p (fun x => q))
  (at level 61, p at next level, right associativity) : prog_scope.
Notation "p ;; q" := (bind p (fun _ => q))
  (at level 61, right associativity) : prog_scope.
Open Scope prog_scope.

(** One collaborator call that returns nothing. *)
Definition call (e : Event) : Prog unit :=
  Act (fun s => (tt, emit e s)) Ret.

(** One atomic action with a result. *)
Definition atomic {X : Type} (a : State -> X * State) : Prog X :=
  Act a Ret.

(** Modelled from the spec: HotSpot's [assert(cond, msg)] macro is declared
    outside this file (utilities/debug.hpp).  By the spec's error handling
    design contract violations "are fatal" and "must abort rather than
    attempt recovery": a failed assertion stops the VM with [msg]. *)
Definition assert (cond : bool) (msg : string) : Prog unit :=
  if cond then Ret tt else Fatal msg.

(** ** Sequential execution *)

Inductive Outcome (A : Type) : Type :=
| Normal (a : A)
| FatalError (msg : string).

Arguments Normal {A} a.
Arguments FatalError {A} msg.

(** Runs [while (c());] with at most [S n] calls of [c]; a failed
    assertion in [c] ends the loop. *)
Fixpoint loop (c : State -> Outcome bool * State) (n : nat) (s : State)
  : Outcome unit * State :=
  match c s with
  | (Normal true, s') =>
      match n with
      | S n' => loop c n' s'
      | 0 => (Normal tt, s')
      end
  | (Normal false, s') => (Normal tt, s')
  | (FatalError msg, s') => (FatalError msg, s')
  end.

Fixpoint exec {A : Type} (p : Prog A) (s : State) : Outcome A * State :=
  match p with
  | Ret a => (Normal a, s)
  | Act a k => let (x, s') := a s in exec (k x) s'
  | While c m k =>
      match loop (exec c) (m s) s with
      | (Normal _, s') => exec k s'
      | (FatalError msg, s') => (FatalError msg, s')
      end
  | Fatal msg => (FatalError msg, s)
  end.

(** ** Interleaved execution *)

(** One step of one thread.  Coming to a loop, the thread turns to the
    test: it has the test to run, and on its answer the loop again or what
    follows the loop. *)
Definition step {A : Type} (p : Prog A) (s : State) : Prog A * State :=
  match p with
  | Ret a => (Ret a, s)
  | Act a k => let (x, s') := a s in (k x, s')
  | While c m k => (b <- c ;; if b then While c m k else k, s)
  | Fatal msg => (Fatal msg, s)
  end.

Definition is_fatal {A : Type} (p : Prog A) : bool :=
  match p with Fatal _ => true | _ => false end.

Definition is_ret {A : Type} (p : Prog A) : bool :=
  match p with Ret _ => true | _ => false end.

(** The workers of one session: worker [w] still has to run the [w]-th
    program. *)
Definition Pool := list (Prog unit).

Fixpoint step_worker (w : nat) (pool : Pool) (s : State) : Pool * State :=
  match pool, w with
  | [], _ => ([], s)
  | p :: rest, 0 => let (p', s') := step p s in (p' :: rest, s')
  | p :: rest, S w' =>
      let (rest', s') := step_worker w' rest s in (p :: rest', s')
  end.

(** A failed assertion stops the VM: no worker moves any more. *)
Definition pool_step (w : nat) (pool : Pool) (s : State) : Pool * State :=
  if existsb is_fatal pool then (pool, s) else step_worker w pool s.

(** Runs the workers in the order a schedule names them. *)
Fixpoint run_schedule (sched : list nat) (pool : Pool) (s : State)
  : Pool * State :=
  match sched with
  | [] => (pool, s)
  | w :: sched' =>
      let (pool', s') := pool_step w pool s in run_schedule sched' pool' s'
  end.

Definition all_returned (pool : Pool) : bool := forallb is_ret pool.

(** [k] steps of one thread on its own. *)
Fixpoint steps {A : Type} (k : nat) (p : Prog A) (s : State)
  : Prog A * State :=
  match k with
  | 0 => (p, s)
  | S k' => let (p', s') := step p s in steps k' p' s'
  end.

(** The program a thread is left with once it has run to its outcome. *)
Definition finished {A : Type} (o : Outcome A) : Prog A :=
  match o with
  | Normal a => Ret a
  | FatalError msg => Fatal msg
  end.

(** ** Collaborators *)

Definition not_null {A : Type} (p : option A) : bool :=
  match p with Some _ => true | None => false end.

Definition when (b : bool) (p : Prog unit) : Prog unit :=
  if b then p else Ret tt.

(** Modelled from the spec: [SubTasksDone::is_task_claimed] is absent from
    the sources at hand.  The spec's [try_claim] "atomically transitions
    Unclaimed->Claimed; returns true to exactly one caller"; the HotSpot
    name has the opposite polarity, it answers whether the task had been
    claimed before this call, and leaves it claimed. *)
Definition SubTasksDone_is_task_claimed (t : Task) : Prog bool :=
  atomic (fun s =>
    (tasks s t,
     set_tasks s (fun u => if Task_eq_dec u t then true else tasks s u))).

(** Modelled from the spec: [SubTasksDone::all_tasks_completed] is the
    spec's [mark_worker_done].  It counts one more worker as done;
    "calling [mark_worker_done] more than N times is a fatal programming
    error", N being the number of workers the claim set was told of. *)
Definition SubTasksDone_all_tasks_completed : Prog unit :=
  counted <- atomic (fun s =>
    if threads_completed s <? n_threads s
    then (true, set_threads_completed s (S (threads_completed s)))
    else (false, s)) ;;
  assert counted "more workers done than configured".

(** Modelled from the spec: [ShenandoahWorkerTimingsTracker] is a scoped
    "per-source, per-worker duration recorder"; it reads the clock when
    the scope is entered and when it is left. *)
Definition ShenandoahWorkerTimingsTracker {A : Type}
    (phase : Phase) (worker_id : nat) (body : Prog A) : Prog A :=
  atomic (fun s => (tt, tick (emit (WorkerTimingsTracker_begin phase worker_id) s))) ;;
  x <- body ;;
  atomic (fun s => (tt, tick (emit (WorkerTimingsTracker_end phase worker_id) s))) ;;
  Ret x.

(** Modelled from the spec: [ShenandoahSynchronizerIterator::parallel_oops_do]
    is the spec's [next_chunk(visitor) -> more_remaining], of which "cursor
    advance is atomic, so no two callers ever process the same chunk".
    Taking the block under the cursor and advancing the cursor is one
    atomic step; the visit of the block taken is a step of its own, so
    that other threads may run between the two. *)
Definition SynchronizerIterator_claim_block (vm : VM) : Prog (option nat) :=
  atomic (fun s =>
    if om_cur s <? monitor_blocks vm
    then (Some (om_cur s), set_om_cur s (S (om_cur s)))
    else (None, s)).

Definition SynchronizerIterator_parallel_oops_do (vm : VM)
    (f : option OopClosure) : Prog bool :=
  block <- SynchronizerIterator_claim_block vm ;;
  match block with
  | Some b => call (SynchronizerIterator_block_do f b) ;; Ret true
  | None => Ret false
  end.

Definition om_remaining (vm : VM) (s : State) : nat :=
  monitor_blocks vm - om_cur s.

(** What a liveness closure answers for an entry. *)
Definition do_object_b (vm : VM) (is_alive : option BoolObjectClosure)
    (p : oop) : bool :=
  match is_alive with
  | Some AlwaysTrueClosure => true
  | Some (CallerIsAliveClosure id) => caller_is_alive vm id p
  | None => true
  end.

(** Modelled from the spec: [StringTable::possibly_parallel_unlink_or_oops_do]
    is the spec's [traverse_or_unlink(isAlivePredicate, visitor) ->
    (processed, removed)].  The source says of it that "a specific chunk of
    buckets from the StringTable are the individual tasks": the call takes
    the entries no call has taken yet, adds their number to [*processed]
    and the number of those the predicate reports dead to [*removed]. *)
Definition StringTable_unlink_or_oops_do (vm : VM)
    (is_alive : option BoolObjectClosure) (f : option OopClosure)
    (processed removed : nat) : Prog (nat * nat) :=
  atomic (fun s =>
    let mine := skipn (string_table_claimed s) (string_table vm) in
    let processed' := processed + length mine in
    let removed' :=
      removed + length (filter (fun p => negb (do_object_b vm is_alive p)) mine) in
    ((processed', removed'),
     emit (StringTable_possibly_parallel_unlink_or_oops_do
             is_alive f processed' removed')
          (set_string_table_claimed s (length (string_table vm))))).

(** [oopDesc::load_decode_heap_oop] on the pending-list-lock slot. *)
Definition load_decode_heap_oop (vm : VM) (narrow : bool) : Prog oop :=
  atomic (fun s => (pending_list_lock vm, s)).

(** [ShenandoahBarrierSet::resolve_forwarded_not_null]: follows the
    forwarding pointer. *)
Definition resolve_forwarded_not_null (p : oop) : Prog oop :=
  atomic (fun s =>
    (match forwardee s p with Some q => q | None => p end, s)).

(** Modelled from the spec: [ShenandoahHeap::evacuate_object] is "a
    compare-and-set forward if not already forwarded": the copy is
    installed only while the object still points to itself; allocation
    failure is tolerated and leaves the object where it is. *)
Definition evacuate_object (p : oop) (t : Thread) : Prog unit :=
  atomic (fun s =>
    let s1 := emit (Heap_evacuate_object p t) s in
    match forwardee s p, free_space s with
    | None, copy :: rest =>
        (tt, emit (Heap_object_copied p copy t)
               (set_heap s1
                  (fun q => if q =? p then Some copy else forwardee s q)
                  rest))
    | _, _ => (tt, s1)
    end).

(** Modelled from the spec: [record_workers_start] and [record_workers_end]
    of the phase timings record "a phase-start timestamp" and the
    phase end. *)
Definition record_workers_start (phase : Phase) : Prog unit :=
  atomic (fun s =>
    (tt, tick (emit (PhaseTimings_record_workers_start phase (clock s)) s))).

Definition record_workers_end (phase : Phase) : Prog unit :=
  atomic (fun s =>
    (tt, tick (emit (PhaseTimings_record_workers_end phase (clock s)) s))).

(** [new SubTasksDone(n)]: every task unclaimed, no worker done. *)
Definition new_SubTasksDone : Prog unit :=
  atomic (fun s =>
    (tt, set_threads_completed (set_tasks s (fun _ => false)) 0)).

Definition SubTasksDone_set_n_threads (n : nat) : Prog unit :=
  atomic (fun s => (tt, set_n_threads s n)).

(** [ShenandoahSynchronizerIterator()]: the cursor at the first block. *)
Definition new_ShenandoahSynchronizerIterator : Prog unit :=
  atomic (fun s => (tt, set_om_cur s 0)).

(** ** The source *)

Section RootProcessor.

Variable vm : VM.

(** The constructor and [root_cld_do] of [ParallelCLDRootIterator]
    (lines 333-340). *)
Definition ParallelCLDRootIterator_ctor : Prog unit :=
  assert (is_at_safepoint vm) "Must at safepoint" ;;
  call ClassLoaderDataGraph_clear_claimed_marks.

Definition root_cld_do (strong weak : option CLDClosure) : Prog unit :=
  call (ClassLoaderDataGraph_roots_cld_do strong weak).

(** [ShenandoahRootProcessor::ShenandoahRootProcessor] (lines 44-59): the
    member initialisers, the default-constructed [_cld_iterator], then the
    body.  [_phase], [_worker_phase] and [_coderoots_all_iterator] are
    stored and not used by the functions below. *)
Definition ShenandoahRootProcessor_ctor (n_workers : nat) (phase : Phase)
  : Prog unit :=
  new_SubTasksDone ;;
  call (StrongRootsScope_enter true) ;;
  new_ShenandoahSynchronizerIterator ;;
  ParallelCLDRootIterator_ctor ;;
  SubTasksDone_set_n_threads n_workers ;;
  call (Heap_set_par_threads n_workers) ;;
  when (ShenandoahStringDedup_is_enabled vm)
       (call ShenandoahStringDedup_clear_claimed).

(** [ShenandoahRootProcessor::process_all_roots_slow] (lines 65-91). *)
Definition process_all_roots_slow (oops : option OopClosure) : Prog unit :=
  let always_true := AlwaysTrueClosure in
  let clds := CLDToOopClosure oops in
  let blobs := CodeBlobToOopClosure oops (negb FixRelocations) in
  call (CodeCache_blobs_do blobs) ;;
  call (ClassLoaderDataGraph_cld_do clds) ;;
  call (Universe_oops_do oops) ;;
  call (FlatProfiler_oops_do oops) ;;
  call (Management_oops_do oops) ;;
  call (JvmtiExport_oops_do oops) ;;
  call (JNIHandles_oops_do oops) ;;
  call (JNIHandles_weak_oops_do (Some always_true) oops) ;;
  call (ObjectSynchronizer_oops_do oops) ;;
  call (SystemDictionary_roots_oops_do oops oops) ;;
  call (StringTable_oops_do oops) ;;
  when (ShenandoahStringDedup_is_enabled vm)
       (call (ShenandoahStringDedup_oops_do_slow oops)) ;;
  (* Do thread roots the last. *)
  call (Threads_possibly_parallel_oops_do oops (Some clds) (Some blobs)).

(** [ShenandoahRootProcessor::process_java_roots] (lines 113-133); the
    [ResourceMark] of the second block leaves nothing to observe, and
    [thread_cl] is not used. *)
Definition process_java_roots (strong_roots : option OopClosure)
    (strong_clds weak_clds : option CLDClosure)
    (strong_code : option CodeBlobClosure)
    (thread_cl : option ThreadClosure) (worker_id : nat) : Prog unit :=
  ShenandoahWorkerTimingsTracker CLDGRoots worker_id
    (root_cld_do strong_clds weak_clds) ;;
  ShenandoahWorkerTimingsTracker ThreadRoots worker_id
    (call (Threads_possibly_parallel_oops_do
             strong_roots strong_clds strong_code)).

(** [ShenandoahRootProcessor::process_vm_roots] (lines 135-191). *)
Definition process_vm_roots (strong_roots weak_roots : option OopClosure)
    (is_alive : option BoolObjectClosure) (worker_id : nat) : Prog unit :=
  (claimed <- SubTasksDone_is_task_claimed SHENANDOAH_RP_PS_Universe_oops_do ;;
   when (negb claimed)
     (ShenandoahWorkerTimingsTracker UniverseRoots worker_id
        (call (Universe_oops_do strong_roots)))) ;;
  (claimed <- SubTasksDone_is_task_claimed SHENANDOAH_RP_PS_JNIHandles_oops_do ;;
   when (negb claimed)
     (ShenandoahWorkerTimingsTracker JNIRoots worker_id
        (call (JNIHandles_oops_do strong_roots)))) ;;
  (claimed <- SubTasksDone_is_task_claimed SHENANDOAH_RP_PS_FlatProfiler_oops_do ;;
   when (negb claimed)
     (ShenandoahWorkerTimingsTracker FlatProfilerRoots worker_id
        (call (FlatProfiler_oops_do strong_roots)))) ;;
  (claimed <- SubTasksDone_is_task_claimed SHENANDOAH_RP_PS_Management_oops_do ;;
   when (negb claimed)
     (ShenandoahWorkerTimingsTracker ManagementRoots worker_id
        (call (Management_oops_do strong_roots)))) ;;
  (claimed <- SubTasksDone_is_task_claimed SHENANDOAH_RP_PS_jvmti_oops_do ;;
   when (negb claimed)
     (ShenandoahWorkerTimingsTracker JVMTIRoots worker_id
        (call (JvmtiExport_oops_do strong_roots)))) ;;
  (claimed <- SubTasksDone_is_task_claimed SHENANDOAH_RP_PS_SystemDictionary_oops_do ;;
   when (negb claimed)
     (ShenandoahWorkerTimingsTracker SystemDictionaryRoots worker_id
        (call (SystemDictionary_roots_oops_do strong_roots weak_roots)))) ;;
  when (not_null weak_roots)
    (claimed <- SubTasksDone_is_task_claimed SHENANDOAH_RP_PS_JNIHandles_weak_oops_do ;;
     when (negb claimed)
       (ShenandoahWorkerTimingsTracker JNIWeakRoots worker_id
          (call (JNIHandles_weak_oops_do is_alive weak_roots)))) ;;
  when (ShenandoahStringDedup_is_enabled vm && not_null weak_roots)
    (ShenandoahWorkerTimingsTracker StringDedupRoots worker_id
       (call (ShenandoahStringDedup_parallel_oops_do weak_roots))) ;;
  ShenandoahWorkerTimingsTracker ObjectSynchronizerRoots worker_id
    (While (SynchronizerIterator_parallel_oops_do vm strong_roots)
           (om_remaining vm) (Ret tt)) ;;
  (* All threads execute the following. *)
  when (not_null weak_roots)
    (ShenandoahWorkerTimingsTracker StringTableRoots worker_id
       (let processed := 0 in
        let removed := 0 in
        _ <- StringTable_unlink_or_oops_do vm is_alive weak_roots
               processed removed ;;
        Ret tt)).

(** [ShenandoahRootProcessor::process_strong_roots] (lines 93-103). *)
Definition process_strong_roots (oops : option OopClosure)
    (clds : option CLDClosure) (blobs : option CodeBlobClosure)
    (thread_cl : option ThreadClosure) (worker_id : nat) : Prog unit :=
  assert (negb (not_null thread_cl)) "not implemented yet" ;;
  process_java_roots oops clds None blobs thread_cl worker_id ;;
  process_vm_roots oops None None worker_id ;;
  SubTasksDone_all_tasks_completed.

End RootProcessor.

Section RootEvacuator.

Variable vm : VM.

(** [ShenandoahRootEvacuator::ShenandoahRootEvacuator] (lines 193-206).
    The member [_coderoots_cset_iterator] is initialised with
    [ShenandoahCodeRoots::cset_iterator()]; a traversal through it is the
    call [CsetCodeRoots_possibly_parallel_blobs_do]. *)
Definition ShenandoahRootEvacuator_ctor (n_workers : nat) (phase : Phase)
  : Prog unit :=
  new_SubTasksDone ;;
  call (StrongRootsScope_enter true) ;;
  new_ShenandoahSynchronizerIterator ;;
  ParallelCLDRootIterator_ctor vm ;;
  call (Heap_set_par_threads n_workers) ;;
  record_workers_start phase ;;
  when (ShenandoahStringDedup_is_enabled vm)
       (call ShenandoahStringDedup_clear_claimed).

(** [ShenandoahRootEvacuator::~ShenandoahRootEvacuator] (lines 208-211);
    deleting the claim set leaves nothing to observe. *)
Definition ShenandoahRootEvacuator_dtor (phase : Phase) : Prog unit :=
  record_workers_end phase.

(** [ShenandoahRootEvacuator::process_evacuate_roots] (lines 213-330);
    [self] is [Thread::current()]. *)
Definition process_evacuate_roots (self : Thread)
    (oops : option OopClosure) (blobs : option CodeBlobClosure)
    (worker_id : nat) : Prog unit :=
  (* Evacuate the PLL here so that the SurrogateLockerThread doesn't have to. *)
  assert (is_evacuation_in_progress vm) "only when evacuating" ;;
  (pll <- (if UseCompressedOops vm
           then load_decode_heap_oop vm true
           else load_decode_heap_oop vm false) ;;
   if negb (is_null pll) && in_collection_set vm pll
   then fwd <- resolve_forwarded_not_null pll ;;
        when (pll =? fwd) (evacuate_object pll self)
   else Ret tt) ;;
  (let clds := CLDToOopClosure oops in
   ShenandoahWorkerTimingsTracker CLDGRoots worker_id
     (root_cld_do (Some clds) (Some clds))) ;;
  ShenandoahWorkerTimingsTracker ThreadRoots worker_id
    (call (Threads_possibly_parallel_oops_do oops None None)) ;;
  when (not_null blobs)
    (ShenandoahWorkerTimingsTracker CodeCacheRoots worker_id
       (call (CsetCodeRoots_possibly_parallel_blobs_do blobs))) ;;
  (claimed <- SubTasksDone_is_task_claimed SHENANDOAH_EVAC_Universe_oops_do ;;
   when (negb claimed)
     (ShenandoahWorkerTimingsTracker UniverseRoots worker_id
        (call (Universe_oops_do oops)))) ;;
  (claimed <- SubTasksDone_is_task_claimed SHENANDOAH_EVAC_JNIHandles_oops_do ;;
   when (negb claimed)
     (ShenandoahWorkerTimingsTracker JNIRoots worker_id
        (call (JNIHandles_oops_do oops)))) ;;
  (claimed <- SubTasksDone_is_task_claimed SHENANDOAH_EVAC_FlatProfiler_oops_do ;;
   when (negb claimed)
     (ShenandoahWorkerTimingsTracker FlatProfilerRoots worker_id
        (call (FlatProfiler_oops_do oops)))) ;;
  (claimed <- SubTasksDone_is_task_claimed SHENANDOAH_EVAC_Management_oops_do ;;
   when (negb claimed)
     (ShenandoahWorkerTimingsTracker ManagementRoots worker_id
        (call (Management_oops_do oops)))) ;;
  (claimed <- SubTasksDone_is_task_claimed SHENANDOAH_EVAC_jvmti_oops_do ;;
   when (negb claimed)
     (ShenandoahWorkerTimingsTracker JVMTIRoots worker_id
        (call (JvmtiExport_oops_do oops)))) ;;
  (claimed <- SubTasksDone_is_task_claimed SHENANDOAH_EVAC_SystemDictionary_oops_do ;;
   when (negb claimed)
     (ShenandoahWorkerTimingsTracker SystemDictionaryRoots worker_id
        (call (SystemDictionary_oops_do oops)))) ;;
  (claimed <- SubTasksDone_is_task_claimed SHENANDOAH_EVAC_JNIHandles_weak_oops_do ;;
   when (negb claimed)
     (let always_true := AlwaysTrueClosure in
      ShenandoahWorkerTimingsTracker JNIWeakRoots worker_id
        (call (JNIHandles_weak_oops_do (Some always_true) oops)))) ;;
  when (ShenandoahStringDedup_is_enabled vm)
    (ShenandoahWorkerTimingsTracker StringDedupRoots worker_id
       (call (ShenandoahStringDedup_parallel_oops_do oops))) ;;
  ShenandoahWorkerTimingsTracker ObjectSynchronizerRoots worker_id
    (While (SynchronizerIterator_parallel_oops_do vm oops)
           (om_remaining vm) (Ret tt)) ;;
  (* All threads execute the following. *)
  ShenandoahWorkerTimingsTracker StringTableRoots worker_id
    (call (StringTable_possibly_parallel_oops_do oops)).

End RootEvacuator.

(** ** Sessions *)

(** The arguments one worker passes to [process_vm_roots]. *)
Record VmRootsArgs : Type := {
  vm_strong_roots : option OopClosure;
  vm_weak_roots : option OopClosure;
  vm_is_alive : option BoolObjectClosure
}.

(** The arguments one worker passes to [process_evacuate_roots]. *)
Record EvacArgs : Type := {
  evac_oops : option OopClosure;
  evac_blobs : option CodeBlobClosure
}.

(** Worker [w] of [n] calls [process_vm_roots] with its own arguments and
    its own worker id. *)
Definition vm_roots_workers (vm : VM) (args : nat -> VmRootsArgs) (n : nat)
  : Pool :=
  map (fun w => process_vm_roots vm (vm_strong_roots (args w))
                  (vm_weak_roots (args w)) (vm_is_alive (args w)) w)
      (seq 0 n).

(** Worker [w] of [n] calls [process_evacuate_roots]; worker [w] runs on
    thread [w]. *)
Definition evacuate_workers (vm : VM) (args : nat -> EvacArgs) (n : nat)
  : Pool :=
  map (fun w => process_evacuate_roots vm w (evac_oops (args w))
                  (evac_blobs (args w)) w)
      (seq 0 n).

(** A strong-root session: the processor is constructed, then its [n]
    workers run [process_vm_roots] interleaved as the schedule says.  No
    worker runs when the constructor's assertion fails. *)
Definition vm_roots_session (vm : VM) (n : nat) (phase : Phase)
    (args : nat -> VmRootsArgs) (sched : list nat) (s : State)
  : option (Pool * State) :=
  match exec (ShenandoahRootProcessor_ctor vm n phase) s with
  | (Normal _, s1) => Some (run_schedule sched (vm_roots_workers vm args n) s1)
  | (FatalError _, _) => None
  end.

(** The workers' part of an evacuation session. *)
Definition evacuate_session (vm : VM) (n : nat) (phase : Phase)
    (args : nat -> EvacArgs) (sched : list nat) (s : State)
  : option (Pool * State) :=
  match exec (ShenandoahRootEvacuator_ctor vm n phase) s with
  | (Normal _, s1) => Some (run_schedule sched (evacuate_workers vm args n) s1)
  | (FatalError _, _) => None
  end.

(** A whole evacuation session: construction, the workers, destruction.
    The destructor runs when the scope of the evacuator is left, which
    takes a constructed evacuator and workers that have all returned;
    [None] when the scope is never left. *)
Definition evacuator_lifetime (vm : VM) (n : nat) (phase : Phase)
    (args : nat -> EvacArgs) (sched : list nat) (s : State)
  : option State :=
  match evacuate_session vm n phase args sched s with
  | Some (pool, s2) =>
      if all_returned pool
      then Some (snd (exec (ShenandoahRootEvacuator_dtor phase) s2))
      else None
  | None => None
  end.

(** The calls a program adds to the log when run from [s]. *)
Definition trace {A : Type} (p : Prog A) (s : State) : list Event :=
  skipn (length (log s)) (log (snd (exec p s))).

(** The calls the log gained between two states. *)
Definition delta (s s' : State) : list Event :=
  skipn (length (log s)) (log s').

(** ** Observing the log *)

Definition count_events (f : Event -> bool) (l : list Event) : nat :=
  length (filter f l).

(** The root sources a call traverses. *)
Inductive RootSource : Type :=
| CodeTable | ClassLoaderGraph | UniverseTable | ProfilerTable
| ManagementTable | JvmtiTable | JNIHandleTable | JNIWeakTable
| MonitorTable | Dictionary | InternTable | DedupTable | ThreadStacks.

Definition RootSource_eq_dec (a b : RootSource) : {a = b} + {a <> b}.
Proof. decide equality. Defined.

Definition source_of (e : Event) : option RootSource :=
  match e with
  | CodeCache_blobs_do _ => Some CodeTable
  | CsetCodeRoots_possibly_parallel_blobs_do _ => Some CodeTable
  | ClassLoaderDataGraph_cld_do _ => Some ClassLoaderGraph
  | ClassLoaderDataGraph_roots_cld_do _ _ => Some ClassLoaderGraph
  | Universe_oops_do _ => Some UniverseTable
  | FlatProfiler_oops_do _ => Some ProfilerTable
  | Management_oops_do _ => Some ManagementTable
  | JvmtiExport_oops_do _ => Some JvmtiTable
  | JNIHandles_oops_do _ => Some JNIHandleTable
  | JNIHandles_weak_oops_do _ _ => Some JNIWeakTable
  | ObjectSynchronizer_oops_do _ => Some MonitorTable
  | SynchronizerIterator_block_do _ _ => Some MonitorTable
  | SystemDictionary_roots_oops_do _ _ => Some Dictionary
  | SystemDictionary_oops_do _ => Some Dictionary
  | StringTable_oops_do _ => Some InternTable
  | StringTable_possibly_parallel_oops_do _ => Some InternTable
  | StringTable_possibly_parallel_unlink_or_oops_do _ _ _ _ => Some InternTable
  | ShenandoahStringDedup_oops_do_slow _ => Some DedupTable
  | ShenandoahStringDedup_parallel_oops_do _ => Some DedupTable
  | Threads_possibly_parallel_oops_do _ _ _ => Some ThreadStacks
  | _ => None
  end.

Definition visits (src : RootSource) (e : Event) : bool :=
  match source_of e with
  | Some x => if RootSource_eq_dec x src then true else false
  | None => false
  end.

(** The singleton sources both scans put behind a claim. *)
Definition claimed_singletons : list RootSource :=
  [UniverseTable; JNIHandleTable; ProfilerTable; ManagementTable;
   JvmtiTable; Dictionary].

Definition rp_task (src : RootSource) : Task :=
  match src with
  | UniverseTable => SHENANDOAH_RP_PS_Universe_oops_do
  | JNIHandleTable => SHENANDOAH_RP_PS_JNIHandles_oops_do
  | ProfilerTable => SHENANDOAH_RP_PS_FlatProfiler_oops_do
  | ManagementTable => SHENANDOAH_RP_PS_Management_oops_do
  | JvmtiTable => SHENANDOAH_RP_PS_jvmti_oops_do
  | Dictionary => SHENANDOAH_RP_PS_SystemDictionary_oops_do
  | _ => SHENANDOAH_RP_PS_JNIHandles_weak_oops_do
  end.

Definition evac_task (src : RootSource) : Task :=
  match src with
  | UniverseTable => SHENANDOAH_EVAC_Universe_oops_do
  | JNIHandleTable => SHENANDOAH_EVAC_JNIHandles_oops_do
  | ProfilerTable => SHENANDOAH_EVAC_FlatProfiler_oops_do
  | ManagementTable => SHENANDOAH_EVAC_Management_oops_do
  | JvmtiTable => SHENANDOAH_EVAC_jvmti_oops_do
  | Dictionary => SHENANDOAH_EVAC_SystemDictionary_oops_do
  | _ => SHENANDOAH_EVAC_JNIHandles_weak_oops_do
  end.

(** The liveness predicate a call consults, if it takes one. *)
Definition liveness_of (e : Event) : option (option BoolObjectClosure) :=
  match e with
  | JNIHandles_weak_oops_do is_alive _ => Some is_alive
  | StringTable_possibly_parallel_unlink_or_oops_do is_alive _ _ _ =>
      Some is_alive
  | _ => None
  end.

Definition is_evacuation (e : Event) : bool :=
  match e with
  | Heap_evacuate_object _ _ | Heap_object_copied _ _ _ => true
  | _ => false
  end.

Definition is_copy_of (p : oop) (e : Event) : bool :=
  match e with
  | Heap_object_copied q _ _ => q =? p
  | _ => false
  end.

Definition is_workers_start (e : Event) : bool :=
  match e with PhaseTimings_record_workers_start _ _ => true | _ => false end.

Definition is_workers_end (e : Event) : bool :=
  match e with PhaseTimings_record_workers_end _ _ => true | _ => false end.

(** Modelled from the spec: what the collaborators hold.  The spec's
    CodeRootTable offers [full_traverse] and [condemned_only_traverse];
    every other source offers a traversal of its references. *)
Record RootTables : Type := {
  references : RootSource -> list oop;
  code_table : list nat;
  has_cset_oops : nat -> bool
}.

(** The code units a call hands to its closure. *)
Definition visited_blobs (rt : RootTables) (e : Event) : list nat :=
  match e with
  | CodeCache_blobs_do _ => code_table rt
  | CsetCodeRoots_possibly_parallel_blobs_do _ =>
      filter (has_cset_oops rt) (code_table rt)
  | _ => []
  end.

(** The ordered visitation log: each call contributes the references of
    the source it traverses, tagged with that source. *)
Definition visitation (rt : RootTables) (l : list Event)
  : list (RootSource * oop) :=
  flat_map (fun e => match source_of e with
                     | Some src => map (pair src) (references rt src)
                     | None => []
                     end) l.

(** A session has completed when it was constructed and every worker has
    returned from its call. *)
Definition completed (r : option (Pool * State)) : bool :=
  match r with
  | Some (pool, _) => all_returned pool
  | None => false
  end.

(** The source was traversed exactly once between [s] and the end of the
    session. *)
Definition visited_once (src : RootSource) (s : State)
    (r : option (Pool * State)) : Prop :=
  match r with
  | Some (_, s') =>
      count_events (visits src) (log s') =
      S (count_events (visits src) (log s))
  | None => False
  end.

(** ** Disciplines on programs *)

(** Every atomic action the program can come to relates the state before
    to the state after by [R]. *)
Fixpoint respects {A : Type} (R : State -> State -> Prop) (p : Prog A)
  : Prop :=
  match p with
  | Ret _ => True
  | Act a k => forall s, R s (snd (a s)) /\ respects R (k (fst (a s)))
  | While c _ k => respects R c /\ respects R k
  | Fatal _ => True
  end.

(** The bound of every loop decreases whenever the loop goes round. *)
Fixpoint well_bounded {A : Type} (p : Prog A) : Prop :=
  match p with
  | Ret _ => True
  | Act a k => forall x, well_bounded (k x)
  | While c m k =>
      well_bounded c /\
      (forall s s', exec c s = (Normal true, s') -> m s' < m s) /\
      well_bounded k
  | Fatal _ => True
  end.

(** Where a worker stands with respect to one claimable task: it has yet
    to try the claim, it holds the claim and has yet to visit, or it is
    through with the task. *)
Inductive Status : Type := ToClaim | ToVisit | Through.

Section ClaimDiscipline.

Variable t : Task.
Variable visit : Event -> bool.

Definition visited (s : State) : nat := count_events visit (log s).

Inductive transition : Status -> State -> State -> Status -> Prop :=
| t_other q s s' :
    tasks s' t = tasks s t -> visited s' = visited s ->
    transition q s s' q
| t_win s s' :
    tasks s t = false -> tasks s' t = true -> visited s' = visited s ->
    transition ToClaim s s' ToVisit
| t_lose s s' :
    tasks s t = true -> tasks s' t = true -> visited s' = visited s ->
    transition ToClaim s s' Through
| t_visit s s' :
    tasks s' t = tasks s t -> visited s' = S (visited s) ->
    transition ToVisit s s' Through.

(** The program moves through the statuses by the transitions above and
    ends in a status that [post] accepts.  The test of a loop that goes
    round ends in the status the loop was entered in. *)
Fixpoint follows {A : Type} (post : A -> Status -> Prop) (q : Status)
    (p : Prog A) : Prop :=
  match p with
  | Ret a => post a q
  | Act a k =>
      forall s, exists q',
        transition q s (snd (a s)) q' /\ follows post q' (k (fst (a s)))
  | While c _ k =>
      follows (fun (b : bool) q' => if b then q' = q else follows post q' k)
              q c
  | Fatal _ => True
  end.

Definition pending (sts : list Status) : nat :=
  length (filter (fun q => match q with ToVisit => true | _ => false end) sts).

(** The action leaves the task and the visits of the source alone. *)
Definition untouched (s s' : State) : Prop :=
  tasks s' t = tasks s t /\ visited s' = visited s.

(** A worker is through when it returns. *)
Definition done (_ : unit) (q : Status) : Prop := q = Through.

(** What one step of one worker does to the statuses of the pool. *)
Inductive pool_move (sts : list Status) (s : State)
    (sts' : list Status) (s' : State) : Prop :=
| pm_other : sts' = sts -> untouched s s' -> pool_move sts s sts' s'
| pm_win : tasks s t = false -> tasks s' t = true ->
    visited s' = visited s ->
    pending sts' = S (pending sts) -> pool_move sts s sts' s'
| pm_lose : tasks s t = true -> tasks s' t = true ->
    visited s' = visited s ->
    pending sts' = pending sts -> pool_move sts s sts' s'
| pm_visit : tasks s' t = tasks s t -> visited s' = S (visited s) ->
    S (pending sts') = pending sts -> pool_move sts s sts' s'.

(** The invariant of a session for one task: the visits made plus the
    visits owed by the holder of the claim are one exactly when the task
    is claimed, and no worker is past the claim while it is free. *)
Definition claim_inv (v0 : nat) (sts : list Status) (s : State) : Prop :=
  visited s + pending sts = v0 + (if tasks s t then 1 else 0) /\
  (tasks s t = false -> Forall (eq ToClaim) sts).

End ClaimDiscipline.


(** ** The calls of one invocation *)

(** What the blocks of the two scans add to the log, as functions of the
    state the block starts in. *)

Definition timed (phase : Phase) (w : nat) (l : list Event) : list Event :=
  WorkerTimingsTracker_begin phase w :: l ++ [WorkerTimingsTracker_end phase w].

Definition guarded_calls (s : State) (t : Task) (phase : Phase) (w : nat)
    (e : Event) : list Event :=
  if tasks s t then [] else timed phase w [e].

Definition monitor_calls (vm : VM) (f : option OopClosure) (s : State)
  : list Event :=
  map (SynchronizerIterator_block_do f)
      (seq (om_cur s) (monitor_blocks vm - om_cur s)).

(** The entries of the StringTable a call running from [s] takes. *)
Definition unclaimed_strings (vm : VM) (s : State) : list oop :=
  skipn (string_table_claimed s) (string_table vm).

Definition dead_strings (vm : VM) (is_alive : option BoolObjectClosure)
    (s : State) : list oop :=
  filter (fun p => negb (do_object_b vm is_alive p)) (unclaimed_strings vm s).

Definition unlink_call (vm : VM) (is_alive : option BoolObjectClosure)
    (f : option OopClosure) (s : State) : Event :=
  StringTable_possibly_parallel_unlink_or_oops_do is_alive f
    (length (unclaimed_strings vm s)) (length (dead_strings vm is_alive s)).

Definition process_vm_roots_calls (vm : VM)
    (strong_roots weak_roots : option OopClosure)
    (is_alive : option BoolObjectClosure) (w : nat) (s : State)
  : list Event :=
  guarded_calls s SHENANDOAH_RP_PS_Universe_oops_do UniverseRoots w
    (Universe_oops_do strong_roots) ++
  guarded_calls s SHENANDOAH_RP_PS_JNIHandles_oops_do JNIRoots w
    (JNIHandles_oops_do strong_roots) ++
  guarded_calls s SHENANDOAH_RP_PS_FlatProfiler_oops_do FlatProfilerRoots w
    (FlatProfiler_oops_do strong_roots) ++
  guarded_calls s SHENANDOAH_RP_PS_Management_oops_do ManagementRoots w
    (Management_oops_do strong_roots) ++
  guarded_calls s SHENANDOAH_RP_PS_jvmti_oops_do JVMTIRoots w
    (JvmtiExport_oops_do strong_roots) ++
  guarded_calls s SHENANDOAH_RP_PS_SystemDictionary_oops_do
    SystemDictionaryRoots w
    (SystemDictionary_roots_oops_do strong_roots weak_roots) ++
  (if not_null weak_roots
   then guarded_calls s SHENANDOAH_RP_PS_JNIHandles_weak_oops_do
          JNIWeakRoots w (JNIHandles_weak_oops_do is_alive weak_roots)
   else []) ++
  (if ShenandoahStringDedup_is_enabled vm && not_null weak_roots
   then timed StringDedupRoots w
          [ShenandoahStringDedup_parallel_oops_do weak_roots]
   else []) ++
  timed ObjectSynchronizerRoots w (monitor_calls vm strong_roots s) ++
  (if not_null weak_roots
   then timed StringTableRoots w [unlink_call vm is_alive weak_roots s]
   else []).

(** The pending-list-lock pre-pass evacuates when the slot holds an
    object of the collection set that still points to itself. *)
Definition pll_to_evacuate (vm : VM) (s : State) : bool :=
  let pll := pending_list_lock vm in
  negb (is_null pll) && in_collection_set vm pll &&
  (pll =? match forwardee s pll with Some q => q | None => pll end).

Definition pll_calls (vm : VM) (self : Thread) (s : State) : list Event :=
  let pll := pending_list_lock vm in
  if pll_to_evacuate vm s
  then Heap_evacuate_object pll self ::
       match forwardee s pll, free_space s with
       | None, copy :: _ => [Heap_object_copied pll copy self]
       | _, _ => []
       end
  else [].

Definition code_roots_calls (blobs : option CodeBlobClosure) (w : nat)
  : list Event :=
  if not_null blobs
  then timed CodeCacheRoots w [CsetCodeRoots_possibly_parallel_blobs_do blobs]
  else [].

Definition evacuate_singletons_calls (vm : VM) (oops : option OopClosure)
    (w : nat) (s : State) : list Event :=
  guarded_calls s SHENANDOAH_EVAC_Universe_oops_do UniverseRoots w
    (Universe_oops_do oops) ++
  guarded_calls s SHENANDOAH_EVAC_JNIHandles_oops_do JNIRoots w
    (JNIHandles_oops_do oops) ++
  guarded_calls s SHENANDOAH_EVAC_FlatProfiler_oops_do FlatProfilerRoots w
    (FlatProfiler_oops_do oops) ++
  guarded_calls s SHENANDOAH_EVAC_Management_oops_do ManagementRoots w
    (Management_oops_do oops) ++
  guarded_calls s SHENANDOAH_EVAC_jvmti_oops_do JVMTIRoots w
    (JvmtiExport_oops_do oops) ++
  guarded_calls s SHENANDOAH_EVAC_SystemDictionary_oops_do
    SystemDictionaryRoots w (SystemDictionary_oops_do oops) ++
  guarded_calls s SHENANDOAH_EVAC_JNIHandles_weak_oops_do JNIWeakRoots w
    (JNIHandles_weak_oops_do (Some AlwaysTrueClosure) oops) ++
  (if ShenandoahStringDedup_is_enabled vm
   then timed StringDedupRoots w [ShenandoahStringDedup_parallel_oops_do oops]
   else []) ++
  timed ObjectSynchronizerRoots w (monitor_calls vm oops s) ++
  timed StringTableRoots w [StringTable_possibly_parallel_oops_do oops].

Definition process_evacuate_roots_calls (vm : VM) (self : Thread)
    (oops : option OopClosure) (blobs : option CodeBlobClosure) (w : nat)
    (s : State) : list Event :=
  pll_calls vm self s ++
  timed CLDGRoots w
    [ClassLoaderDataGraph_roots_cld_do (Some (CLDToOopClosure oops))
       (Some (CLDToOopClosure oops))] ++
  timed ThreadRoots w [Threads_possibly_parallel_oops_do oops None None] ++
  code_roots_calls blobs w ++
  evacuate_singletons_calls vm oops w s.

(** State [s] is reached from [s0] by adding [l] to the log, leaving
    alone the claims [keep] accepts, the monitor cursor when [om] is set
    and the StringTable index when [st] is set. *)
Definition reached (s0 s : State) (l : list Event)
    (keep : Task -> bool) (om st : bool) : Prop :=
  log s = log s0 ++ l /\
  (forall u, keep u = true -> tasks s u = tasks s0 u) /\
  (om = true -> om_cur s = om_cur s0) /\
  (st = true -> string_table_claimed s = string_table_claimed s0).

Definition all_tasks (_ : Task) : bool := true.

Definition tasks_but (t : Task) (u : Task) : bool :=
  if Task_eq_dec u t then false else true.


(** ** Properties of calls and example inputs *)

(** A call that takes a liveness predicate is handed the always-true one. *)
Definition always_alive (e : Event) : Prop :=
  match liveness_of e with
  | Some is_alive => is_alive = Some AlwaysTrueClosure
  | None => True
  end.

(** The calls of the code-root block of the evacuation scan. *)
Definition is_code_root_call (e : Event) : bool :=
  match e with
  | CsetCodeRoots_possibly_parallel_blobs_do _ => true
  | WorkerTimingsTracker_begin CodeCacheRoots _ => true
  | WorkerTimingsTracker_end CodeCacheRoots _ => true
  | _ => false
  end.

Definition is_full_code_scan (e : Event) : bool :=
  match e with CodeCache_blobs_do _ => true | _ => false end.

Definition is_phase_record (e : Event) : bool :=
  is_workers_start e || is_workers_end e.

(** Where the forwarding pointer of an object leads. *)
Definition resolve (s : State) (p : oop) : oop :=
  match forwardee s p with Some q => q | None => p end.

(** Every call added between [s] and [s'] satisfies [P]. *)
Definition only_calls (P : Event -> Prop) (s s' : State) : Prop :=
  exists l, log s' = log s ++ l /\ Forall P l.

(** The calls a session adds to the log, none when it was not
    constructed. *)
Definition session_calls (s : State) (r : option (Pool * State))
  : list Event :=
  match r with
  | Some (_, s') => delta s s'
  | None => []
  end.

(** The weak sources the strong-root scan is said to skip without a weak
    visitor. *)
Definition weak_sources : list RootSource :=
  [JNIWeakTable; DedupTable; MonitorTable; InternTable].

(** A VM in evacuation at a safepoint: the pending-list lock is object 7,
    in the collection set; three monitor blocks; three interned strings,
    of which a caller's predicate finds 12 dead. *)
Definition example_vm : VM :=
  {| ShenandoahStringDedup_is_enabled := true;
     UseCompressedOops := true;
     is_evacuation_in_progress := true;
     is_at_safepoint := true;
     pending_list_lock := 7;
     in_collection_set := fun p => p =? 7;
     monitor_blocks := 3;
     string_table := [11; 12; 13];
     caller_is_alive := fun _ p => negb (p =? 12) |}.

(** The same VM with an empty StringTable. *)
Definition example_vm_no_strings : VM :=
  {| ShenandoahStringDedup_is_enabled := true;
     UseCompressedOops := true;
     is_evacuation_in_progress := true;
     is_at_safepoint := true;
     pending_list_lock := 7;
     in_collection_set := fun p => p =? 7;
     monitor_blocks := 3;
     string_table := [];
     caller_is_alive := fun _ p => negb (p =? 12) |}.

Definition example_state : State :=
  {| tasks := fun _ => false; n_threads := 0; threads_completed := 0;
     om_cur := 0; string_table_claimed := 0;
     forwardee := fun _ => None; free_space := [100; 101];
     clock := 0; log := [] |}.

Definition example_tables : RootTables :=
  {| references := fun src =>
       match src with
       | UniverseTable => [3]
       | ThreadStacks => [5]
       | _ => []
       end;
     code_table := [20; 21; 22];
     has_cset_oops := fun b => b =? 21 |}.

Definition example_vm_args (_ : nat) : VmRootsArgs :=
  {| vm_strong_roots := Some 1; vm_weak_roots := Some 2;
     vm_is_alive := Some (CallerIsAliveClosure 0) |}.

Definition example_evac_args (_ : nat) : EvacArgs :=
  {| evac_oops := Some 1;
     evac_blobs := Some (CodeBlobToOopClosure (Some 1) true) |}.

(** Workers [0 .. n-1] take turns, [k] rounds. *)
Definition round_robin (n k : nat) : list nat :=
  flat_map (fun _ => seq 0 n) (seq 0 k).


(** The counts the intern-table traversal of a call run from [s] stores
    through its two out-parameters. *)
Definition unlink_counts (vm : VM) (is_alive : option BoolObjectClosure)
    (s : State) : nat * nat :=
  (length (unclaimed_strings vm s), length (dead_strings vm is_alive s)).

(** The calls [process_all_roots_slow] makes before it turns to the
    threads. *)
Definition slow_calls_before_threads (vm : VM) (oops : option OopClosure)
  : list Event :=
  [CodeCache_blobs_do (CodeBlobToOopClosure oops (negb FixRelocations));
   ClassLoaderDataGraph_cld_do (CLDToOopClosure oops);
   Universe_oops_do oops;
   FlatProfiler_oops_do oops;
   Management_oops_do oops;
   JvmtiExport_oops_do oops;
   JNIHandles_oops_do oops;
   JNIHandles_weak_oops_do (Some AlwaysTrueClosure) oops;
   ObjectSynchronizer_oops_do oops;
   SystemDictionary_roots_oops_do oops oops;
   StringTable_oops_do oops] ++
  (if ShenandoahStringDedup_is_enabled vm
   then [ShenandoahStringDedup_oops_do_slow oops]
   else []).


(** One when the object still points to itself, zero once forwarded. *)
Definition unforwarded (s : State) (p : oop) : nat :=
  match forwardee s p with None => 1 | Some _ => 0 end.

(** Between [s] and [s'] object [p] was copied at most as often as it lost
    its unforwarded state. *)
Definition copies_bounded (p : oop) (s s' : State) : Prop :=
  exists l, log s' = log s ++ l /\
            count_events (is_copy_of p) l + unforwarded s' p
            <= unforwarded s p.

(** Between [s] and [s'] no phase start or end was recorded and the clock
    did not go back. *)
Definition between_records (s s' : State) : Prop :=
  only_calls (fun e => is_phase_record e = false) s s' /\
  clock s <= clock s'.


(** The only object the scan itself may evacuate is the pending-list lock,
    found non-null and in the collection set. *)
Definition evacuates_only_pll (vm : VM) (e : Event) : Prop :=
  match e with
  | Heap_evacuate_object p _ =>
      p = pending_list_lock vm /\ p <> NULL /\ in_collection_set vm p = true
  | Heap_object_copied p _ _ => p = pending_list_lock vm
  | _ => True
  end.


(** ** Disciplines by status *)

(** A worker carries a status of type [Q] through its program; every
    atomic action moves the status by [trans], read on the state before
    and the state after.  The test of a loop that goes round ends in the
    status the loop was entered in; the program ends in a status [post]
    accepts. *)
Section Typestate.

Variable Q : Type.
Variable trans : Q -> State -> State -> Q -> Prop.

Fixpoint obeys {A : Type} (post : A -> Q -> Prop) (q : Q) (p : Prog A)
  : Prop :=
  match p with
  | Ret a => post a q
  | Act a k =>
      forall s, exists q',
        trans q s (snd (a s)) q' /\ obeys post q' (k (fst (a s)))
  | While c _ k =>
      obeys (fun (b : bool) q' => if b then q' = q else obeys post q' k) q c
  | Fatal _ => True
  end.

(** One step of a pool either leaves the statuses and the state alone or
    moves the status of one worker by [trans]. *)
Inductive pool_moved (qs : list Q) (s : State) (qs' : list Q) (s' : State)
  : Prop :=
| pool_still : qs' = qs -> s' = s -> pool_moved qs s qs' s'
| pool_one (before after : list Q) (q q' : Q) :
    qs = before ++ q :: after -> qs' = before ++ q' :: after ->
    trans q s s' q' -> pool_moved qs s qs' s'.

End Typestate.

(** The status of a worker that has to bring about a lasting condition
    [P] of the state: [true] once an action of its own has left [P]
    holding.  No action may undo [P]. *)
Definition reaching (P : State -> Prop) (b : bool) (s s' : State)
    (b' : bool) : Prop :=
  (P s -> P s') /\ (b' = b \/ (b' = true /\ P s')).

(** The status of a worker that has to make one call of a kind: [true]
    once it has made it. *)
Definition tallying (kind : Event -> bool) (b : bool) (s s' : State)
    (b' : bool) : Prop :=
  (b' = b /\ count_events kind (log s') = count_events kind (log s)) \/
  (b = false /\ b' = true /\
   count_events kind (log s') = S (count_events kind (log s))).

Definition returned_true {A : Type} (_ : A) (b : bool) : Prop := b = true.

(** Lasting conditions of a session. *)
Definition task_claimed (t : Task) (s : State) : Prop := tasks s t = true.

Definition monitors_exhausted (vm : VM) (s : State) : Prop :=
  monitor_blocks vm <= om_cur s.

Definition strings_claimed (vm : VM) (s : State) : Prop :=
  length (string_table vm) <= string_table_claimed s.

(** The monitor blocks a list of calls hands to closures, in order. *)
Definition blocks_visited (l : list Event) : list nat :=
  flat_map (fun e => match e with
                     | SynchronizerIterator_block_do _ b => [b]
                     | _ => []
                     end) l.

(** Call [e] hands monitor block [b] to a closure. *)
Definition is_block (b : nat) (e : Event) : bool :=
  match e with
  | SynchronizerIterator_block_do _ b' => b' =? b
  | _ => false
  end.

(** The monitor block a call visits lies within the block list. *)
Definition block_in_range (vm : VM) (e : Event) : Prop :=
  match e with
  | SynchronizerIterator_block_do _ b => b < monitor_blocks vm
  | _ => True
  end.

(** Where a worker stands with respect to monitor block [b]: its status
    is [true] from the step in which it takes the block off the cursor to
    the step in which it visits the block. *)
Section BlockDiscipline.

Variable b : nat.

Definition block_taken (s : State) : bool := b <? om_cur s.

Definition block_visits (s : State) : nat := count_events (is_block b) (log s).

Inductive holding : bool -> State -> State -> bool -> Prop :=
| h_other q s s' :
    block_taken s' = block_taken s -> block_visits s' = block_visits s ->
    holding q s s' q
| h_take s s' :
    block_taken s = false -> block_taken s' = true ->
    block_visits s' = block_visits s ->
    holding false s s' true
| h_visit s s' :
    block_taken s' = block_taken s ->
    block_visits s' = S (block_visits s) ->
    holding true s s' false.

End BlockDiscipline.

Definition returned_false {A : Type} (_ : A) (b : bool) : Prop := b = false.



(** The workers of a status list that have made their call. *)
Definition count_true (bs : list bool) : nat :=
  length (filter (fun b => b) bs).


(** ** Timing of the traversals *)

Definition Phase_eq_dec (a b : Phase) : {a = b} + {a <> b}.
Proof. decide equality. apply Nat.eq_dec. Defined.

(** The phase under which the parallel scans time a traversal. *)
Definition phase_of (e : Event) : option Phase :=
  match e with
  | ClassLoaderDataGraph_roots_cld_do _ _ => Some CLDGRoots
  | Threads_possibly_parallel_oops_do _ _ _ => Some ThreadRoots
  | CsetCodeRoots_possibly_parallel_blobs_do _ => Some CodeCacheRoots
  | Universe_oops_do _ => Some UniverseRoots
  | JNIHandles_oops_do _ => Some JNIRoots
  | FlatProfiler_oops_do _ => Some FlatProfilerRoots
  | Management_oops_do _ => Some ManagementRoots
  | JvmtiExport_oops_do _ => Some JVMTIRoots
  | SystemDictionary_roots_oops_do _ _ => Some SystemDictionaryRoots
  | SystemDictionary_oops_do _ => Some SystemDictionaryRoots
  | JNIHandles_weak_oops_do _ _ => Some JNIWeakRoots
  | ShenandoahStringDedup_parallel_oops_do _ => Some StringDedupRoots
  | SynchronizerIterator_block_do _ _ => Some ObjectSynchronizerRoots
  | StringTable_possibly_parallel_oops_do _ => Some StringTableRoots
  | StringTable_possibly_parallel_unlink_or_oops_do _ _ _ _ =>
      Some StringTableRoots
  | _ => None
  end.

Definition same_phase (open : option Phase) (phase : Phase) : bool :=
  match open with
  | Some p => if Phase_eq_dec p phase then true else false
  | None => false
  end.

(** Reads a list of calls with the tracker that is open, if one is: a
    tracker is opened only when none is open and closed only when it is
    the open one, both for worker [w]; a traversal that has a phase runs
    under the tracker of that phase; no tracker is left open. *)
Fixpoint well_timed (w : nat) (open : option Phase) (l : list Event)
  : bool :=
  match l with
  | [] => match open with None => true | Some _ => false end
  | WorkerTimingsTracker_begin phase w' :: l' =>
      match open with None => true | Some _ => false end
      && (w' =? w) && well_timed w (Some phase) l'
  | WorkerTimingsTracker_end phase w' :: l' =>
      same_phase open phase && (w' =? w) && well_timed w None l'
  | e :: l' =>
      match phase_of e with
      | Some phase => same_phase open phase
      | None => true
      end && well_timed w open l'
  end.

Definition is_tracker (e : Event) : bool :=
  match e with
  | WorkerTimingsTracker_begin _ _ | WorkerTimingsTracker_end _ _ => true
  | _ => false
  end.


(** Calls of the constructors. *)
Definition is_clear_claimed_marks (e : Event) : bool :=
  match e with ClassLoaderDataGraph_clear_claimed_marks => true | _ => false end.

Definition is_set_par_threads (e : Event) : bool :=
  match e with Heap_set_par_threads _ => true | _ => false end.

(** The example VM outside evacuation. *)
Definition example_vm_idle : VM :=
  {| ShenandoahStringDedup_is_enabled := true;
     UseCompressedOops := true;
     is_evacuation_in_progress := false;
     is_at_safepoint := true;
     pending_list_lock := 7;
     in_collection_set := fun p => p =? 7;
     monitor_blocks := 3;
     string_table := [11; 12; 13];
     caller_is_alive := fun _ p => negb (p =? 12) |}.

(** ** The closures handed on *)

(** Every oop closure call [e] hands to a collaborator is [strong] where
    the source declares the parameter strong (or has one parameter only
    and is scanned for strong roots), and [weak] where the call is on a
    weak table. *)
Definition routes (strong weak : option OopClosure) (e : Event) : Prop :=
  match e with
  | Universe_oops_do f | FlatProfiler_oops_do f | Management_oops_do f
  | JvmtiExport_oops_do f | JNIHandles_oops_do f
  | ObjectSynchronizer_oops_do f | SystemDictionary_oops_do f
  | SynchronizerIterator_block_do f _
  | Threads_possibly_parallel_oops_do f _ _ => f = strong
  | JNIHandles_weak_oops_do _ f
  | StringTable_oops_do f
  | StringTable_possibly_parallel_oops_do f
  | StringTable_possibly_parallel_unlink_or_oops_do _ f _ _
  | ShenandoahStringDedup_oops_do_slow f
  | ShenandoahStringDedup_parallel_oops_do f => f = weak
  | SystemDictionary_roots_oops_do f g => f = strong /\ g = weak
  | _ => True
  end.

(** The class-loader and code closures of call [e] are built on [oops], or
    are the caller's [blobs]. *)
Definition wraps (oops : option OopClosure) (blobs : option CodeBlobClosure)
    (e : Event) : Prop :=
  match e with
  | ClassLoaderDataGraph_cld_do c => c = CLDToOopClosure oops
  | ClassLoaderDataGraph_roots_cld_do c d =>
      c = Some (CLDToOopClosure oops) /\ d = Some (CLDToOopClosure oops)
  | Threads_possibly_parallel_oops_do _ c b =>
      (c = None \/ c = Some (CLDToOopClosure oops)) /\
      (b = None \/
       b = Some (CodeBlobToOopClosure oops (negb FixRelocations)))
  | CodeCache_blobs_do b =>
      b = CodeBlobToOopClosure oops (negb FixRelocations)
  | CsetCodeRoots_possibly_parallel_blobs_do b => b = blobs
  | _ => True
  end.

(** Between [s] and [s'] the claim set was told of no worker done and
    of no other number of workers. *)
Definition same_worker_count (s s' : State) : Prop :=
  threads_completed s' = threads_completed s /\ n_threads s' = n_threads s.

(** ** Returning under a schedule *)

(** A worker returns whatever the other workers do, as long as it is given
    turns.  [within post n p] bounds the turns [p] still needs: run from a
    state [s] in which [left s] units of shared work are left, it returns
    within [n + weight * left s] steps of its own, never stops on an
    assertion, and ends with a budget [post] accepts.  No step gives
    shared work back; a step may raise the budget only by taking shared
    work.  The test of a loop that goes round ends with the budget the
    loop was entered with. *)
Section Turns.

Variable left : State -> nat.
Variable weight : nat.

Fixpoint within {A : Type} (post : A -> nat -> Prop) (n : nat) (p : Prog A)
  : Prop :=
  match p with
  | Ret a => post a n
  | Act a k =>
      forall s,
        left (snd (a s)) <= left s /\
        exists n',
          n' + weight * left (snd (a s)) < n + weight * left s /\
          within post n' (k (fst (a s)))
  | While c _ k =>
      exists nc,
        nc < n /\
        within (fun (b : bool) n' => if b then n' = n else within post n' k)
               nc c
  | Fatal _ => False
  end.

(** A program without loops or failing assertions that is at most [n]
    actions long. *)
Fixpoint straight {A : Type} (n : nat) (p : Prog A) {struct p} : Prop :=
  match p with
  | Ret _ => True
  | Act a k =>
      match n with
      | 0 => False
      | S n' => forall x, straight n' (k x)
      end
  | While _ _ _ => False
  | Fatal _ => False
  end.

(** The budget raised by [d]. *)
Definition raised {A : Type} (d : nat) (post : A -> nat -> Prop)
    (a : A) (n : nat) : Prop :=
  exists n0, n = n0 + d /\ post a n0.

End Turns.

Definition any_budget {A : Type} (_ : A) (_ : nat) : Prop := True.

(** The turns a worker of either scan needs at most: the calls and claims
    of the longest path, and three steps for every monitor block. *)
Definition turns_needed (vm : VM) : nat := 64 + 3 * monitor_blocks vm.

(** The schedule gives each of the workers [0 .. n-1] the turns it
    needs. *)
Definition enough_turns (vm : VM) (n : nat) (sched : list nat) : Prop :=
  forall w, w < n -> turns_needed vm <= count_occ Nat.eq_dec sched w.

(** ** Basic facts about programs *)

Lemma exec_bind {A B : Type} (p : Prog A) (f : A -> Prog B) (s : State) :
  exec (bind p f) s =
  match exec p s with
  | (Normal x, s') => exec (f x) s'
  | (FatalError msg, s') => (FatalError msg, s')
  end.
Proof.
  revert B f s.
  induction p as [A a | A X a k IH | A c _ m k IH | A msg];
    intros B f s; simpl.
  - reflexivity.
  - destruct (a s) as [x s']. apply IH.
  - destruct (loop (exec c) (m s) s) as [[u | msg] s']; [apply IH | reflexivity].
  - reflexivity.
Qed.

Lemma respects_bind {A B : Type} (R : State -> State -> Prop)
    (p : Prog A) (f : A -> Prog B) :
  respects R p -> (forall x, respects R (f x)) -> respects R (bind p f).
Proof.
  revert B f.
  induction p as [A a | A X a k IH | A c _ m k IH | A msg];
    intros B f Hp Hf; simpl in *; auto.
  - intros s. destruct (Hp s) as [Ha Hk]. split; auto.
  - destruct Hp as [Hc Hk]. split; auto.
Qed.

Lemma respects_step {A : Type} (R : State -> State -> Prop)
    (Rrefl : forall s, R s s) (p : Prog A) (s : State) :
  respects R p ->
  R s (snd (step p s)) /\ respects R (fst (step p s)).
Proof.
  destruct p as [a | X a k | c m k | msg]; simpl; intros H.
  - split; [apply Rrefl | exact I].
  - destruct (H s) as [Ha Hk].
    destruct (a s) as [x s']. simpl in *. auto.
  - destruct H as [Hc Hk]. split; [apply Rrefl |].
    apply respects_bind; [exact Hc |].
    intros [|]; simpl; auto.
  - split; [apply Rrefl | exact I].
Qed.

Lemma respects_loop (R : State -> State -> Prop)
    (Rrefl : forall s, R s s)
    (Rtrans : forall a b c, R a b -> R b c -> R a c)
    (c : State -> Outcome bool * State) :
  (forall s, R s (snd (c s))) ->
  forall n s, R s (snd (loop c n s)).
Proof.
  intros Hc. induction n as [| n IH]; intros s; simpl;
    specialize (Hc s); destruct (c s) as [[[|] | msg] s']; simpl in *;
    try exact Hc.
  eapply Rtrans; [exact Hc | apply IH].
Qed.

Lemma respects_exec {A : Type} (R : State -> State -> Prop)
    (Rrefl : forall s, R s s)
    (Rtrans : forall a b c, R a b -> R b c -> R a c)
    (p : Prog A) :
  respects R p -> forall s, R s (snd (exec p s)).
Proof.
  induction p as [A a | A X a k IH | A c IHc m k IH | A msg]; simpl;
    intros H s; auto.
  - destruct (H s) as [Ha Hk].
    destruct (a s) as [x s']. simpl in *.
    eapply Rtrans; [exact Ha | apply IH, Hk].
  - destruct H as [Hc Hk].
    pose proof (respects_loop R Rrefl Rtrans (exec c) (IHc Hc) (m s) s)
      as Hl.
    destruct (loop (exec c) (m s) s) as [[u | msg] s']; simpl in *;
      [| exact Hl].
    eapply Rtrans; [exact Hl | apply IH, Hk].
Qed.

Lemma respects_step_worker (R : State -> State -> Prop)
    (Rrefl : forall s, R s s) (pool : Pool) :
  Forall (respects R) pool ->
  forall w s, R s (snd (step_worker w pool s)) /\
              Forall (respects R) (fst (step_worker w pool s)).
Proof.
  induction pool as [| p rest IH]; intros H w s; simpl.
  - destruct w; simpl; (split; [apply Rrefl | constructor]).
  - inversion H as [| ? ? Hp Hrest]; subst.
    destruct w as [| w]; simpl.
    + destruct (respects_step R Rrefl p s Hp) as [H1 H2].
      destruct (step p s) as [p' s']. simpl in *.
      split; [exact H1 | constructor; assumption].
    + destruct (IH Hrest w s) as [H1 H2].
      destruct (step_worker w rest s) as [rest' s']. simpl in *.
      split; [exact H1 | constructor; assumption].
Qed.

Lemma respects_run_schedule (R : State -> State -> Prop)
    (Rrefl : forall s, R s s)
    (Rtrans : forall a b c, R a b -> R b c -> R a c)
    (sched : list nat) :
  forall pool s, Forall (respects R) pool ->
    R s (snd (run_schedule sched pool s)) /\
    Forall (respects R) (fst (run_schedule sched pool s)).
Proof.
  induction sched as [| w sched IH]; intros pool s H; simpl.
  - split; [apply Rrefl | exact H].
  - unfold pool_step. destruct (existsb is_fatal pool).
    + apply IH, H.
    + destruct (respects_step_worker R Rrefl H w s) as [H1 H2].
      destruct (step_worker w pool s) as [pool' s']. simpl in *.
      destruct (IH pool' s' H2) as [H3 H4]. split; auto.
      eapply Rtrans; eauto.
Qed.

Lemma step_worker_length (pool : Pool) :
  forall w s, length (fst (step_worker w pool s)) = length pool.
Proof.
  induction pool as [| p pool IH]; intros w s; destruct w; simpl;
    try reflexivity.
  - destruct (step p s). reflexivity.
  - specialize (IH w s). destruct (step_worker w pool s).
    simpl in *. congruence.
Qed.

Lemma run_schedule_length (sched : list nat) :
  forall pool s, length (fst (run_schedule sched pool s)) = length pool.
Proof.
  induction sched as [| w sched IH]; intros pool s; simpl; [reflexivity |].
  unfold pool_step. destruct (existsb is_fatal pool); [apply IH |].
  pose proof (step_worker_length pool w s) as Hw.
  destruct (step_worker w pool s) as [pool' s']. simpl in *.
  rewrite IH. exact Hw.
Qed.

(** ** The claim discipline *)

Section ClaimFacts.

Variable t : Task.
Variable visit : Event -> bool.

Local Notation "'transition'" := (@transition t visit) (only parsing).
Local Notation "'follows'" := (@follows t visit _) (only parsing).
Local Notation "'visited'" := (@visited visit) (only parsing).
Local Notation "'untouched'" := (@untouched t visit) (only parsing).
Local Notation "'pool_move'" := (@pool_move t visit) (only parsing).
Local Notation "'claim_inv'" := (@claim_inv t visit) (only parsing).

Lemma follows_mono {A : Type} (p : Prog A)
    (post post' : A -> Status -> Prop) (q : Status) :
  (forall a q', post a q' -> post' a q') ->
  follows post q p -> follows post' q p.
Proof.
  revert post post' q.
  induction p as [A a | A X a k IH | A c IHc m k IH | A msg];
    intros post post' q Himp H; simpl in *; auto.
  - intros s. destruct (H s) as [q' [Ht Hk]]. exists q'. split; eauto.
  - eapply IHc; [| exact H].
    intros [|] q' Hb; [exact Hb | eapply IH; eauto].
Qed.

Lemma follows_bind {A B : Type} (p : Prog A) (f : A -> Prog B)
    (post : B -> Status -> Prop) (q : Status) :
  follows (fun a q' => follows post q' (f a)) q p ->
  follows post q (bind p f).
Proof.
  revert B f post q.
  induction p as [A a | A X a k IH | A c _ m k IH | A msg];
    intros B f post q H; simpl in *; auto.
  - intros s. destruct (H s) as [q' [Ht Hk]]. exists q'. split; auto.
  - eapply follows_mono; [| exact H].
    intros [|] q' Hb; [exact Hb | apply IH, Hb].
Qed.

(** A program that neither touches the task nor visits keeps its status. *)
Lemma untouched_follows {A : Type} (p : Prog A) (q : Status) :
  respects untouched p -> follows (fun _ q' => q' = q) q p.
Proof.
  revert q.
  induction p as [A a | A X a k IH | A c IHc m k IH | A msg]; simpl;
    intros q H; auto.
  - intros s. exists q.
    destruct (H s) as [[H1 H2] Hk].
    split; [apply t_other; auto | apply IH, Hk].
  - destruct H as [Hc Hk].
    eapply follows_mono; [| apply (IHc q Hc)].
    intros [|] q' ->; [reflexivity | apply IH, Hk].
Qed.

Lemma follows_seq {A B : Type} (p : Prog A) (f : A -> Prog B)
    (post : B -> Status -> Prop) (q q1 : Status) :
  follows (fun _ q' => q' = q1) q p ->
  (forall x, follows post q1 (f x)) ->
  follows post q (bind p f).
Proof.
  intros Hp Hf. apply follows_bind.
  eapply follows_mono; [| exact Hp].
  intros a q' ->. apply Hf.
Qed.

Lemma follows_step {A : Type} (post : A -> Status -> Prop)
    (p : Prog A) (q : Status) (s : State) :
  follows post q p ->
  exists q', transition q s (snd (step p s)) q' /\
             follows post q' (fst (step p s)).
Proof.
  destruct p as [a | X a k | c m k | msg]; simpl; intros H.
  - exists q. split; [apply t_other; reflexivity | exact H].
  - destruct (H s) as [q' [Ht Hk]]. exists q'.
    destruct (a s) as [x s']. simpl in *. auto.
  - exists q. split; [apply t_other; reflexivity |].
    apply follows_bind. eapply follows_mono; [| exact H].
    intros [|] q' Hb; [subst q'; exact H | exact Hb].
  - exists q. split; [apply t_other; reflexivity | exact I].
Qed.

Lemma step_worker_follows (pool : Pool) :
  forall sts w s,
    Forall2 (follows done) sts pool ->
    exists sts',
      Forall2 (follows done) sts' (fst (step_worker w pool s)) /\
      pool_move sts s sts' (snd (step_worker w pool s)).
Proof.
  induction pool as [| p rest IH]; intros sts w s H.
  - inversion H; subst. exists [].
    destruct w; simpl;
      (split; [constructor | apply pm_other; [reflexivity | split; reflexivity]]).
  - inversion H as [| q ? sts0 ? Hq Hrest]; subst. simpl.
    destruct w as [| w]; simpl.
    + destruct (follows_step done p q s Hq) as [q' [Ht Hf]].
      destruct (step p s) as [p' s']. simpl in *.
      exists (q' :: sts0). split; [constructor; auto |].
      inversion Ht; subst.
      * apply pm_other; [reflexivity | split; auto].
      * apply pm_win; auto.
      * apply pm_lose; auto.
      * apply pm_visit; auto.
    + destruct (IH sts0 w s Hrest) as [sts' [HF Hm]].
      destruct (step_worker w rest s) as [rest' s']. simpl in *.
      exists (q :: sts'). split; [constructor; auto |].
      destruct Hm as [-> Hu | H1 H2 H3 H4 | H1 H2 H3 H4 | H1 H2 H3];
        [apply pm_other | apply pm_win | apply pm_lose | apply pm_visit];
        auto; unfold pending in *; simpl; destruct q; simpl; auto.
Qed.

Lemma pending_ToClaim (sts : list Status) :
  Forall (eq ToClaim) sts -> pending sts = 0.
Proof.
  induction 1 as [| q sts Hq _ IH]; [reflexivity |].
  subst q. unfold pending in *. simpl. exact IH.
Qed.

Lemma claim_inv_move (v0 : nat) (sts sts' : list Status) (s s' : State) :
  claim_inv v0 sts s -> pool_move sts s sts' s' -> claim_inv v0 sts' s'.
Proof.
  intros [Hsum Hfree] Hm. unfold claim_inv.
  destruct Hm as [-> [Ht Hv] | H1 H2 H3 H4 | H1 H2 H3 H4 | H1 H2 H3].
  - rewrite Ht, Hv. auto.
  - rewrite H2, H3, H4. rewrite H1 in Hsum.
    rewrite (pending_ToClaim (Hfree H1)) in *. split; [lia | discriminate].
  - rewrite H2, H3, H4. rewrite H1 in Hsum. split; [lia | discriminate].
  - rewrite H1, H2. split; [lia |].
    intros Hf.
    rewrite (pending_ToClaim (Hfree Hf)) in H3. discriminate.
Qed.

Lemma run_schedule_claim_inv (v0 : nat) (sched : list nat) :
  forall pool sts s,
    Forall2 (follows done) sts pool -> claim_inv v0 sts s ->
    exists sts',
      Forall2 (follows done) sts' (fst (run_schedule sched pool s)) /\
      claim_inv v0 sts' (snd (run_schedule sched pool s)).
Proof.
  induction sched as [| w sched IH]; intros pool sts s HF Hinv; simpl.
  - exists sts. auto.
  - unfold pool_step. destruct (existsb is_fatal pool).
    + apply IH with (sts := sts); auto.
    + destruct (step_worker_follows w s HF) as [sts' [HF' Hm]].
      destruct (step_worker w pool s) as [pool' s']. simpl in *.
      apply IH with (sts := sts'); auto.
      eapply claim_inv_move; eauto.
Qed.

Lemma returned_through (pool : Pool) (sts : list Status) :
  Forall2 (follows done) sts pool -> all_returned pool = true ->
  Forall (eq Through) sts.
Proof.
  induction 1 as [| q p sts pool Hq _ IH]; simpl; intros Hr.
  - constructor.
  - apply andb_true_iff in Hr. destruct Hr as [Hp Hr].
    constructor; [| apply IH, Hr].
    destruct p; simpl in *; try discriminate. symmetry. exact Hq.
Qed.

(** Exactly once: when every worker of a non-empty pool starts before its
    claim and all have returned, the source was visited once more than
    before the session. *)
Lemma exactly_once (sched : list nat) (pool : Pool) (s : State) :
  pool <> [] ->
  Forall (follows done ToClaim) pool ->
  tasks s t = false ->
  all_returned (fst (run_schedule sched pool s)) = true ->
  visited (snd (run_schedule sched pool s)) = S (visited s).
Proof.
  intros Hne Hpool Hfree Hret.
  assert (HF : Forall2 (follows done) (map (fun _ => ToClaim) pool) pool).
  { clear -Hpool. induction Hpool; simpl; constructor; auto. }
  assert (Hinv : claim_inv (visited s) (map (fun _ => ToClaim) pool) s).
  { split.
    - rewrite Hfree. rewrite pending_ToClaim; [lia |].
      clear. induction pool; simpl; constructor; auto.
    - intros _. clear. induction pool; simpl; constructor; auto. }
  destruct (run_schedule_claim_inv sched HF Hinv) as [sts' [HF' [Hsum Hfr]]].
  pose proof (returned_through HF' Hret) as Hthrough.
  assert (Hlen : sts' <> []).
  { intros ->. inversion HF' as [Hnil Hpl |].
    pose proof (run_schedule_length sched pool s) as Hl.
    rewrite <- Hpl in Hl. destruct pool; [congruence | discriminate]. }
  assert (Hpend : pending sts' = 0).
  { clear -Hthrough. induction Hthrough as [| q l Hq _ IH]; [reflexivity |].
    subst q. unfold pending in *. simpl. exact IH. }
  destruct (tasks (snd (run_schedule sched pool s)) t) eqn:Ht.
  - lia.
  - specialize (Hfr eq_refl). destruct sts' as [| q l]; [congruence |].
    inversion Hfr; subst. inversion Hthrough; subst. discriminate.
Qed.

End ClaimFacts.

(** ** The claimed singletons of the two scans *)

Lemma count_events_snoc (f : Event -> bool) (l : list Event) (e : Event) :
  count_events f (l ++ [e]) = count_events f l + (if f e then 1 else 0).
Proof.
  unfold count_events. rewrite filter_app, length_app. simpl.
  destruct (f e); reflexivity.
Qed.

Lemma count_events_app (f : Event -> bool) (l l' : list Event) :
  count_events f (l ++ l') = count_events f l + count_events f l'.
Proof. unfold count_events. rewrite filter_app, length_app. reflexivity. Qed.

Lemma tasks_claimed (t : Task) (s : State) :
  tasks (set_tasks s (fun u => if Task_eq_dec u t then true else tasks s u)) t
  = true.
Proof. simpl. destruct (Task_eq_dec t t); [reflexivity | congruence]. Qed.

(** The guarded block of the task under study: the winner of the claim
    visits once, between the two readings of the tracker. *)
Lemma follows_guarded (t : Task) (visit : Event -> bool)
    (phase : Phase) (w : nat) (e : Event) :
  visit e = true ->
  visit (WorkerTimingsTracker_begin phase w) = false ->
  visit (WorkerTimingsTracker_end phase w) = false ->
  follows t visit (fun _ q => q = Through) ToClaim
    (claimed <- SubTasksDone_is_task_claimed t ;;
     when (negb claimed)
       (ShenandoahWorkerTimingsTracker phase w (call e))).
Proof.
  intros He Hb Hn. simpl. intros s.
  pose proof (tasks_claimed t s) as Hset.
  destruct (tasks s t) eqn:Ht; simpl.
  - exists Through. split; [apply t_lose; auto | reflexivity].
  - exists ToVisit. split; [apply t_win; auto |].
    intros s1. exists ToVisit. split.
    { apply t_other; [reflexivity |].
      unfold visited. simpl. rewrite count_events_snoc, Hb. lia. }
    intros s2. exists Through. split.
    { apply t_visit; [reflexivity |].
      unfold visited. simpl. rewrite count_events_snoc, He. lia. }
    intros s3. exists Through. split; [| reflexivity].
    apply t_other; [reflexivity |].
    unfold visited. simpl. rewrite count_events_snoc, Hn. lia.
Qed.

Ltac respects_tac :=
  repeat match goal with
  | |- respects _ (bind _ _) => apply respects_bind
  | |- respects _ (when false _) => exact I
  | |- respects _ (when true _) => progress simpl
  | |- respects _ (when ?b _) => destruct b eqn:?; simpl
  | |- respects _ (if ?b then _ else _) => destruct b eqn:?
  | |- respects _ (assert ?b _) => destruct b eqn:?; simpl
  | |- forall _, _ => intro
  | |- _ /\ _ => split
  | |- True => exact I
  | |- respects _ _ => progress simpl
  | |- respects _ ?p =>
      match p with
      | context [fst (if ?b then _ else _)] => destruct b eqn:?; simpl
      end
  end.

Ltac solve_untouched :=
  unfold untouched, visited;
  repeat match goal with
  | |- context [if ?b then (_, _) else (_, _)] => destruct b
  | |- context [match forwardee ?s ?p with _ => _ end] =>
      destruct (forwardee s p)
  | |- context [match free_space ?s with _ => _ end] =>
      destruct (free_space s)
  end;
  simpl; rewrite ?count_events_snoc; simpl;
  split; solve [reflexivity | lia].

Ltac walk :=
  lazymatch goal with
  | |- follows _ _ _ ?q (bind _ _) =>
      first
        [ apply follows_seq with (q1 := q);
          [ solve [apply untouched_follows; respects_tac; solve_untouched]
          | intros _; walk ]
        | apply follows_seq with (q1 := Through);
          [ solve [apply follows_guarded; reflexivity]
          | intros _; walk ] ]
  | |- follows _ _ _ Through _ =>
      apply follows_mono with (post := fun _ q' => q' = Through);
      [ intros _ q' Hq; exact Hq
      | apply untouched_follows; respects_tac; solve_untouched ]
  end.

Lemma process_vm_roots_follows (vm : VM)
    (strong_roots weak_roots : option OopClosure)
    (is_alive : option BoolObjectClosure) (worker_id : nat)
    (src : RootSource) :
  In src claimed_singletons ->
  follows (rp_task src) (visits src) done ToClaim
    (process_vm_roots vm strong_roots weak_roots is_alive worker_id).
Proof.
  intros Hin. unfold done, process_vm_roots.
  simpl in Hin.
  destruct Hin as [<- | [<- | [<- | [<- | [<- | [<- | []]]]]]];
    unfold rp_task; walk.
Qed.

Lemma process_evacuate_roots_follows (vm : VM) (self : Thread)
    (oops : option OopClosure) (blobs : option CodeBlobClosure)
    (worker_id : nat) (src : RootSource) :
  In src claimed_singletons ->
  follows (evac_task src) (visits src) done ToClaim
    (process_evacuate_roots vm self oops blobs worker_id).
Proof.
  intros Hin. unfold done, process_evacuate_roots.
  simpl in Hin.
  destruct Hin as [<- | [<- | [<- | [<- | [<- | [<- | []]]]]]];
    unfold evac_task; walk.
Qed.

Lemma ShenandoahRootProcessor_ctor_fresh (vm : VM) (n : nat) (phase : Phase)
    (s s1 : State) (o : unit) :
  exec (ShenandoahRootProcessor_ctor vm n phase) s = (Normal o, s1) ->
  (forall t, tasks s1 t = false) /\
  (forall src, count_events (visits src) (log s1) =
               count_events (visits src) (log s)).
Proof.
  unfold ShenandoahRootProcessor_ctor, ParallelCLDRootIterator_ctor.
  destruct (is_at_safepoint vm), (ShenandoahStringDedup_is_enabled vm);
    simpl; intros H; inversion H; subst; simpl;
    (split; [reflexivity |]);
    intros src; rewrite ?count_events_snoc; simpl; lia.
Qed.

Lemma ShenandoahRootEvacuator_ctor_fresh (vm : VM) (n : nat) (phase : Phase)
    (s s1 : State) (o : unit) :
  exec (ShenandoahRootEvacuator_ctor vm n phase) s = (Normal o, s1) ->
  (forall t, tasks s1 t = false) /\
  (forall src, count_events (visits src) (log s1) =
               count_events (visits src) (log s)).
Proof.
  unfold ShenandoahRootEvacuator_ctor, ParallelCLDRootIterator_ctor.
  destruct (is_at_safepoint vm), (ShenandoahStringDedup_is_enabled vm);
    simpl; intros H; inversion H; subst; simpl;
    (split; [reflexivity |]);
    intros src; rewrite ?count_events_snoc; simpl; lia.
Qed.

Lemma workers_nonempty {A : Type} (f : nat -> A) (n : nat) :
  1 <= n -> map f (seq 0 n) <> [].
Proof. destruct n; [lia | simpl; discriminate]. Qed.

(** ** Returning under a schedule *)

Section TurnsFacts.

Variable left : State -> nat.
Variable weight : nat.

Lemma within_mono {A : Type} (p : Prog A) (post post' : A -> nat -> Prop)
    (n : nat) :
  (forall a n', post a n' -> post' a n') ->
  within left weight post n p -> within left weight post' n p.
Proof.
  revert post post' n.
  induction p as [A a | A X a k IH | A c IHc m k IH | A msg];
    intros post post' n Himp H; simpl in *; auto.
  - intros s. destruct (H s) as [Hl [n' [Hn Hk]]].
    split; [exact Hl |]. exists n'. split; [exact Hn | eapply IH; eauto].
  - destruct H as [nc [Hlt Hc]]. exists nc. split; [exact Hlt |].
    eapply IHc; [| exact Hc].
    intros [|] n' Hb; [exact Hb | eapply IH; eauto].
Qed.

Lemma within_bind {A B : Type} (p : Prog A) (f : A -> Prog B)
    (post : B -> nat -> Prop) (n : nat) :
  within left weight (fun a n' => within left weight post n' (f a)) n p ->
  within left weight post n (bind p f).
Proof.
  revert B f post n.
  induction p as [A a | A X a k IH | A c _ m k IH | A msg];
    intros B f post n H; simpl in *; auto.
  - intros s. destruct (H s) as [Hl [n' [Hn Hk]]].
    split; [exact Hl |]. exists n'. split; [exact Hn | apply IH, Hk].
  - destruct H as [nc [Hlt Hc]]. exists nc. split; [exact Hlt |].
    eapply within_mono; [| exact Hc].
    intros [|] n' Hb; [exact Hb | apply IH, Hb].
Qed.

(** A budget may be raised throughout. *)
Lemma within_raise {A : Type} (p : Prog A) (post : A -> nat -> Prop)
    (n d : nat) :
  within left weight post n p ->
  within left weight (raised d post) (n + d) p.
Proof.
  revert post n.
  induction p as [A a | A X a k IH | A c IHc m k IH | A msg];
    intros post n H; simpl in *; auto.
  - exists n. auto.
  - intros s. destruct (H s) as [Hl [n' [Hn Hk]]].
    split; [exact Hl |]. exists (n' + d). split; [lia | apply IH, Hk].
  - destruct H as [nc [Hlt Hc]]. exists (nc + d). split; [lia |].
    eapply within_mono; [| apply (IHc _ _ Hc)].
    intros [|] n' [n0 [-> Hb]]; [subst n0; reflexivity | apply IH, Hb].
Qed.

Lemma within_le {A : Type} (p : Prog A) (post : A -> nat -> Prop)
    (n n' : nat) :
  (forall a m m', post a m -> m <= m' -> post a m') ->
  within left weight post n p -> n <= n' -> within left weight post n' p.
Proof.
  intros Hup H Hle. replace n' with (n + (n' - n)) by lia.
  eapply within_mono; [| apply within_raise, H].
  intros a m [n0 [-> Hp]]. eapply Hup; [exact Hp | lia].
Qed.

Lemma within_seq {A B : Type} (p : Prog A) (f : A -> Prog B)
    (post : B -> nat -> Prop) (n n1 : nat) :
  (forall b m m', post b m -> m <= m' -> post b m') ->
  within left weight (fun _ n' => n1 <= n') n p ->
  (forall x, within left weight post n1 (f x)) ->
  within left weight post n (bind p f).
Proof.
  intros Hup Hp Hf. apply within_bind.
  eapply within_mono; [| exact Hp].
  intros a n' Hle. eapply within_le; eauto.
Qed.

(** A program without loops returns within its length. *)
Lemma within_straight {A : Type} (p : Prog A) (k n : nat) :
  straight k p ->
  respects (fun s s' => left s' <= left s) p ->
  within left weight (fun _ n' => n <= n') (n + k) p.
Proof.
  revert k n.
  induction p as [A a | A X a kp IH | A c _ m kp _ | A msg]; simpl;
    intros k n Hs Hr; try contradiction.
  - lia.
  - destruct k as [| k]; [contradiction |].
    intros s. destruct (Hr s) as [Hl Hk]. split; [exact Hl |].
    exists (n + k). split; [| apply IH; auto].
    pose proof (Nat.mul_le_mono_l _ _ weight Hl). lia.
Qed.

Lemma within_seq_straight {A B : Type} (p : Prog A) (f : A -> Prog B)
    (post : B -> nat -> Prop) (k n1 : nat) :
  (forall b m m', post b m -> m <= m' -> post b m') ->
  straight k p ->
  respects (fun s s' => left s' <= left s) p ->
  (forall x, within left weight post n1 (f x)) ->
  within left weight post (n1 + k) (bind p f).
Proof.
  intros Hup Hs Hr Hf. apply within_seq with (n1 := n1); auto.
  apply within_straight; assumption.
Qed.

(** A step of a program that has yet to return uses up budget, and gives
    no shared work back. *)
Lemma within_step {A : Type} (post : A -> nat -> Prop) (p : Prog A)
    (n : nat) (s : State) :
  within left weight post n p -> is_ret p = false ->
  left (snd (step p s)) <= left s /\
  exists n',
    n' + weight * left (snd (step p s)) < n + weight * left s /\
    within left weight post n' (fst (step p s)).
Proof.
  destruct p as [a | X a k | c m k | msg]; simpl; intros H Hr;
    try discriminate; try contradiction.
  - destruct (H s) as [Hl [n' [Hn Hk]]].
    destruct (a s) as [x s']. simpl in *. split; [exact Hl |].
    exists n'. auto.
  - destruct H as [nc [Hlt Hc]]. split; [lia |].
    exists nc. split; [lia |].
    apply within_bind. eapply within_mono; [| exact Hc].
    intros [|] n' Hb; [| exact Hb].
    subst n'. simpl. exists nc. auto.
Qed.

Lemma within_spent {A : Type} (post : A -> nat -> Prop) (p : Prog A)
    (n : nat) (s : State) :
  within left weight post n p -> n + weight * left s = 0 -> is_ret p = true.
Proof.
  destruct p as [a | X a k | c m k | msg]; simpl; intros H Hz;
    try contradiction.
  - reflexivity.
  - destruct (H s) as [_ [n' [Hn _]]]. lia.
  - destruct H as [nc [Hlt _]]. lia.
Qed.

Lemma within_not_fatal {A : Type} (post : A -> nat -> Prop) (p : Prog A)
    (n : nat) :
  within left weight post n p -> is_fatal p = false.
Proof. destruct p; simpl; intros H; try reflexivity; contradiction. Qed.

Lemma step_worker_nth (pool : Pool) :
  forall v s w,
    nth_error (fst (step_worker v pool s)) w =
    if w =? v
    then option_map (fun p => fst (step p s)) (nth_error pool w)
    else nth_error pool w.
Proof.
  induction pool as [| p rest IH]; intros v s w.
  - destruct v, w; simpl; try reflexivity; destruct (w =? v); reflexivity.
  - destruct v as [| v]; simpl.
    + destruct (step p s) as [p' s'] eqn:Hp. destruct w; simpl;
        [rewrite Hp |]; reflexivity.
    + specialize (IH v s). destruct (step_worker v rest s) as [rest' s'].
      simpl in *. destruct w as [| w]; simpl; [reflexivity | apply IH].
Qed.

Lemma step_worker_state (pool : Pool) :
  forall v s,
    snd (step_worker v pool s) =
    match nth_error pool v with
    | Some p => snd (step p s)
    | None => s
    end.
Proof.
  induction pool as [| p rest IH]; intros v s.
  - destruct v; reflexivity.
  - destruct v as [| v]; simpl.
    + destruct (step p s). reflexivity.
    + specialize (IH v s). destruct (step_worker v rest s). exact IH.
Qed.

(** A pool of workers that each return within a budget has returned at
    the end of every schedule that gives each of them turns for its
    budget and for the shared work left. *)
Lemma enough_turns_return (sched : list nat) :
  forall (pool : Pool) (s : State),
    (forall w p, nth_error pool w = Some p ->
       is_ret p = true \/
       exists n, within left weight any_budget n p /\
                 n + weight * left s <= count_occ Nat.eq_dec sched w) ->
    all_returned (fst (run_schedule sched pool s)) = true.
Proof.
  induction sched as [| v sched IH]; intros pool s H; simpl.
  - apply forallb_forall. intros p Hin.
    apply In_nth_error in Hin. destruct Hin as [w Hw].
    destruct (H w p Hw) as [Hr | [n [Hn Hle]]]; [exact Hr |].
    simpl in Hle. apply (within_spent any_budget p n s Hn). lia.
  - unfold pool_step.
    assert (Hnf : existsb is_fatal pool = false).
    { destruct (existsb is_fatal pool) eqn:He; [| reflexivity].
      apply existsb_exists in He. destruct He as [p [Hin Hf]].
      apply In_nth_error in Hin. destruct Hin as [w Hw].
      destruct (H w p Hw) as [Hr | [n [Hn _]]].
      - destruct p; discriminate.
      - rewrite (within_not_fatal _ _ _ Hn) in Hf. discriminate. }
    rewrite Hnf.
    pose proof (step_worker_nth pool v s) as Hnth.
    pose proof (step_worker_state pool v s) as Hst.
    destruct (step_worker v pool s) as [pool' s']. simpl in *.
    apply IH. intros w p' Hp'. rewrite Hnth in Hp'.
    assert (Hleft : left s' <= left s).
    { rewrite Hst. destruct (nth_error pool v) as [pv |] eqn:Hv; [| lia].
      destruct (H v pv Hv) as [Hr | [n [Hn _]]].
      - destruct pv; try discriminate. simpl. lia.
      - destruct (is_ret pv) eqn:Hr.
        + destruct pv; try discriminate. simpl. lia.
        + apply (within_step any_budget pv n s Hn Hr). }
    pose proof (Nat.mul_le_mono_l _ _ weight Hleft) as Hw.
    destruct (Nat.eqb_spec w v) as [-> | Hne].
    + destruct (nth_error pool v) as [pv |] eqn:Hv; [| discriminate].
      simpl in Hp'. inversion Hp'; subst p'. clear Hp'.
      destruct (H v pv Hv) as [Hr | [n [Hn Hle]]].
      * left. destruct pv; try discriminate. reflexivity.
      * destruct (is_ret pv) eqn:Hr.
        { left. destruct pv; try discriminate. reflexivity. }
        right.
        destruct (within_step any_budget pv n s Hn Hr)
          as [_ [n' [Hlt Hn']]].
        exists n'. split; [exact Hn' |].
        rewrite <- Hst in Hlt.
        destruct (Nat.eq_dec v v); [lia | congruence].
    + destruct (H w p' Hp') as [Hr | [n [Hn Hle]]]; [left; exact Hr |].
      right. exists n. split; [exact Hn |].
      destruct (Nat.eq_dec v w); [congruence | lia].
Qed.

End TurnsFacts.

(** The monitor loop returns within two steps and three more for every
    block left: a round that takes a block uses three steps, the last
    round two. *)
Lemma within_monitor_block (vm : VM) (f : option OopClosure) (w n : nat) :
  within (om_remaining vm) 3 (fun _ n' => n <= n') (n + 4)
    (ShenandoahWorkerTimingsTracker ObjectSynchronizerRoots w
       (While (SynchronizerIterator_parallel_oops_do vm f)
              (om_remaining vm) (Ret tt))).
Proof.
  simpl. intros s. unfold om_remaining. simpl. split; [lia |].
  exists (n + 3). split; [lia |].
  exists (n + 2). split; [lia |].
  intros s1.
  destruct (Nat.ltb_spec (om_cur s1) (monitor_blocks vm)) as [Hlt | Hge];
    simpl.
  - split; [lia |]. exists (n + 4). split; [lia |].
    intros s2. simpl. split; [lia |].
    exists (n + 3). split; [lia | reflexivity].
  - split; [lia |]. exists (n + 1). split; [lia |].
    intros s2. simpl. split; [lia |].
    exists n. split; [lia | apply le_n].
Qed.

Ltac solve_left :=
  unfold om_remaining;
  repeat match goal with
  | |- context [if ?b then (_, _) else (_, _)] => destruct b
  | |- context [match forwardee ?s ?p with _ => _ end] =>
      destruct (forwardee s p)
  | |- context [match free_space ?s with _ => _ end] =>
      destruct (free_space s)
  end;
  simpl; lia.

Ltac straight_tac :=
  simpl;
  repeat match goal with
  | |- forall _, _ => intro
  | |- True => exact I
  | |- straight _ (when ?b _) => destruct b; simpl
  | |- straight _ ?p =>
      match p with
      | context [if ?b then _ else _] => destruct b; simpl
      end
  | |- straight _ _ => progress simpl
  end.

(** Walks the blocks of a scan, four steps to a block. *)
Ltac walk_turns vm :=
  lazymatch goal with
  | |- within _ _ _ ?N (bind _ _) =>
      let n1 := eval compute in (N - 4) in
      first
        [ apply (@within_seq (om_remaining vm) 3 _ _ _ _ _ N n1);
          [ intros; exact I
          | solve [apply (within_monitor_block vm _ _ n1)]
          | intros _; walk_turns vm ]
        | apply (@within_seq_straight (om_remaining vm) 3 _ _ _ _ _ 4 n1);
          [ intros; exact I
          | solve [straight_tac]
          | solve [respects_tac; solve_left]
          | intros _; walk_turns vm ] ]
  | |- within _ _ _ ?N _ =>
      let n1 := eval compute in (N - 4) in
      apply within_mono with (post := fun _ n' => n1 <= n');
      [ intros; exact I
      | apply (@within_straight (om_remaining vm) 3 _ _ 4 n1);
        [ straight_tac | respects_tac; solve_left ] ]
  end.

Lemma process_vm_roots_within (vm : VM)
    (strong_roots weak_roots : option OopClosure)
    (is_alive : option BoolObjectClosure) (w : nat) :
  within (om_remaining vm) 3 any_budget 64
    (process_vm_roots vm strong_roots weak_roots is_alive w).
Proof. unfold process_vm_roots. walk_turns vm. Qed.

Lemma process_evacuate_roots_within (vm : VM) (self : Thread)
    (oops : option OopClosure) (blobs : option CodeBlobClosure) (w : nat) :
  is_evacuation_in_progress vm = true ->
  within (om_remaining vm) 3 any_budget 64
    (process_evacuate_roots vm self oops blobs w).
Proof.
  intros Hevac. unfold process_evacuate_roots, root_cld_do.
  rewrite Hevac. walk_turns vm.
Qed.

(** Workers that each return within 64 steps and three per monitor block
    have all returned at the end of a schedule that gives each of them
    the turns it needs. *)
Lemma workers_return (vm : VM) (n : nat) (sched : list nat) (pool : Pool)
    (s : State) :
  length pool = n ->
  Forall (within (om_remaining vm) 3 any_budget 64) pool ->
  enough_turns vm n sched ->
  all_returned (fst (run_schedule sched pool s)) = true.
Proof.
  intros Hlen Hpool Hturns.
  apply (enough_turns_return (om_remaining vm) 3).
  intros w p Hw. right. exists 64. split.
  - rewrite Forall_forall in Hpool. apply Hpool.
    eapply nth_error_In; eauto.
  - assert (Hlt : w < n).
    { rewrite <- Hlen. apply nth_error_Some. congruence. }
    specialize (Hturns w Hlt). unfold turns_needed, om_remaining in *. lia.
Qed.

Lemma ShenandoahRootProcessor_ctor_returns (vm : VM) (n : nat)
    (phase : Phase) (s : State) :
  is_at_safepoint vm = true ->
  fst (exec (ShenandoahRootProcessor_ctor vm n phase) s) = Normal tt.
Proof.
  intros H. unfold ShenandoahRootProcessor_ctor, ParallelCLDRootIterator_ctor.
  rewrite H. destruct (ShenandoahStringDedup_is_enabled vm); reflexivity.
Qed.

Lemma ShenandoahRootEvacuator_ctor_returns (vm : VM) (n : nat)
    (phase : Phase) (s : State) :
  is_at_safepoint vm = true ->
  fst (exec (ShenandoahRootEvacuator_ctor vm n phase) s) = Normal tt.
Proof.
  intros H. unfold ShenandoahRootEvacuator_ctor, ParallelCLDRootIterator_ctor.
  rewrite H. destruct (ShenandoahStringDedup_is_enabled vm); reflexivity.
Qed.

(** A session constructed at a safepoint completes under every schedule
    that gives each worker the turns it needs. *)
Lemma vm_roots_session_completes (vm : VM) (n : nat) (phase : Phase)
    (vargs : nat -> VmRootsArgs) (sched : list nat) (s : State) :
  is_at_safepoint vm = true ->
  enough_turns vm n sched ->
  completed (vm_roots_session vm n phase vargs sched s) = true.
Proof.
  intros Hsafe Hturns. unfold vm_roots_session.
  pose proof (ShenandoahRootProcessor_ctor_returns vm n phase s Hsafe) as Hc.
  destruct (exec (ShenandoahRootProcessor_ctor vm n phase) s)
    as [[o | msg] s1]; [| discriminate].
  pose proof (@workers_return vm n sched (vm_roots_workers vm vargs n) s1)
    as Hw.
  simpl. destruct (run_schedule sched (vm_roots_workers vm vargs n) s1)
    as [pool s2].
  simpl in *. apply Hw; auto.
  - unfold vm_roots_workers. rewrite length_map, length_seq. reflexivity.
  - apply Forall_forall. intros p Hp.
    apply in_map_iff in Hp. destruct Hp as [w [<- _]].
    apply process_vm_roots_within.
Qed.

Lemma evacuate_session_completes (vm : VM) (n : nat) (phase : Phase)
    (eargs : nat -> EvacArgs) (sched : list nat) (s : State) :
  is_at_safepoint vm = true ->
  is_evacuation_in_progress vm = true ->
  enough_turns vm n sched ->
  completed (evacuate_session vm n phase eargs sched s) = true.
Proof.
  intros Hsafe Hevac Hturns. unfold evacuate_session.
  pose proof (ShenandoahRootEvacuator_ctor_returns vm n phase s Hsafe) as Hc.
  destruct (exec (ShenandoahRootEvacuator_ctor vm n phase) s)
    as [[o | msg] s1]; [| discriminate].
  pose proof (@workers_return vm n sched (evacuate_workers vm eargs n) s1)
    as Hw.
  simpl. destruct (run_schedule sched (evacuate_workers vm eargs n) s1)
    as [pool s2].
  simpl in *. apply Hw; auto.
  - unfold evacuate_workers. rewrite length_map, length_seq. reflexivity.
  - apply Forall_forall. intros p Hp.
    apply in_map_iff in Hp. destruct Hp as [w [<- _]].
    apply process_evacuate_roots_within, Hevac.
Qed.

(** C1.  In a session of [n >= 1] workers, under every schedule that lets
    all of them return, each singleton source behind a claim (global object
    table, native-handle table, profiler table, management table,
    debug-agent table, dictionary) is traversed exactly once in total, in
    the strong-root scan and in the evacuation scan alike.  And the workers
    do all return: a session constructed at a safepoint (for the
    evacuation scan, while evacuation is in progress) completes under
    every schedule that gives each worker the turns it needs, however the
    turns are interleaved. *)
Theorem claimed_singletons_visited_exactly_once
    (vm : VM) (n : nat) (phase : Phase)
    (vargs : nat -> VmRootsArgs) (eargs : nat -> EvacArgs)
    (sched : list nat) (s : State) (src : RootSource) :
  1 <= n ->
  In src claimed_singletons ->
  (completed (vm_roots_session vm n phase vargs sched s) = true ->
   visited_once src s (vm_roots_session vm n phase vargs sched s)) /\
  (completed (evacuate_session vm n phase eargs sched s) = true ->
   visited_once src s (evacuate_session vm n phase eargs sched s)) /\
  (is_at_safepoint vm = true -> enough_turns vm n sched ->
   completed (vm_roots_session vm n phase vargs sched s) = true) /\
  (is_at_safepoint vm = true -> is_evacuation_in_progress vm = true ->
   enough_turns vm n sched ->
   completed (evacuate_session vm n phase eargs sched s) = true).
Proof.
  intros Hn Hsrc. split; [| split; [| split]].
  - unfold vm_roots_session.
    destruct (exec (ShenandoahRootProcessor_ctor vm n phase) s)
      as [[o | msg] s1] eqn:Hctor; simpl; [| discriminate].
    destruct (ShenandoahRootProcessor_ctor_fresh _ _ _ _ Hctor)
      as [Hfree Hlog].
    intros Hdone.
    pose proof (@exactly_once (rp_task src) (visits src) sched
                  (vm_roots_workers vm vargs n) s1) as Hex.
    destruct (run_schedule sched (vm_roots_workers vm vargs n) s1)
      as [pool s'] eqn:Hrun. simpl in *.
    unfold visited in Hex. rewrite <- Hlog. apply Hex; auto.
    + apply workers_nonempty, Hn.
    + apply Forall_forall. intros p Hp.
      apply in_map_iff in Hp. destruct Hp as [w [<- _]].
      apply process_vm_roots_follows, Hsrc.
  - unfold evacuate_session.
    destruct (exec (ShenandoahRootEvacuator_ctor vm n phase) s)
      as [[o | msg] s1] eqn:Hctor; simpl; [| discriminate].
    destruct (ShenandoahRootEvacuator_ctor_fresh _ _ _ _ Hctor)
      as [Hfree Hlog].
    intros Hdone.
    pose proof (@exactly_once (evac_task src) (visits src) sched
                  (evacuate_workers vm eargs n) s1) as Hex.
    destruct (run_schedule sched (evacuate_workers vm eargs n) s1)
      as [pool s'] eqn:Hrun. simpl in *.
    unfold visited in Hex. rewrite <- Hlog. apply Hex; auto.
    + apply workers_nonempty, Hn.
    + apply Forall_forall. intros p Hp.
      apply in_map_iff in Hp. destruct Hp as [w [<- _]].
      apply process_evacuate_roots_follows, Hsrc.
  - apply vm_roots_session_completes.
  - apply evacuate_session_completes.
Qed.

Lemma claimed_singletons_visited_exactly_once_witness :
  enough_turns example_vm 2 (round_robin 2 73) /\
  completed (vm_roots_session example_vm 2 (CollectorPhase 0)
               example_vm_args (round_robin 2 73) example_state) = true /\
  visited_once UniverseTable example_state
    (vm_roots_session example_vm 2 (CollectorPhase 0) example_vm_args
       (round_robin 2 73) example_state) /\
  completed (evacuate_session example_vm 2 (CollectorPhase 0)
               example_evac_args (round_robin 2 73) example_state) = true /\
  visited_once UniverseTable example_state
    (evacuate_session example_vm 2 (CollectorPhase 0) example_evac_args
       (round_robin 2 73) example_state).
Proof.
  assert (Ht : enough_turns example_vm 2 (round_robin 2 73)).
  { intros w Hw.
    destruct w as [| [| w]]; [vm_compute; lia | vm_compute; lia | lia]. }
  destruct (@claimed_singletons_visited_exactly_once example_vm 2
              (CollectorPhase 0) example_vm_args example_evac_args
              (round_robin 2 73) example_state UniverseTable)
    as (H1 & H2 & H3 & H4).
  - lia.
  - simpl. auto.
  - split; [exact Ht |].
    split; [apply H3; [reflexivity | exact Ht] |].
    split; [apply H1, H3; [reflexivity | exact Ht] |].
    split; [apply H4; [reflexivity | reflexivity | exact Ht] |].
    apply H2, H4; [reflexivity | reflexivity | exact Ht].
Defined.

(** ** The calls of one invocation, block by block *)

Lemma exec_seq {A B : Type} (p : Prog A) (f : A -> Prog B)
    (s s1 : State) (x : A) :
  exec p s = (Normal x, s1) -> exec (bind p f) s = exec (f x) s1.
Proof. intros H. rewrite exec_bind, H. reflexivity. Qed.

Lemma reached_start (s : State) : reached s s [] all_tasks true true.
Proof. unfold reached. rewrite app_nil_r. auto. Qed.

Lemma guarded_block (t : Task) (phase : Phase) (w : nat) (e : Event)
    (s0 s : State) (l : list Event) (keep : Task -> bool) (om st : bool) :
  reached s0 s l keep om st -> keep t = true ->
  exists s',
    exec (claimed <- SubTasksDone_is_task_claimed t ;;
          when (negb claimed)
            (ShenandoahWorkerTimingsTracker phase w (call e))) s
    = (Normal tt, s') /\
    reached s0 s' (l ++ guarded_calls s0 t phase w e)
            (fun u => keep u && tasks_but t u) om st.
Proof.
  intros (Hlog & Hkeep & Hom & Hst) Ht.
  unfold guarded_calls. rewrite <- (Hkeep t Ht).
  simpl. destruct (tasks s t) eqn:Hc; simpl;
    (eexists; split; [reflexivity |]);
    unfold reached; simpl; rewrite Hlog;
    (split; [rewrite <- ?app_assoc; simpl; rewrite ?app_nil_r; reflexivity |]);
    (split; [| split; assumption]);
    intros u Hu; apply andb_true_iff in Hu; destruct Hu as [Hu1 Hu2];
    unfold tasks_but in Hu2;
    (destruct (Task_eq_dec u t); [discriminate | apply Hkeep, Hu1]).
Qed.

Lemma timed_call_block (phase : Phase) (w : nat) (e : Event)
    (s0 s : State) (l : list Event) (keep : Task -> bool) (om st : bool) :
  reached s0 s l keep om st ->
  exists s',
    exec (ShenandoahWorkerTimingsTracker phase w (call e)) s
    = (Normal tt, s') /\
    reached s0 s' (l ++ timed phase w [e]) keep om st.
Proof.
  intros (Hlog & Hkeep & Hom & Hst). simpl.
  eexists; split; [reflexivity |].
  unfold reached; simpl; rewrite Hlog.
  split; [rewrite <- ?app_assoc; reflexivity | auto].
Qed.

Lemma reached_weaken (s0 s : State) (l : list Event)
    (keep keep' : Task -> bool) (om om' st st' : bool) :
  reached s0 s l keep om st ->
  (forall u, keep' u = true -> keep u = true) ->
  (om' = true -> om = true) -> (st' = true -> st = true) ->
  reached s0 s l keep' om' st'.
Proof.
  intros (Hlog & Hkeep & Hom & Hst) Hk Ho Hs. unfold reached. auto 6.
Qed.

Lemma when_block (b : bool) (p : Prog unit) (s0 s : State)
    (l l' : list Event) (keep keep' : Task -> bool) (om om' st st' : bool) :
  reached s0 s l keep om st ->
  (forall u, keep' u = true -> keep u = true) ->
  (om' = true -> om = true) -> (st' = true -> st = true) ->
  (exists s', exec p s = (Normal tt, s') /\
              reached s0 s' (l ++ l') keep' om' st') ->
  exists s',
    exec (when b p) s = (Normal tt, s') /\
    reached s0 s' (l ++ if b then l' else []) keep' om' st'.
Proof.
  intros Hr Hk Ho Hs Hp. destruct b; simpl.
  - exact Hp.
  - exists s. rewrite app_nil_r. split; [reflexivity |].
    eapply reached_weaken; eauto.
Qed.

Lemma keep_but (keep : Task -> bool) (t u : Task) :
  keep u && tasks_but t u = true -> keep u = true.
Proof. intros H. apply andb_true_iff in H. tauto. Qed.

(** The monitor loop visits every block from the cursor on. *)
Lemma exec_parallel_oops_do (vm : VM) (f : option OopClosure) (s : State) :
  exec (SynchronizerIterator_parallel_oops_do vm f) s =
  if om_cur s <? monitor_blocks vm
  then (Normal true,
        emit (SynchronizerIterator_block_do f (om_cur s))
             (set_om_cur s (S (om_cur s))))
  else (Normal false, s).
Proof.
  unfold SynchronizerIterator_parallel_oops_do,
    SynchronizerIterator_claim_block.
  simpl. destruct (om_cur s <? monitor_blocks vm); reflexivity.
Qed.

Lemma loop_monitor (vm : VM) (f : option OopClosure) :
  forall n s, n = monitor_blocks vm - om_cur s ->
    exists s',
      loop (exec (SynchronizerIterator_parallel_oops_do vm f)) n s
      = (Normal tt, s') /\
      log s' = log s ++ monitor_calls vm f s /\
      tasks s' = tasks s /\
      string_table_claimed s' = string_table_claimed s /\
      clock s' = clock s /\
      forwardee s' = forwardee s /\ free_space s' = free_space s /\
      om_cur s' = om_cur s + n.
Proof.
  induction n as [| n IH]; intros s Hn; cbn [loop];
    rewrite exec_parallel_oops_do; unfold monitor_calls.
  - destruct (Nat.ltb_spec (om_cur s) (monitor_blocks vm)); [lia |].
    exists s. rewrite <- Hn. simpl. rewrite app_nil_r, Nat.add_0_r.
    repeat split.
  - destruct (Nat.ltb_spec (om_cur s) (monitor_blocks vm)); [| lia].
    match goal with
    | |- context [loop _ n ?x] =>
        destruct (IH x) as (s' & Hl & H1 & H2 & H3 & H4 & H5 & H6 & H7);
          [simpl; lia |]
    end.
    exists s'. unfold monitor_calls in *.
    simpl in *. rewrite Hl, H1, H2, H3, H4, H5, H6, H7, <- Hn.
    replace (monitor_blocks vm - S (om_cur s)) with n by lia.
    simpl. rewrite <- app_assoc. simpl.
    repeat split. lia.
Qed.

Lemma monitor_block (vm : VM) (f : option OopClosure) (w : nat)
    (s0 s : State) (l : list Event) (keep : Task -> bool) (st : bool) :
  reached s0 s l keep true st ->
  exists s',
    exec (ShenandoahWorkerTimingsTracker ObjectSynchronizerRoots w
            (While (SynchronizerIterator_parallel_oops_do vm f)
                   (om_remaining vm) (Ret tt))) s
    = (Normal tt, s') /\
    reached s0 s'
      (l ++ timed ObjectSynchronizerRoots w (monitor_calls vm f s0))
      keep false st.
Proof.
  intros (Hlog & Hkeep & Hom & Hst).
  cbn [ShenandoahWorkerTimingsTracker atomic bind exec].
  match goal with
  | |- context [loop _ (om_remaining vm ?x) ?x] =>
      destruct (@loop_monitor vm f (om_remaining vm x) x eq_refl)
        as (s' & Hl & H1 & H2 & H3 & H4 & H5 & H6 & H7);
      rewrite Hl
  end.
  eexists; split; [reflexivity |].
  unfold reached; simpl. rewrite H1, H2, H3. simpl. rewrite Hlog.
  unfold monitor_calls. simpl. rewrite (Hom eq_refl).
  split; [rewrite <- ?app_assoc; reflexivity |].
  split; [exact Hkeep |]. split; [discriminate | exact Hst].
Qed.

Lemma unlink_block (vm : VM) (is_alive : option BoolObjectClosure)
    (f : option OopClosure) (w : nat)
    (s0 s : State) (l : list Event) (keep : Task -> bool) (om : bool) :
  reached s0 s l keep om true ->
  exists s',
    exec (ShenandoahWorkerTimingsTracker StringTableRoots w
            (let processed := 0 in
             let removed := 0 in
             _ <- StringTable_unlink_or_oops_do vm is_alive f
                    processed removed ;;
             Ret tt)) s
    = (Normal tt, s') /\
    reached s0 s' (l ++ timed StringTableRoots w [unlink_call vm is_alive f s0])
            keep om false.
Proof.
  intros (Hlog & Hkeep & Hom & Hst). simpl.
  eexists; split; [reflexivity |].
  unfold reached, unlink_call, dead_strings, unclaimed_strings; simpl.
  rewrite Hlog, (Hst eq_refl).
  split; [rewrite <- ?app_assoc; reflexivity |].
  split; [exact Hkeep |]. split; [exact Hom | discriminate].
Qed.

(** One call of [process_vm_roots] run from any state returns, having
    made the calls of [process_vm_roots_calls] in that order. *)
Lemma process_vm_roots_runs (vm : VM)
    (strong_roots weak_roots : option OopClosure)
    (is_alive : option BoolObjectClosure) (w : nat) (s : State) :
  exists s',
    exec (process_vm_roots vm strong_roots weak_roots is_alive w) s
    = (Normal tt, s') /\
    log s' = log s ++
             process_vm_roots_calls vm strong_roots weak_roots is_alive w s.
Proof.
  unfold process_vm_roots.
  pose proof (reached_start s) as R0.
  destruct (guarded_block SHENANDOAH_RP_PS_Universe_oops_do UniverseRoots w
              (Universe_oops_do strong_roots) R0 eq_refl) as (s1 & X1 & R1).
  rewrite (@exec_seq _ _ _ _ _ _ _ X1).
  destruct (guarded_block SHENANDOAH_RP_PS_JNIHandles_oops_do JNIRoots w
              (JNIHandles_oops_do strong_roots) R1 eq_refl) as (s2 & X2 & R2).
  rewrite (@exec_seq _ _ _ _ _ _ _ X2).
  destruct (guarded_block SHENANDOAH_RP_PS_FlatProfiler_oops_do
              FlatProfilerRoots w
              (FlatProfiler_oops_do strong_roots) R2 eq_refl)
    as (s3 & X3 & R3).
  rewrite (@exec_seq _ _ _ _ _ _ _ X3).
  destruct (guarded_block SHENANDOAH_RP_PS_Management_oops_do
              ManagementRoots w
              (Management_oops_do strong_roots) R3 eq_refl)
    as (s4 & X4 & R4).
  rewrite (@exec_seq _ _ _ _ _ _ _ X4).
  destruct (guarded_block SHENANDOAH_RP_PS_jvmti_oops_do JVMTIRoots w
              (JvmtiExport_oops_do strong_roots) R4 eq_refl)
    as (s5 & X5 & R5).
  rewrite (@exec_seq _ _ _ _ _ _ _ X5).
  destruct (guarded_block SHENANDOAH_RP_PS_SystemDictionary_oops_do
              SystemDictionaryRoots w
              (SystemDictionary_roots_oops_do strong_roots weak_roots)
              R5 eq_refl)
    as (s6 & X6 & R6).
  rewrite (@exec_seq _ _ _ _ _ _ _ X6).
  destruct (@when_block (not_null weak_roots) _ _ _ _ _ _ _ _ _ _ _ R6
              (@keep_but _ SHENANDOAH_RP_PS_JNIHandles_weak_oops_do)
              (fun H => H) (fun H => H)
              (guarded_block SHENANDOAH_RP_PS_JNIHandles_weak_oops_do
                 JNIWeakRoots w
                 (JNIHandles_weak_oops_do is_alive weak_roots) R6 eq_refl))
    as (s7 & X7 & R7).
  rewrite (@exec_seq _ _ _ _ _ _ _ X7).
  destruct (@when_block (ShenandoahStringDedup_is_enabled vm && not_null weak_roots) _ _ _ _ _ _ _ _ _ _ _ R7
              (fun u H => H) (fun H => H) (fun H => H)
              (timed_call_block StringDedupRoots w
                 (ShenandoahStringDedup_parallel_oops_do weak_roots) R7))
    as (s8 & X8 & R8).
  rewrite (@exec_seq _ _ _ _ _ _ _ X8).
  destruct (monitor_block vm strong_roots w R8) as (s9 & X9 & R9).
  rewrite (@exec_seq _ _ _ _ _ _ _ X9).
  destruct (@when_block (not_null weak_roots) _ _ _ _ _ _ _ _ _ _ _ R9
              (fun u H => H) (fun H => H) (fun _ => eq_refl)
              (unlink_block vm is_alive weak_roots w R9))
    as (s10 & X10 & R10).
  exists s10. split; [exact X10 |].
  destruct R10 as (Hlog & _). rewrite Hlog.
  unfold process_vm_roots_calls. rewrite <- !app_assoc. reflexivity.
Qed.

Lemma trace_of_log {A : Type} (p : Prog A) (s : State) (l : list Event) :
  log (snd (exec p s)) = log s ++ l -> trace p s = l.
Proof.
  intros H. unfold trace. rewrite H.
  rewrite skipn_app, skipn_all, Nat.sub_diag. reflexivity.
Qed.

Lemma process_vm_roots_trace (vm : VM)
    (strong_roots weak_roots : option OopClosure)
    (is_alive : option BoolObjectClosure) (w : nat) (s : State) :
  trace (process_vm_roots vm strong_roots weak_roots is_alive w) s
  = process_vm_roots_calls vm strong_roots weak_roots is_alive w s.
Proof.
  destruct (process_vm_roots_runs vm strong_roots weak_roots is_alive w s)
    as (s' & Hx & Hlog).
  apply trace_of_log. rewrite Hx. exact Hlog.
Qed.

Lemma exec_assert_true {B : Type} (msg : string) (f : unit -> Prog B)
    (s : State) :
  exec (bind (assert true msg) f) s = exec (f tt) s.
Proof. reflexivity. Qed.

(** The pending-list-lock pre-pass. *)
Lemma pll_block (vm : VM) (self : Thread) (s : State) :
  exists s',
    exec (pll <- (if UseCompressedOops vm
                  then load_decode_heap_oop vm true
                  else load_decode_heap_oop vm false) ;;
          if negb (is_null pll) && in_collection_set vm pll
          then fwd <- resolve_forwarded_not_null pll ;;
               when (pll =? fwd) (evacuate_object pll self)
          else Ret tt) s
    = (Normal tt, s') /\
    reached s s' (pll_calls vm self s) all_tasks true true.
Proof.
  unfold pll_calls, pll_to_evacuate, reached.
  destruct (UseCompressedOops vm); simpl;
    destruct (negb (is_null (pending_list_lock vm)) &&
              in_collection_set vm (pending_list_lock vm)); simpl;
    try (exists s; rewrite app_nil_r; auto; fail);
    destruct (forwardee s (pending_list_lock vm)) as [q |] eqn:Hf; simpl;
    rewrite ?Nat.eqb_refl; simpl;
    try (destruct (pending_list_lock vm =? q); simpl);
    try (destruct (free_space s) as [| copy rest] eqn:Hfree; simpl);
    rewrite ?Hf, ?Hfree; simpl;
    (eexists; split; [reflexivity |]); simpl;
    rewrite <- ?app_assoc, ?app_nil_r; auto.
Qed.

(** One call of [process_evacuate_roots] made while evacuation is in
    progress returns, having made the calls of
    [process_evacuate_roots_calls] in that order. *)
Lemma process_evacuate_roots_runs (vm : VM) (self : Thread)
    (oops : option OopClosure) (blobs : option CodeBlobClosure)
    (w : nat) (s : State) :
  is_evacuation_in_progress vm = true ->
  exists s',
    exec (process_evacuate_roots vm self oops blobs w) s = (Normal tt, s') /\
    log s' = log s ++ process_evacuate_roots_calls vm self oops blobs w s.
Proof.
  intros Hevac. unfold process_evacuate_roots, root_cld_do.
  rewrite Hevac. cbv zeta.
  rewrite exec_assert_true.
  destruct (pll_block vm self s) as (s0 & X0 & R0).
  rewrite (@exec_seq _ _ _ _ _ _ _ X0).
  destruct (timed_call_block CLDGRoots w
              (ClassLoaderDataGraph_roots_cld_do
                 (Some (CLDToOopClosure oops)) (Some (CLDToOopClosure oops)))
              R0) as (sa & Xa & Ra).
  rewrite (@exec_seq _ _ _ _ _ _ _ Xa).
  destruct (timed_call_block ThreadRoots w
              (Threads_possibly_parallel_oops_do oops None None) Ra)
    as (sb & Xb & Rb).
  rewrite (@exec_seq _ _ _ _ _ _ _ Xb).
  destruct (@when_block (not_null blobs) _ _ _ _ _ _ _ _ _ _ _ Rb
              (fun u H => H) (fun H => H) (fun H => H)
              (timed_call_block CodeCacheRoots w
                 (CsetCodeRoots_possibly_parallel_blobs_do blobs) Rb))
    as (sc & Xc & Rc).
  rewrite (@exec_seq _ _ _ _ _ _ _ Xc).
  destruct (guarded_block SHENANDOAH_EVAC_Universe_oops_do UniverseRoots w
              (Universe_oops_do oops) Rc eq_refl) as (s1 & X1 & R1).
  rewrite (@exec_seq _ _ _ _ _ _ _ X1).
  destruct (guarded_block SHENANDOAH_EVAC_JNIHandles_oops_do JNIRoots w
              (JNIHandles_oops_do oops) R1 eq_refl) as (s2 & X2 & R2).
  rewrite (@exec_seq _ _ _ _ _ _ _ X2).
  destruct (guarded_block SHENANDOAH_EVAC_FlatProfiler_oops_do
              FlatProfilerRoots w (FlatProfiler_oops_do oops) R2 eq_refl)
    as (s3 & X3 & R3).
  rewrite (@exec_seq _ _ _ _ _ _ _ X3).
  destruct (guarded_block SHENANDOAH_EVAC_Management_oops_do
              ManagementRoots w (Management_oops_do oops) R3 eq_refl)
    as (s4 & X4 & R4).
  rewrite (@exec_seq _ _ _ _ _ _ _ X4).
  destruct (guarded_block SHENANDOAH_EVAC_jvmti_oops_do JVMTIRoots w
              (JvmtiExport_oops_do oops) R4 eq_refl) as (s5 & X5 & R5).
  rewrite (@exec_seq _ _ _ _ _ _ _ X5).
  destruct (guarded_block SHENANDOAH_EVAC_SystemDictionary_oops_do
              SystemDictionaryRoots w (SystemDictionary_oops_do oops)
              R5 eq_refl) as (s6 & X6 & R6).
  rewrite (@exec_seq _ _ _ _ _ _ _ X6).
  destruct (guarded_block SHENANDOAH_EVAC_JNIHandles_weak_oops_do
              JNIWeakRoots w
              (JNIHandles_weak_oops_do (Some AlwaysTrueClosure) oops)
              R6 eq_refl) as (s7 & X7 & R7).
  rewrite (@exec_seq _ _ _ _ _ _ _ X7).
  destruct (@when_block (ShenandoahStringDedup_is_enabled vm)
              _ _ _ _ _ _ _ _ _ _ _ R7
              (fun u H => H) (fun H => H) (fun H => H)
              (timed_call_block StringDedupRoots w
                 (ShenandoahStringDedup_parallel_oops_do oops) R7))
    as (s8 & X8 & R8).
  rewrite (@exec_seq _ _ _ _ _ _ _ X8).
  destruct (monitor_block vm oops w R8) as (s9 & X9 & R9).
  rewrite (@exec_seq _ _ _ _ _ _ _ X9).
  destruct (timed_call_block StringTableRoots w
              (StringTable_possibly_parallel_oops_do oops) R9)
    as (s10 & X10 & R10).
  exists s10. split; [exact X10 |].
  destruct R10 as (Hlog & _). rewrite Hlog.
  unfold process_evacuate_roots_calls, evacuate_singletons_calls,
    code_roots_calls.
  rewrite <- !app_assoc. reflexivity.
Qed.

Lemma process_evacuate_roots_trace (vm : VM) (self : Thread)
    (oops : option OopClosure) (blobs : option CodeBlobClosure)
    (w : nat) (s : State) :
  is_evacuation_in_progress vm = true ->
  trace (process_evacuate_roots vm self oops blobs w) s
  = process_evacuate_roots_calls vm self oops blobs w s.
Proof.
  intros Hevac.
  destruct (process_evacuate_roots_runs vm self oops blobs w s Hevac)
    as (s' & Hx & Hlog).
  apply trace_of_log. rewrite Hx. exact Hlog.
Qed.

(** Outside evacuation the assertion stops the call before any call is
    made. *)
Lemma process_evacuate_roots_not_evacuating (vm : VM) (self : Thread)
    (oops : option OopClosure) (blobs : option CodeBlobClosure)
    (w : nat) (s : State) :
  is_evacuation_in_progress vm = false ->
  exec (process_evacuate_roots vm self oops blobs w) s
  = (FatalError "only when evacuating", s).
Proof.
  intros H. unfold process_evacuate_roots. rewrite H. reflexivity.
Qed.

(** ** The strong-root scan *)

Lemma count_events_map_none (src : RootSource) (f : nat -> Event)
    (l : list nat) :
  (forall n, visits src (f n) = false) ->
  count_events (visits src) (map f l) = 0.
Proof.
  intros H. induction l as [| n l IH]; [reflexivity |].
  unfold count_events in *. simpl. rewrite H. exact IH.
Qed.

Lemma filter_map_all (P : Event -> bool) (f : nat -> Event) (l : list nat) :
  (forall n, P (f n) = true) -> filter P (map f l) = map f l.
Proof.
  intros H. induction l as [| n l IH]; [reflexivity |].
  simpl. rewrite H, IH. reflexivity.
Qed.

Lemma filter_map_none (P : Event -> bool) (f : nat -> Event) (l : list nat) :
  (forall n, P (f n) = false) -> filter P (map f l) = [].
Proof.
  intros H. induction l as [| n l IH]; [reflexivity |].
  simpl. rewrite H, IH. reflexivity.
Qed.

Lemma filter_guarded_none (P : Event -> bool) (s : State) (t : Task)
    (phase : Phase) (w : nat) (e : Event) :
  P (WorkerTimingsTracker_begin phase w) = false ->
  P (WorkerTimingsTracker_end phase w) = false ->
  P e = false ->
  filter P (guarded_calls s t phase w e) = [].
Proof.
  intros Hb He Hn. unfold guarded_calls, timed.
  destruct (tasks s t); simpl; [reflexivity |].
  rewrite Hb, Hn, He. reflexivity.
Qed.

Lemma filter_timed (P : Event -> bool) (phase : Phase) (w : nat)
    (l : list Event) :
  P (WorkerTimingsTracker_begin phase w) = false ->
  P (WorkerTimingsTracker_end phase w) = false ->
  filter P (timed phase w l) = filter P l.
Proof.
  intros Hb He. unfold timed. simpl. rewrite Hb, filter_app. simpl.
  rewrite He, app_nil_r. reflexivity.
Qed.

(** C3, as the code has it.  Without a weak visitor [process_vm_roots]
    visits neither the native-handle weak table, nor the deduplication
    table, nor the intern table.  The monitor table is not among the
    sources the weak visitor gates: every call, with or without a weak
    visitor, hands every monitor block not yet taken to the strong
    visitor. *)
Theorem null_weak_visitor_skips_weak_tables_not_monitors
    (vm : VM) (strong_roots : option OopClosure)
    (is_alive : option BoolObjectClosure) (w : nat) (s : State) :
  (forall src, In src [JNIWeakTable; DedupTable; InternTable] ->
     filter (visits src)
       (trace (process_vm_roots vm strong_roots None is_alive w) s) = []) /\
  (forall weak_roots,
     filter (visits MonitorTable)
       (trace (process_vm_roots vm strong_roots weak_roots is_alive w) s)
     = map (SynchronizerIterator_block_do strong_roots)
           (seq (om_cur s) (monitor_blocks vm - om_cur s))).
Proof.
  split.
  - intros src Hsrc. rewrite process_vm_roots_trace.
    unfold process_vm_roots_calls. simpl not_null. rewrite andb_false_r.
    rewrite !filter_app.
    assert (Hmon : forall n,
              visits src (SynchronizerIterator_block_do strong_roots n)
              = false).
    { intros n. simpl in Hsrc.
      destruct Hsrc as [<- | [<- | [<- | []]]]; reflexivity. }
    rewrite !filter_guarded_none, filter_timed; try reflexivity;
      try (simpl in Hsrc; destruct Hsrc as [<- | [<- | [<- | []]]];
           reflexivity).
    unfold monitor_calls. rewrite (filter_map_none _ _ _ Hmon). reflexivity.
  - intros weak_roots. rewrite process_vm_roots_trace.
    unfold process_vm_roots_calls. rewrite !filter_app.
    rewrite !filter_guarded_none by reflexivity.
    rewrite filter_timed by reflexivity.
    unfold monitor_calls at 1.
    rewrite filter_map_all by reflexivity.
    destruct (not_null weak_roots),
      (ShenandoahStringDedup_is_enabled vm); simpl;
      rewrite ?filter_guarded_none by reflexivity;
      rewrite ?app_nil_r; reflexivity.
Qed.

(** The claim C3 fails as stated: with a null weak visitor the monitor
    table is still visited. *)
Lemma null_weak_visitor_monitors_counterexample :
  ~ (forall src, In src weak_sources ->
       filter (visits src)
         (trace (process_vm_roots example_vm (Some 1) None None 0)
                example_state) = []).
Proof.
  intros H. specialize (H MonitorTable). simpl in H.
  assert (Hin : JNIWeakTable = MonitorTable \/ DedupTable = MonitorTable \/
                MonitorTable = MonitorTable \/ InternTable = MonitorTable \/
                False) by auto.
  specialize (H Hin). vm_compute in H. discriminate.
Qed.

(** C5, as the code has it.  [process_vm_roots] is a void function: it
    returns nothing, with or without a weak visitor.  With a non-null weak
    visitor it runs the intern-table traversal once, handing it the
    liveness predicate and the weak visitor; the processed and removed
    counts reach two locals of the call and go no further. *)
Theorem process_vm_roots_keeps_unlink_counts_local
    (vm : VM) (strong_roots : option OopClosure) (weak : OopClosure)
    (is_alive : option BoolObjectClosure) (w : nat) (s : State) :
  (forall weak_roots,
     fst (exec (process_vm_roots vm strong_roots weak_roots is_alive w) s)
     = Normal tt) /\
  filter (visits InternTable)
    (trace (process_vm_roots vm strong_roots (Some weak) is_alive w) s)
  = [StringTable_possibly_parallel_unlink_or_oops_do is_alive (Some weak)
       (fst (unlink_counts vm is_alive s))
       (snd (unlink_counts vm is_alive s))].
Proof.
  split.
  - intros weak_roots.
    destruct (process_vm_roots_runs vm strong_roots weak_roots is_alive w s)
      as (s' & Hx & _).
    rewrite Hx. reflexivity.
  - rewrite process_vm_roots_trace.
    unfold process_vm_roots_calls. rewrite !filter_app.
    rewrite !filter_guarded_none by reflexivity.
    rewrite !filter_timed by reflexivity.
    unfold monitor_calls. rewrite filter_map_none by reflexivity.
    simpl not_null. cbv iota.
    rewrite !filter_guarded_none by reflexivity.
    rewrite !filter_timed by reflexivity.
    destruct (ShenandoahStringDedup_is_enabled vm); simpl;
      rewrite ?filter_timed by reflexivity; reflexivity.
Qed.

(** The claim C5 fails as stated: what the call returns is the same for
    a table of three strings and for an empty one, while the counts of the
    traversal differ. *)
Lemma unlink_counts_returned_counterexample :
  ~ (exists extract : Outcome unit -> nat * nat,
       forall vm,
         extract
           (fst (exec (process_vm_roots vm (Some 1) (Some 2)
                         (Some (CallerIsAliveClosure 0)) 0)
                      example_state))
         = unlink_counts vm (Some (CallerIsAliveClosure 0)) example_state).
Proof.
  intros [extract H].
  pose proof (H example_vm) as H1.
  pose proof (H example_vm_no_strings) as H2.
  vm_compute in H1. vm_compute in H2. congruence.
Qed.

Lemma same_worker_count_refl (s : State) : same_worker_count s s.
Proof. split; reflexivity. Qed.

Lemma same_worker_count_trans (a b c : State) :
  same_worker_count a b -> same_worker_count b c -> same_worker_count a c.
Proof. intros [H1 H2] [H3 H4]. split; congruence. Qed.

Ltac solve_same_count :=
  unfold same_worker_count;
  repeat match goal with
  | |- context [if ?b then (_, _) else (_, _)] => destruct b
  end;
  split; reflexivity.

(** The scan proper leaves the count of workers done to its caller. *)
Lemma process_vm_roots_keeps_count (vm : VM)
    (strong_roots weak_roots : option OopClosure)
    (is_alive : option BoolObjectClosure) (w : nat) :
  respects same_worker_count
           (process_vm_roots vm strong_roots weak_roots is_alive w).
Proof. unfold process_vm_roots. respects_tac; solve_same_count. Qed.

Lemma process_java_roots_keeps_count (strong_roots : option OopClosure)
    (strong_clds weak_clds : option CLDClosure)
    (strong_code : option CodeBlobClosure)
    (thread_cl : option ThreadClosure) (w : nat) :
  respects same_worker_count
           (process_java_roots strong_roots strong_clds weak_clds
              strong_code thread_cl w).
Proof.
  unfold process_java_roots, root_cld_do. respects_tac; solve_same_count.
Qed.

(** C9.  [process_strong_roots] asserts that its thread closure is null:
    with a non-null one the call stops on "not implemented yet" before it
    scans anything; with a null one the assertion holds and the call
    returns, its worker counted as done (or stops where the claim set is
    told of more workers done than it was configured for). *)
Theorem process_strong_roots_requires_null_thread_closure
    (vm : VM) (oops : option OopClosure) (clds : option CLDClosure)
    (blobs : option CodeBlobClosure) (w : nat) (s : State) :
  (forall thread_cl : ThreadClosure,
     exec (process_strong_roots vm oops clds blobs (Some thread_cl) w) s
     = (FatalError "not implemented yet", s)) /\
  fst (exec (process_strong_roots vm oops clds blobs None w) s)
  = (if threads_completed s <? n_threads s then Normal tt
     else FatalError "more workers done than configured").
Proof.
  split.
  - intros thread_cl. reflexivity.
  - unfold process_strong_roots.
    change (negb (not_null (@None ThreadClosure))) with true.
    rewrite exec_assert_true.
    rewrite exec_bind.
    pose proof (respects_exec same_worker_count same_worker_count_refl
                  same_worker_count_trans _
                  (process_java_roots_keeps_count oops clds None blobs
                     None w) s) as [Hj1 Hj2].
    destruct (exec (process_java_roots oops clds None blobs None w) s)
      as [o s1] eqn:Hj.
    assert (Ho : o = Normal tt) by (simpl in Hj; inversion Hj; reflexivity).
    subst o. clear Hj. simpl in Hj1, Hj2.
    rewrite exec_bind.
    pose proof (respects_exec same_worker_count same_worker_count_refl
                  same_worker_count_trans _
                  (process_vm_roots_keeps_count vm oops None None w) s1)
      as [Hv1 Hv2].
    destruct (process_vm_roots_runs vm oops None None w s1)
      as (s2 & Hx & _).
    rewrite Hx in *. simpl in Hv1, Hv2.
    unfold SubTasksDone_all_tasks_completed. simpl.
    rewrite Hv1, Hv2, Hj1, Hj2.
    destruct (threads_completed s <? n_threads s); reflexivity.
Qed.

(** ** The serial scan *)

Lemma process_all_roots_slow_trace (vm : VM) (oops : option OopClosure)
    (s : State) :
  trace (process_all_roots_slow vm oops) s =
  slow_calls_before_threads vm oops ++
  [Threads_possibly_parallel_oops_do oops
     (Some (CLDToOopClosure oops))
     (Some (CodeBlobToOopClosure oops (negb FixRelocations)))].
Proof.
  apply trace_of_log.
  unfold process_all_roots_slow, slow_calls_before_threads.
  destruct (ShenandoahStringDedup_is_enabled vm); simpl;
    rewrite <- !app_assoc; reflexivity.
Qed.

Lemma visitation_app (rt : RootTables) (l l' : list Event) :
  visitation rt (l ++ l') = visitation rt l ++ visitation rt l'.
Proof. unfold visitation. apply flat_map_app. Qed.

Lemma visitation_sources (rt : RootTables) (l : list Event)
    (P : RootSource -> Prop) :
  Forall (fun e => match source_of e with Some src => P src | None => True end)
         l ->
  Forall (fun x => P (fst x)) (visitation rt l).
Proof.
  induction 1 as [| e l He _ IH]; simpl; [constructor |].
  apply Forall_app. split; [| exact IH].
  destruct (source_of e) as [src |]; [| constructor].
  apply Forall_forall. intros x Hx. apply in_map_iff in Hx.
  destruct Hx as [r [<- _]]. exact He.
Qed.

(** C4.  In the visitation order of [process_all_roots_slow] every
    reference found through the thread stacks comes after every reference
    found through any other source. *)
Theorem process_all_roots_slow_threads_last
    (vm : VM) (oops : option OopClosure) (s : State) (rt : RootTables)
    (i j : nat) (r r' : oop) (src : RootSource) :
  nth_error (visitation rt (trace (process_all_roots_slow vm oops) s)) i
    = Some (ThreadStacks, r) ->
  nth_error (visitation rt (trace (process_all_roots_slow vm oops) s)) j
    = Some (src, r') ->
  src <> ThreadStacks ->
  j < i.
Proof.
  rewrite process_all_roots_slow_trace, visitation_app.
  set (before := visitation rt (slow_calls_before_threads vm oops)).
  assert (Hbefore : Forall (fun x => fst x <> ThreadStacks) before).
  { apply (@visitation_sources rt (slow_calls_before_threads vm oops)
             (fun x => x <> ThreadStacks)).
    unfold slow_calls_before_threads.
    destruct (ShenandoahStringDedup_is_enabled vm);
      repeat constructor; simpl; discriminate. }
  assert (Hafter : Forall (fun x => fst x = ThreadStacks)
            (visitation rt
               [Threads_possibly_parallel_oops_do oops
                  (Some (CLDToOopClosure oops))
                  (Some (CodeBlobToOopClosure oops (negb FixRelocations)))])).
  { apply (@visitation_sources rt _ (fun x => x = ThreadStacks)).
    repeat constructor. }
  intros Hi Hj Hsrc.
  assert (Hilen : length before <= i).
  { destruct (Nat.lt_ge_cases i (length before)) as [Hlt | Hge]; [| exact Hge].
    rewrite nth_error_app1 in Hi by exact Hlt.
    apply nth_error_In in Hi.
    rewrite Forall_forall in Hbefore. apply Hbefore in Hi.
    simpl in Hi. congruence. }
  assert (Hjlen : j < length before).
  { destruct (Nat.lt_ge_cases j (length before)) as [Hlt | Hge]; [exact Hlt |].
    rewrite nth_error_app2 in Hj by exact Hge.
    apply nth_error_In in Hj.
    rewrite Forall_forall in Hafter. apply Hafter in Hj.
    simpl in Hj. congruence. }
  lia.
Qed.

Lemma process_all_roots_slow_threads_last_witness :
  nth_error (visitation example_tables
               (trace (process_all_roots_slow example_vm (Some 1))
                      example_state)) 1
    = Some (ThreadStacks, 5) /\
  nth_error (visitation example_tables
               (trace (process_all_roots_slow example_vm (Some 1))
                      example_state)) 0
    = Some (UniverseTable, 3) /\
  UniverseTable <> ThreadStacks /\
  0 < 1.
Proof.
  assert (H1 : nth_error (visitation example_tables
               (trace (process_all_roots_slow example_vm (Some 1))
                      example_state)) 1
               = Some (ThreadStacks, 5)) by reflexivity.
  assert (H2 : nth_error (visitation example_tables
               (trace (process_all_roots_slow example_vm (Some 1))
                      example_state)) 0
               = Some (UniverseTable, 3)) by reflexivity.
  assert (H3 : UniverseTable <> ThreadStacks) by discriminate.
  repeat split; try assumption.
  exact (@process_all_roots_slow_threads_last example_vm (Some 1)
           example_state example_tables 1 0 5 3 UniverseTable H1 H2 H3).
Defined.

(** ** What the evacuation scan may call *)

Lemma only_calls_refl (P : Event -> Prop) (s : State) : only_calls P s s.
Proof. exists []. rewrite app_nil_r. split; [reflexivity | constructor]. Qed.

Lemma only_calls_trans (P : Event -> Prop) (a b c : State) :
  only_calls P a b -> only_calls P b c -> only_calls P a c.
Proof.
  intros [l1 [H1 F1]] [l2 [H2 F2]]. exists (l1 ++ l2).
  rewrite H2, H1, app_assoc. split; [reflexivity |].
  apply Forall_app. auto.
Qed.

Lemma only_calls_delta (P : Event -> Prop) (s s' : State) :
  only_calls P s s' -> Forall P (delta s s').
Proof.
  intros [l [H F]]. unfold delta. rewrite H.
  rewrite skipn_app, skipn_all, Nat.sub_diag. exact F.
Qed.

Lemma only_calls_one (P : Event -> Prop) (s s' : State) (e : Event) :
  log s' = log s ++ [e] -> P e -> only_calls P s s'.
Proof. intros H He. exists [e]. split; [exact H | repeat constructor; exact He]. Qed.

Lemma only_calls_two (P : Event -> Prop) (s s' : State) (e1 e2 : Event) :
  log s' = (log s ++ [e1]) ++ [e2] -> P e1 -> P e2 -> only_calls P s s'.
Proof.
  intros H H1 H2. exists [e1; e2]. rewrite H, <- app_assoc.
  split; [reflexivity | repeat constructor; assumption].
Qed.

Lemma only_calls_none (P : Event -> Prop) (s s' : State) :
  log s' = log s -> only_calls P s s'.
Proof.
  intros H. exists []. rewrite app_nil_r.
  split; [exact H | constructor].
Qed.

(** Settles [only_calls P] for one atomic action of the scans once [P]
    is decided on each call by computation. *)
Ltac solve_only_calls_by tac :=
  repeat match goal with
  | |- context [if ?b then (_, _) else (_, _)] => destruct b
  | |- context [match forwardee ?s ?p with _ => _ end] =>
      destruct (forwardee s p)
  | |- context [match free_space ?s with _ => _ end] =>
      destruct (free_space s)
  end;
  simpl;
  first [ apply only_calls_none; reflexivity
        | eapply only_calls_one; [reflexivity | solve [tac]]
        | eapply only_calls_two; [reflexivity | solve [tac] | solve [tac]] ].

Ltac solve_only_calls :=
  solve_only_calls_by ltac:(unfold always_alive; simpl; auto).

Lemma evacuate_workers_respect (R : State -> State -> Prop) (vm : VM)
    (args : nat -> EvacArgs) (n : nat) :
  (forall self oops blobs w,
     respects R (process_evacuate_roots vm self oops blobs w)) ->
  Forall (respects R) (evacuate_workers vm args n).
Proof.
  intros H. apply Forall_forall. intros p Hp.
  apply in_map_iff in Hp. destruct Hp as [w [<- _]]. apply H.
Qed.

(** What every action of an evacuation session respects, the session
    respects as a whole. *)
Lemma evacuate_session_respects (R : State -> State -> Prop)
    (Rrefl : forall s, R s s)
    (Rtrans : forall a b c, R a b -> R b c -> R a c)
    (vm : VM) (n : nat) (phase : Phase) (args : nat -> EvacArgs)
    (sched : list nat) (s : State) :
  respects R (ShenandoahRootEvacuator_ctor vm n phase) ->
  (forall self oops blobs w,
     respects R (process_evacuate_roots vm self oops blobs w)) ->
  match evacuate_session vm n phase args sched s with
  | Some (_, s') => R s s'
  | None => True
  end.
Proof.
  intros Hctor Hw. unfold evacuate_session.
  pose proof (respects_exec R Rrefl Rtrans _ Hctor s) as H1.
  destruct (exec (ShenandoahRootEvacuator_ctor vm n phase) s)
    as [[o | msg] s1]; [| exact I].
  simpl in H1.
  pose proof (@respects_run_schedule R Rrefl Rtrans sched
                (evacuate_workers vm args n) s1
                (evacuate_workers_respect R vm args n Hw)) as [H2 _].
  destruct (run_schedule sched (evacuate_workers vm args n) s1) as [pool s'].
  simpl in H2. eapply Rtrans; eauto.
Qed.

Lemma trace_only_calls {A : Type} (P : Event -> Prop) (p : Prog A)
    (s : State) :
  respects (only_calls P) p -> Forall P (trace p s).
Proof.
  intros H. unfold trace. apply (@only_calls_delta P s (snd (exec p s))).
  apply respects_exec;
    [apply only_calls_refl | apply only_calls_trans | exact H].
Qed.

Lemma session_only_calls (P : Event -> Prop)
    (vm : VM) (n : nat) (phase : Phase) (args : nat -> EvacArgs)
    (sched : list nat) (s : State) :
  respects (only_calls P) (ShenandoahRootEvacuator_ctor vm n phase) ->
  (forall self oops blobs w,
     respects (only_calls P) (process_evacuate_roots vm self oops blobs w)) ->
  Forall P (session_calls s (evacuate_session vm n phase args sched s)).
Proof.
  intros Hc Hw.
  pose proof (@evacuate_session_respects (only_calls P)
                (only_calls_refl P) (@only_calls_trans P)
                vm n phase args sched s Hc Hw) as H.
  destruct (evacuate_session vm n phase args sched s) as [[pool s'] |];
    simpl; [apply only_calls_delta, H | constructor].
Qed.

Lemma evacuation_respects_always_alive (vm : VM) (self : Thread)
    (oops : option OopClosure) (blobs : option CodeBlobClosure) (w : nat) :
  respects (only_calls always_alive)
           (process_evacuate_roots vm self oops blobs w).
Proof.
  unfold process_evacuate_roots, root_cld_do.
  respects_tac; solve_only_calls.
Qed.

Lemma evacuator_ctor_respects_always_alive (vm : VM) (n : nat)
    (phase : Phase) :
  respects (only_calls always_alive) (ShenandoahRootEvacuator_ctor vm n phase).
Proof.
  unfold ShenandoahRootEvacuator_ctor, ParallelCLDRootIterator_ctor.
  respects_tac; solve_only_calls.
Qed.

Lemma filter_all (P : Event -> bool) (l : list Event) :
  Forall (fun e => P e = true) l -> filter P l = l.
Proof.
  induction 1 as [| e l He _ IH]; simpl; [reflexivity |].
  rewrite He, IH. reflexivity.
Qed.

Lemma filter_none (P : Event -> bool) (l : list Event) :
  Forall (fun e => P e = false) l -> filter P l = [].
Proof.
  induction 1 as [| e l He _ IH]; simpl; [reflexivity |].
  rewrite He, IH. reflexivity.
Qed.

Lemma filter_guarded_one (P : Event -> bool) (s : State) (t : Task)
    (phase : Phase) (w : nat) (e : Event) :
  P (WorkerTimingsTracker_begin phase w) = false ->
  P (WorkerTimingsTracker_end phase w) = false ->
  P e = true ->
  filter P (guarded_calls s t phase w e) = if tasks s t then [] else [e].
Proof.
  intros Hb He Hn. unfold guarded_calls, timed.
  destruct (tasks s t); simpl; [reflexivity |].
  rewrite Hb, Hn, He. reflexivity.
Qed.

Lemma pll_calls_evacuation (vm : VM) (self : Thread) (s : State) :
  Forall (fun e => is_evacuation e = true) (pll_calls vm self s).
Proof.
  unfold pll_calls. destruct (pll_to_evacuate vm s); [| constructor].
  destruct (forwardee s (pending_list_lock vm)), (free_space s);
    repeat constructor.
Qed.

Lemma filter_pll_calls (P : Event -> bool) (vm : VM) (self : Thread)
    (s : State) :
  (forall e, is_evacuation e = true -> P e = false) ->
  filter P (pll_calls vm self s) = [].
Proof.
  intros H. apply filter_none.
  eapply Forall_impl; [| apply pll_calls_evacuation]. exact H.
Qed.

Lemma visits_evacuation (src : RootSource) (e : Event) :
  is_evacuation e = true -> visits src e = false.
Proof. destruct e; simpl; intros H; try discriminate; reflexivity. Qed.

Lemma trace_not_evacuating (vm : VM) (self : Thread)
    (oops : option OopClosure) (blobs : option CodeBlobClosure)
    (w : nat) (s : State) :
  is_evacuation_in_progress vm = false ->
  trace (process_evacuate_roots vm self oops blobs w) s = [].
Proof.
  intros H. apply trace_of_log.
  rewrite process_evacuate_roots_not_evacuating by exact H.
  simpl. rewrite app_nil_r. reflexivity.
Qed.

(** C6.  The evacuation scan consults no liveness predicate but the
    always-true one: in one call, and in a whole session under any
    schedule, every call that takes a predicate is handed
    [AlwaysTrueClosure]; the weak native-handle table is traversed with it
    by the call that wins its claim.  [process_evacuate_roots] has no
    liveness parameter a caller could supply. *)
Theorem evacuation_scan_always_alive (vm : VM) :
  (forall self oops blobs w s,
     Forall always_alive
       (trace (process_evacuate_roots vm self oops blobs w) s)) /\
  (forall n phase args sched s,
     Forall always_alive
       (session_calls s (evacuate_session vm n phase args sched s))) /\
  (forall self oops blobs w s,
     filter (visits JNIWeakTable)
       (trace (process_evacuate_roots vm self oops blobs w) s)
     = if is_evacuation_in_progress vm &&
          negb (tasks s SHENANDOAH_EVAC_JNIHandles_weak_oops_do)
       then [JNIHandles_weak_oops_do (Some AlwaysTrueClosure) oops]
       else []).
Proof.
  split; [| split].
  - intros. apply trace_only_calls, evacuation_respects_always_alive.
  - intros. apply session_only_calls.
    + apply evacuator_ctor_respects_always_alive.
    + apply evacuation_respects_always_alive.
  - intros self oops blobs w s.
    destruct (is_evacuation_in_progress vm) eqn:Hevac.
    + rewrite process_evacuate_roots_trace by exact Hevac.
      unfold process_evacuate_roots_calls, evacuate_singletons_calls,
        code_roots_calls.
      rewrite !filter_app.
      rewrite filter_pll_calls by (intros; apply visits_evacuation; assumption).
      rewrite (@filter_guarded_one _ s SHENANDOAH_EVAC_JNIHandles_weak_oops_do)
        by reflexivity.
      rewrite !filter_guarded_none by reflexivity.
      rewrite !filter_timed by reflexivity.
      unfold monitor_calls. rewrite filter_map_none by reflexivity.
      destruct (not_null blobs), (ShenandoahStringDedup_is_enabled vm),
        (tasks s SHENANDOAH_EVAC_JNIHandles_weak_oops_do); reflexivity.
    + rewrite trace_not_evacuating by exact Hevac. reflexivity.
Qed.

(** ** Code roots *)

Lemma evacuation_respects_no_full_code_scan (vm : VM) (self : Thread)
    (oops : option OopClosure) (blobs : option CodeBlobClosure) (w : nat) :
  respects (only_calls (fun e => is_full_code_scan e = false))
           (process_evacuate_roots vm self oops blobs w).
Proof.
  unfold process_evacuate_roots, root_cld_do.
  respects_tac; solve_only_calls_by ltac:(reflexivity).
Qed.

Lemma evacuator_ctor_respects_no_full_code_scan (vm : VM) (n : nat)
    (phase : Phase) :
  respects (only_calls (fun e => is_full_code_scan e = false))
           (ShenandoahRootEvacuator_ctor vm n phase).
Proof.
  unfold ShenandoahRootEvacuator_ctor, ParallelCLDRootIterator_ctor.
  respects_tac; solve_only_calls_by ltac:(reflexivity).
Qed.

Lemma filter_code_evacuate (vm : VM) (self : Thread)
    (oops : option OopClosure) (blobs : option CodeBlobClosure)
    (w : nat) (s : State) :
  filter (visits CodeTable)
    (trace (process_evacuate_roots vm self oops blobs w) s)
  = if is_evacuation_in_progress vm && not_null blobs
    then [CsetCodeRoots_possibly_parallel_blobs_do blobs]
    else [].
Proof.
  destruct (is_evacuation_in_progress vm) eqn:Hevac.
  - rewrite process_evacuate_roots_trace by exact Hevac.
    unfold process_evacuate_roots_calls, evacuate_singletons_calls,
      code_roots_calls.
    rewrite !filter_app.
    rewrite filter_pll_calls by (intros; apply visits_evacuation; assumption).
    rewrite !filter_guarded_none by reflexivity.
    rewrite !filter_timed by reflexivity.
    unfold monitor_calls. rewrite filter_map_none by reflexivity.
    destruct (not_null blobs), (ShenandoahStringDedup_is_enabled vm);
      reflexivity.
  - rewrite trace_not_evacuating by exact Hevac. reflexivity.
Qed.

Lemma visited_blobs_code_only (rt : RootTables) (l : list Event) :
  flat_map (visited_blobs rt) l
  = flat_map (visited_blobs rt) (filter (visits CodeTable) l).
Proof.
  induction l as [| e l IH]; [reflexivity |].
  simpl. destruct (visits CodeTable e) eqn:He; simpl; rewrite IH.
  - reflexivity.
  - destruct e; simpl in *; try reflexivity; discriminate.
Qed.

(** C7.  The evacuation scan hands its blob closure to the collection-set
    code-root iterator and never to the full code cache, in one call and
    in a whole session under any schedule: the code units it visits are
    those with references into the collection set.  The serial scan
    [process_all_roots_slow] walks the whole code cache, unfiltered. *)
Theorem evacuation_scan_code_roots_cset_only (vm : VM) (rt : RootTables) :
  (forall self oops blobs w s,
     Forall (fun e => is_full_code_scan e = false)
       (trace (process_evacuate_roots vm self oops blobs w) s)) /\
  (forall n phase args sched s,
     Forall (fun e => is_full_code_scan e = false)
       (session_calls s (evacuate_session vm n phase args sched s))) /\
  (forall self oops blobs w s,
     flat_map (visited_blobs rt)
       (trace (process_evacuate_roots vm self oops blobs w) s)
     = if is_evacuation_in_progress vm && not_null blobs
       then filter (has_cset_oops rt) (code_table rt)
       else []) /\
  (forall oops s,
     filter (visits CodeTable) (trace (process_all_roots_slow vm oops) s)
     = [CodeCache_blobs_do (CodeBlobToOopClosure oops (negb FixRelocations))]
     /\
     flat_map (visited_blobs rt) (trace (process_all_roots_slow vm oops) s)
     = code_table rt).
Proof.
  split; [| split; [| split]].
  - intros. apply trace_only_calls, evacuation_respects_no_full_code_scan.
  - intros. apply session_only_calls.
    + apply evacuator_ctor_respects_no_full_code_scan.
    + apply evacuation_respects_no_full_code_scan.
  - intros. rewrite visited_blobs_code_only, filter_code_evacuate.
    destruct (is_evacuation_in_progress vm && not_null blobs); simpl;
      rewrite ?app_nil_r; reflexivity.
  - intros oops s.
    assert (Hf : filter (visits CodeTable)
                   (trace (process_all_roots_slow vm oops) s)
                 = [CodeCache_blobs_do
                      (CodeBlobToOopClosure oops (negb FixRelocations))]).
    { rewrite process_all_roots_slow_trace.
      unfold slow_calls_before_threads.
      destruct (ShenandoahStringDedup_is_enabled vm); reflexivity. }
    split; [exact Hf |].
    rewrite visited_blobs_code_only, Hf. simpl. apply app_nil_r.
Qed.

Lemma evacuation_respects_no_code_roots (vm : VM) (self : Thread)
    (oops : option OopClosure) (w : nat) :
  respects (only_calls (fun e => is_code_root_call e = false))
           (process_evacuate_roots vm self oops None w).
Proof.
  unfold process_evacuate_roots, root_cld_do. simpl not_null.
  respects_tac; solve_only_calls_by ltac:(reflexivity).
Qed.

(** C10.  With a null blob closure [process_evacuate_roots] makes no
    code-root call at all; apart from the code-root block its calls are
    the same whatever the blob closure, so every other source is visited
    as it is with one: the pending-list-lock pre-pass, the class-loader
    graph, the threads, the claimed singletons, the deduplication table,
    the monitors and the StringTable. *)
Theorem null_blob_closure_skips_code_roots_only
    (vm : VM) (self : Thread) (oops : option OopClosure) (w : nat)
    (s : State) :
  filter is_code_root_call
    (trace (process_evacuate_roots vm self oops None w) s) = [] /\
  (forall blobs,
     filter (fun e => negb (is_code_root_call e))
       (trace (process_evacuate_roots vm self oops blobs w) s)
     = trace (process_evacuate_roots vm self oops None w) s) /\
  trace (process_evacuate_roots vm self oops None w) s
  = if is_evacuation_in_progress vm
    then pll_calls vm self s ++
         timed CLDGRoots w
           [ClassLoaderDataGraph_roots_cld_do (Some (CLDToOopClosure oops))
              (Some (CLDToOopClosure oops))] ++
         timed ThreadRoots w
           [Threads_possibly_parallel_oops_do oops None None] ++
         evacuate_singletons_calls vm oops w s
    else [].
Proof.
  pose proof (@trace_only_calls unit _ _ s
                (evacuation_respects_no_code_roots vm self oops w)) as Hnone.
  split; [apply filter_none, Hnone | split].
  - intros blobs.
    destruct (is_evacuation_in_progress vm) eqn:Hevac.
    + rewrite process_evacuate_roots_trace in Hnone by exact Hevac.
      rewrite !process_evacuate_roots_trace by exact Hevac.
      unfold process_evacuate_roots_calls in *.
      change (code_roots_calls None w) with (@nil Event) in Hnone.
      rewrite app_nil_l in Hnone.
      rewrite !Forall_app in Hnone.
      destruct Hnone as (Hp & Hc & Ht & Hs).
      assert (Hneg : forall l,
                Forall (fun e => is_code_root_call e = false) l ->
                filter (fun e => negb (is_code_root_call e)) l = l).
      { intros l Hl. apply filter_all.
        eapply Forall_impl; [| exact Hl].
        intros e He. simpl in He. rewrite He. reflexivity. }
      rewrite !filter_app.
      rewrite (Hneg _ Hp), (Hneg _ Hc), (Hneg _ Ht), (Hneg _ Hs).
      unfold code_roots_calls.
      destruct (not_null blobs); reflexivity.
    + rewrite !trace_not_evacuating by exact Hevac. reflexivity.
  - destruct (is_evacuation_in_progress vm) eqn:Hevac.
    + rewrite process_evacuate_roots_trace by exact Hevac. reflexivity.
    + apply trace_not_evacuating, Hevac.
Qed.

(** ** The pending-list-lock pre-pass *)

Lemma copies_bounded_refl (p : oop) (s : State) : copies_bounded p s s.
Proof. exists []. rewrite app_nil_r. simpl. split; [reflexivity | lia]. Qed.

Lemma copies_bounded_trans (p : oop) (a b c : State) :
  copies_bounded p a b -> copies_bounded p b c -> copies_bounded p a c.
Proof.
  intros [l1 [H1 B1]] [l2 [H2 B2]]. exists (l1 ++ l2).
  rewrite H2, H1, app_assoc. split; [reflexivity |].
  rewrite count_events_app. lia.
Qed.

Lemma copies_none (p : oop) (s s' : State) :
  log s' = log s -> forwardee s' = forwardee s -> copies_bounded p s s'.
Proof.
  intros Hl Hf. exists []. rewrite app_nil_r. unfold unforwarded.
  rewrite Hf. simpl. split; [exact Hl | lia].
Qed.

Lemma copies_one (p : oop) (s s' : State) (e : Event) :
  log s' = log s ++ [e] -> is_copy_of p e = false ->
  forwardee s' = forwardee s -> copies_bounded p s s'.
Proof.
  intros Hl He Hf. exists [e]. unfold unforwarded, count_events.
  rewrite Hf. simpl. rewrite He. simpl. split; [exact Hl | lia].
Qed.

(** The compare-and-set of [evacuate_object]: a copy is installed only
    for an object that was unforwarded, and forwards it. *)
Lemma copies_evacuate (p q copy : oop) (t : Thread) (rest : list oop)
    (s : State) :
  forwardee s q = None ->
  copies_bounded p s
    (emit (Heap_object_copied q copy t)
       (set_heap (emit (Heap_evacuate_object q t) s)
          (fun x => if x =? q then Some copy else forwardee s x) rest)).
Proof.
  intros Hq.
  exists [Heap_evacuate_object q t; Heap_object_copied q copy t].
  split; [simpl; rewrite <- app_assoc; reflexivity |].
  unfold count_events, unforwarded. simpl.
  destruct (Nat.eqb_spec q p) as [-> | Hne].
  - rewrite Nat.eqb_refl, Hq. simpl. lia.
  - destruct (Nat.eqb_spec p q) as [-> | _]; [congruence |]. simpl. lia.
Qed.

Ltac solve_copies :=
  repeat match goal with
  | |- context [if ?b then (_, _) else (_, _)] => destruct b
  | |- context [match forwardee ?s ?p with _ => _ end] =>
      destruct (forwardee s p) eqn:?
  | |- context [match free_space ?s with _ => _ end] =>
      destruct (free_space s)
  end;
  simpl;
  first [ apply copies_none; reflexivity
        | eapply copies_one; [reflexivity | reflexivity | reflexivity]
        | apply copies_evacuate; assumption ].

Lemma evacuation_respects_copies (p : oop) (vm : VM) (self : Thread)
    (oops : option OopClosure) (blobs : option CodeBlobClosure) (w : nat) :
  respects (copies_bounded p) (process_evacuate_roots vm self oops blobs w).
Proof.
  unfold process_evacuate_roots, root_cld_do.
  respects_tac; solve_copies.
Qed.

Lemma evacuator_ctor_respects_copies (p : oop) (vm : VM) (n : nat)
    (phase : Phase) :
  respects (copies_bounded p) (ShenandoahRootEvacuator_ctor vm n phase).
Proof.
  unfold ShenandoahRootEvacuator_ctor, ParallelCLDRootIterator_ctor.
  respects_tac; solve_copies.
Qed.

Lemma Forall_timed (P : Event -> Prop) (phase : Phase) (w : nat)
    (l : list Event) :
  P (WorkerTimingsTracker_begin phase w) ->
  P (WorkerTimingsTracker_end phase w) ->
  Forall P l -> Forall P (timed phase w l).
Proof.
  intros Hb He Hl. unfold timed. constructor; [exact Hb |].
  apply Forall_app. split; [exact Hl | repeat constructor; exact He].
Qed.

Lemma Forall_guarded_calls (P : Event -> Prop) (s : State) (t : Task)
    (phase : Phase) (w : nat) (e : Event) :
  P (WorkerTimingsTracker_begin phase w) ->
  P (WorkerTimingsTracker_end phase w) ->
  P e -> Forall P (guarded_calls s t phase w e).
Proof.
  intros Hb He Hn. unfold guarded_calls.
  destruct (tasks s t); [constructor |].
  apply Forall_timed; auto.
Qed.

Lemma Forall_monitor_calls (P : Event -> Prop) (vm : VM)
    (f : option OopClosure) (s : State) :
  (forall n, P (SynchronizerIterator_block_do f n)) ->
  Forall P (monitor_calls vm f s).
Proof.
  intros H. unfold monitor_calls. apply Forall_forall.
  intros e He. apply in_map_iff in He. destruct He as [n [<- _]]. apply H.
Qed.

Ltac solve_only_pll :=
  unfold evacuates_only_pll; simpl; auto;
  match goal with
  | H : negb (is_null _) && _ = true |- _ =>
      apply andb_true_iff in H; destruct H as [Hnull Hcset];
      apply negb_true_iff in Hnull; apply Nat.eqb_neq in Hnull; auto
  end.

(** Walks a program action by action, keeping what each action
    returned. *)
Ltac respects_precise :=
  repeat first
    [ progress simpl
    | match goal with
      | |- True => exact I
      | |- forall _, _ => intro
      | |- _ /\ _ => split
      | |- respects _ ?p =>
          match p with
          | context [if ?b then _ else _] => destruct b eqn:?
          end
      end ].

Lemma evacuation_respects_only_pll (vm : VM) (self : Thread)
    (oops : option OopClosure) (blobs : option CodeBlobClosure) (w : nat) :
  respects (only_calls (evacuates_only_pll vm))
           (process_evacuate_roots vm self oops blobs w).
Proof.
  unfold process_evacuate_roots, root_cld_do, when, assert.
  respects_precise; solve_only_calls_by solve_only_pll.
Qed.

Lemma evacuator_ctor_respects_only_pll (vm : VM) (n : nat) (phase : Phase) :
  respects (only_calls (evacuates_only_pll vm))
           (ShenandoahRootEvacuator_ctor vm n phase).
Proof.
  unfold ShenandoahRootEvacuator_ctor, ParallelCLDRootIterator_ctor.
  respects_tac; solve_only_calls_by solve_only_pll.
Qed.

(** After the pre-pass the scan makes no evacuation call of its own. *)
Lemma after_prepass_no_evacuation (vm : VM) (oops : option OopClosure)
    (blobs : option CodeBlobClosure) (w : nat) (s : State) :
  Forall (fun e => is_evacuation e = false)
    (timed CLDGRoots w
       [ClassLoaderDataGraph_roots_cld_do (Some (CLDToOopClosure oops))
          (Some (CLDToOopClosure oops))] ++
     timed ThreadRoots w [Threads_possibly_parallel_oops_do oops None None] ++
     code_roots_calls blobs w ++
     evacuate_singletons_calls vm oops w s).
Proof.
  unfold evacuate_singletons_calls, code_roots_calls.
  repeat (apply Forall_app; split);
    try (apply Forall_guarded_calls; reflexivity);
    try (apply Forall_timed; try reflexivity;
         try (apply Forall_monitor_calls; reflexivity);
         repeat constructor);
    try (destruct (not_null blobs); [| constructor];
         apply Forall_timed; try reflexivity; repeat constructor);
    try (destruct (ShenandoahStringDedup_is_enabled vm); [| constructor];
         apply Forall_timed; try reflexivity; repeat constructor).
Qed.

Lemma pll_to_evacuate_iff (vm : VM) (s : State) :
  pll_to_evacuate vm s = true <->
  pending_list_lock vm <> NULL /\
  in_collection_set vm (pending_list_lock vm) = true /\
  resolve s (pending_list_lock vm) = pending_list_lock vm.
Proof.
  unfold pll_to_evacuate, resolve, is_null.
  rewrite !andb_true_iff, negb_true_iff, Nat.eqb_neq, Nat.eqb_eq.
  split.
  - intros [[H1 H2] H3]. repeat split; auto.
  - intros [H1 [H2 H3]]. repeat split; auto.
Qed.

(** C2.  A call of [process_evacuate_roots] during evacuation starts with
    the pending-list-lock pre-pass: its evacuation calls come before every
    other call, and the scan evacuates nothing afterwards.  The calling
    thread attempts the evacuation of the pending-list lock exactly when
    the slot holds a non-null object of the collection set that resolves
    to itself, and attempts no other.  In a whole session, whatever the
    number of workers and the schedule, the scan attempts to evacuate the
    pending-list lock only, found non-null and in the collection set, and
    no object is copied more than once. *)
Theorem pending_list_lock_prepass
    (vm : VM) (self : Thread) (oops : option OopClosure)
    (blobs : option CodeBlobClosure) (w : nat) (s : State) :
  is_evacuation_in_progress vm = true ->
  (exists rest,
     trace (process_evacuate_roots vm self oops blobs w) s
     = pll_calls vm self s ++ rest /\
     Forall (fun e => is_evacuation e = true) (pll_calls vm self s) /\
     Forall (fun e => is_evacuation e = false) rest) /\
  (In (Heap_evacuate_object (pending_list_lock vm) self)
      (trace (process_evacuate_roots vm self oops blobs w) s) <->
   pending_list_lock vm <> NULL /\
   in_collection_set vm (pending_list_lock vm) = true /\
   resolve s (pending_list_lock vm) = pending_list_lock vm) /\
  (forall p t,
     In (Heap_evacuate_object p t)
        (trace (process_evacuate_roots vm self oops blobs w) s) ->
     p = pending_list_lock vm /\ t = self) /\
  (forall n phase args sched s0,
     Forall (evacuates_only_pll vm)
       (session_calls s0 (evacuate_session vm n phase args sched s0))) /\
  (forall n phase args sched s0 p,
     count_events (is_copy_of p)
       (session_calls s0 (evacuate_session vm n phase args sched s0)) <= 1).
Proof.
  intros Hevac.
  rewrite process_evacuate_roots_trace by exact Hevac.
  unfold process_evacuate_roots_calls.
  pose proof (after_prepass_no_evacuation vm oops blobs w s) as Hrest.
  set (rest := timed CLDGRoots w _ ++ _) in *.
  assert (Hnot : forall p t, ~ In (Heap_evacuate_object p t) rest).
  { intros p t Hin. rewrite Forall_forall in Hrest.
    apply Hrest in Hin. discriminate. }
  assert (Hpll : forall p t,
            In (Heap_evacuate_object p t) (pll_calls vm self s) <->
            p = pending_list_lock vm /\ t = self /\
            pll_to_evacuate vm s = true).
  { intros p t. unfold pll_calls.
    destruct (pll_to_evacuate vm s); simpl.
    - split.
      + intros [Heq | Hin].
        * inversion Heq. auto.
        * destruct (forwardee s (pending_list_lock vm)), (free_space s);
            simpl in Hin; try tauto;
            destruct Hin as [Hc | []]; discriminate.
      + intros (-> & -> & _). left. reflexivity.
    - split; [tauto | intros (_ & _ & H); discriminate]. }
  split; [| split; [| split; [| split]]].
  - exists rest. split; [reflexivity |].
    split; [apply pll_calls_evacuation | exact Hrest].
  - rewrite in_app_iff, <- pll_to_evacuate_iff. split.
    + intros [Hin | Hin]; [apply Hpll in Hin; tauto | elim (Hnot _ _ Hin)].
    + intros H. left. apply Hpll. auto.
  - intros p t Hin. apply in_app_iff in Hin.
    destruct Hin as [Hin | Hin]; [apply Hpll in Hin; tauto |
                                  elim (Hnot _ _ Hin)].
  - intros. apply session_only_calls.
    + apply evacuator_ctor_respects_only_pll.
    + apply evacuation_respects_only_pll.
  - intros n phase args sched s0 p.
    pose proof (@evacuate_session_respects (copies_bounded p)
                  (copies_bounded_refl p) (@copies_bounded_trans p)
                  vm n phase args sched s0
                  (evacuator_ctor_respects_copies p vm n phase)
                  (evacuation_respects_copies p vm)) as H.
    destruct (evacuate_session vm n phase args sched s0) as [[pool s'] |];
      simpl; [| unfold count_events; simpl; lia].
    destruct H as [l [Hl Hb]]. unfold delta. rewrite Hl.
    rewrite skipn_app, skipn_all, Nat.sub_diag. simpl.
    unfold unforwarded in Hb.
    destruct (forwardee s' p), (forwardee s0 p); lia.
Qed.

Lemma pending_list_lock_prepass_witness :
  is_evacuation_in_progress example_vm = true /\
  In (Heap_evacuate_object 7 0)
     (trace (process_evacuate_roots example_vm 0 (Some 1) None 0)
            example_state).
Proof.
  assert (Hevac : is_evacuation_in_progress example_vm = true)
    by reflexivity.
  split; [exact Hevac |].
  destruct (@pending_list_lock_prepass example_vm 0 (Some 1) None 0
              example_state Hevac) as (_ & Hiff & _).
  apply Hiff. split; [discriminate | split; reflexivity].
Defined.

(** ** Phase timing of the evacuator *)

Lemma between_records_refl (s : State) : between_records s s.
Proof. split; [apply only_calls_refl | lia]. Qed.

Lemma between_records_trans (a b c : State) :
  between_records a b -> between_records b c -> between_records a c.
Proof.
  intros [H1 C1] [H2 C2]. split; [eapply only_calls_trans; eauto | lia].
Qed.

Ltac solve_between :=
  unfold between_records;
  repeat match goal with
  | |- context [if ?b then (_, _) else (_, _)] => destruct b
  | |- context [match forwardee ?s ?p with _ => _ end] =>
      destruct (forwardee s p)
  | |- context [match free_space ?s with _ => _ end] =>
      destruct (free_space s)
  end;
  simpl;
  (split;
   [ first [ apply only_calls_none; reflexivity
           | eapply only_calls_one; [reflexivity | reflexivity]
           | eapply only_calls_two; [reflexivity | reflexivity | reflexivity] ]
   | simpl; lia ]).

Lemma evacuation_respects_between_records (vm : VM) (self : Thread)
    (oops : option OopClosure) (blobs : option CodeBlobClosure) (w : nat) :
  respects between_records (process_evacuate_roots vm self oops blobs w).
Proof.
  unfold process_evacuate_roots, root_cld_do.
  respects_tac; solve_between.
Qed.

(** The constructor records the start of the phase once, at the time on
    the clock. *)
Lemma evacuator_ctor_records (vm : VM) (n : nat) (phase : Phase)
    (s s1 : State) (o : unit) :
  exec (ShenandoahRootEvacuator_ctor vm n phase) s = (Normal o, s1) ->
  exists post,
    log s1 = log s ++
             [StrongRootsScope_enter true;
              ClassLoaderDataGraph_clear_claimed_marks;
              Heap_set_par_threads n] ++
             PhaseTimings_record_workers_start phase (clock s) :: post /\
    Forall (fun e => is_phase_record e = false) post /\
    clock s < clock s1.
Proof.
  unfold ShenandoahRootEvacuator_ctor, ParallelCLDRootIterator_ctor.
  destruct (is_at_safepoint vm), (ShenandoahStringDedup_is_enabled vm);
    simpl; intros H; inversion H; subst; simpl;
    eexists;
    (split; [rewrite <- ?app_assoc; simpl; reflexivity |
             split; [repeat constructor | lia]]).
Qed.

(** C8.  Over the lifetime of an evacuator, from its construction to its
    destruction once its workers have returned, under any schedule, the
    phase timings are told of exactly one start, by the constructor, and of
    exactly one end, by the destructor; the start comes first and the time
    recorded for the end is not before the time recorded for the start. *)
Theorem evacuator_records_one_timing_interval
    (vm : VM) (n : nat) (phase : Phase) (args : nat -> EvacArgs)
    (sched : list nat) (s s_end : State) :
  evacuator_lifetime vm n phase args sched s = Some s_end ->
  exists pre mid t_start t_end,
    delta s s_end =
      pre ++ PhaseTimings_record_workers_start phase t_start ::
      mid ++ [PhaseTimings_record_workers_end phase t_end] /\
    Forall (fun e => is_phase_record e = false) pre /\
    Forall (fun e => is_phase_record e = false) mid /\
    t_start <= t_end /\
    count_events is_workers_start (delta s s_end) = 1 /\
    count_events is_workers_end (delta s s_end) = 1.
Proof.
  unfold evacuator_lifetime, evacuate_session.
  destruct (exec (ShenandoahRootEvacuator_ctor vm n phase) s)
    as [[o | msg] s1] eqn:Hctor; [| discriminate].
  destruct (evacuator_ctor_records _ _ _ _ Hctor) as (post & Hlog1 & Hpost & Hclk).
  pose proof (@respects_run_schedule between_records
                between_records_refl between_records_trans sched
                (evacuate_workers vm args n) s1
                (evacuate_workers_respect between_records vm args n
                   (evacuation_respects_between_records vm))) as [Hrun _].
  destruct (run_schedule sched (evacuate_workers vm args n) s1)
    as [pool s2].
  simpl in Hrun. destruct Hrun as [[l [Hlog2 Hl]] Hclk2].
  destruct (all_returned pool); [| discriminate].
  intros Hend. inversion Hend; subst s_end. clear Hend.
  assert (Hdelta :
            delta s (snd (exec (ShenandoahRootEvacuator_dtor phase) s2)) =
            [StrongRootsScope_enter true;
             ClassLoaderDataGraph_clear_claimed_marks;
             Heap_set_par_threads n] ++
            PhaseTimings_record_workers_start phase (clock s) ::
            (post ++ l) ++
            [PhaseTimings_record_workers_end phase (clock s2)]).
  { unfold delta. simpl. rewrite Hlog2, Hlog1.
    rewrite <- !app_assoc.
    rewrite skipn_app, skipn_all, Nat.sub_diag. simpl.
    rewrite <- ?app_assoc. reflexivity. }
  assert (Hmid : Forall (fun e => is_phase_record e = false) (post ++ l))
    by (apply Forall_app; auto).
  assert (Hs : filter is_workers_start (post ++ l) = []).
  { apply filter_none. eapply Forall_impl; [| exact Hmid].
    intros e He. unfold is_phase_record in He.
    apply orb_false_iff in He. tauto. }
  assert (He : filter is_workers_end (post ++ l) = []).
  { apply filter_none. eapply Forall_impl; [| exact Hmid].
    intros e H. unfold is_phase_record in H.
    apply orb_false_iff in H. tauto. }
  exists [StrongRootsScope_enter true;
          ClassLoaderDataGraph_clear_claimed_marks;
          Heap_set_par_threads n], (post ++ l), (clock s), (clock s2).
  split; [exact Hdelta |].
  split; [repeat constructor |].
  split; [exact Hmid |].
  split; [lia |].
  match type of Hdelta with
  | _ = ?calls =>
      assert (Hcount : forall d, d = calls ->
                count_events is_workers_start d = 1 /\
                count_events is_workers_end d = 1)
  end.
  { intros d ->. unfold count_events. simpl.
    rewrite !(filter_app _ (post ++ l)), Hs, He. simpl. auto. }
  exact (Hcount _ Hdelta).
Qed.

Lemma evacuator_records_one_timing_interval_witness :
  exists s_end,
    evacuator_lifetime example_vm 2 (CollectorPhase 0) example_evac_args
      (round_robin 2 64) example_state = Some s_end /\
    count_events is_workers_start (delta example_state s_end) = 1 /\
    count_events is_workers_end (delta example_state s_end) = 1.
Proof.
  destruct (evacuator_lifetime example_vm 2 (CollectorPhase 0)
              example_evac_args (round_robin 2 64) example_state)
    as [s_end |] eqn:Hlife.
  - exists s_end. split; [reflexivity |].
    destruct (evacuator_records_one_timing_interval _ _ _ _ _ _ Hlife)
      as (pre & mid & t0 & t1 & _ & _ & _ & _ & H1 & H2).
    split; assumption.
  - vm_compute in Hlife. discriminate.
Defined.

(** ** Sequential runs are runs of the step semantics *)

Lemma steps_add {A : Type} (k1 k2 : nat) :
  forall (p : Prog A) (s : State),
    steps (k1 + k2) p s = steps k2 (fst (steps k1 p s)) (snd (steps k1 p s)).
Proof.
  induction k1 as [| k1 IH]; intros p s; simpl; [reflexivity |].
  destruct (step p s) as [p' s']. apply IH.
Qed.

(** A loop whose bound decreases leaves through its test, within the
    bound. *)
Lemma loop_steps {A : Type} (c : Prog bool) (m : State -> nat)
    (kp : Prog A) :
  (forall s s', exec c s = (Normal true, s') -> m s' < m s) ->
  (forall (f : bool -> Prog A) s, exists k,
     steps k (bind c f) s =
     (match fst (exec c s) with
      | Normal b => f b
      | FatalError msg => Fatal msg
      end, snd (exec c s))) ->
  forall n s, m s <= n ->
    exists k,
      steps k (While c m kp) s =
      (match fst (loop (exec c) n s) with
       | Normal _ => kp
       | FatalError msg => Fatal msg
       end, snd (loop (exec c) n s)).
Proof.
  intros Hdec Hc. induction n as [| n IH]; intros s Hn;
    destruct (Hc (fun b : bool => if b then While c m kp else kp) s)
      as [j Hj];
    pose proof (Hdec s) as Hd;
    cbn [loop]; destruct (exec c s) as [[[|] | msg] s'] eqn:Hx;
    simpl in Hj.
  - specialize (Hd s' eq_refl). lia.
  - exists (S j). exact Hj.
  - exists (S j). exact Hj.
  - destruct (IH s') as [k Hk]; [specialize (Hd s' eq_refl); lia |].
    exists (S j + k). rewrite steps_add.
    change (steps (S j) (While c m kp) s)
      with (steps j (b <- c ;; if b then While c m kp else kp) s).
    rewrite Hj. exact Hk.
  - exists (S j). exact Hj.
  - exists (S j). exact Hj.
Qed.

Lemma steps_Fatal {A : Type} (msg : string) (s : State) (k : nat) :
  steps k (@Fatal A msg) s = (Fatal msg, s).
Proof. induction k; simpl; auto. Qed.

(** [exec] is the run of the step semantics to its end, also in front of
    a continuation. *)
Lemma exec_steps_bind {A : Type} (p : Prog A) :
  well_bounded p ->
  forall (B : Type) (f : A -> Prog B) s, exists k,
    steps k (bind p f) s =
    (match fst (exec p s) with
     | Normal a => f a
     | FatalError msg => Fatal msg
     end, snd (exec p s)).
Proof.
  induction p as [A a | A X a k IH | A c IHc m kp IH | A msg]; simpl;
    intros Hwb B f s.
  - exists 0. reflexivity.
  - destruct (a s) as [x s'] eqn:Ha.
    destruct (IH x (Hwb x) B f s') as [n Hn].
    exists (S n). simpl. rewrite Ha. exact Hn.
  - destruct Hwb as (Hwc & Hdec & Hk).
    destruct (@loop_steps B c m (bind kp f) Hdec
                (fun g s0 => IHc Hwc B g s0) (m s) s (le_n _)) as [k1 H1].
    destruct (loop (exec c) (m s) s) as [[u | msg] s1]; simpl in *.
    + destruct (IH Hk B f s1) as [k2 H2].
      exists (k1 + k2). rewrite steps_add, H1. exact H2.
    + exists k1. exact H1.
  - exists 0. reflexivity.
Qed.

Lemma exec_steps {A : Type} (p : Prog A) :
  well_bounded p ->
  forall s, exists k,
    steps k p s = (finished (fst (exec p s)), snd (exec p s)).
Proof.
  induction p as [A a | A X a k IH | A c _ m kp IH | A msg]; simpl;
    intros Hwb s.
  - exists 0. reflexivity.
  - destruct (a s) as [x s'] eqn:Ha.
    destruct (IH x (Hwb x) s') as [n Hn].
    exists (S n). simpl. rewrite Ha. exact Hn.
  - destruct Hwb as (Hwc & Hdec & Hk).
    destruct (@loop_steps A c m kp Hdec
                (fun g s0 => @exec_steps_bind bool c Hwc A g s0)
                (m s) s (le_n _)) as [k1 H1].
    destruct (loop (exec c) (m s) s) as [[u | msg] s1]; simpl in *.
    + destruct (IH Hk s1) as [k2 H2].
      exists (k1 + k2). rewrite steps_add, H1. exact H2.
    + exists k1. exact H1.
  - exists 0. reflexivity.
Qed.

Lemma well_bounded_bind {A B : Type} (p : Prog A) (f : A -> Prog B) :
  well_bounded p -> (forall x, well_bounded (f x)) ->
  well_bounded (bind p f).
Proof.
  revert B f.
  induction p as [A a | A X a k IH | A c _ m k IH | A msg];
    intros B f Hp Hf; simpl in *; auto.
  destruct Hp as (Hc & Hdec & Hk). auto.
Qed.

Lemma parallel_oops_do_well_bounded (vm : VM) (f : option OopClosure) :
  well_bounded (SynchronizerIterator_parallel_oops_do vm f).
Proof. intros [b |]; simpl; auto. Qed.

Ltac well_bounded_tac :=
  repeat match goal with
  | |- well_bounded (SynchronizerIterator_parallel_oops_do _ _) =>
      apply parallel_oops_do_well_bounded
  | |- well_bounded (bind _ _) => apply well_bounded_bind
  | |- well_bounded (when ?b _) => destruct b; simpl
  | |- well_bounded (if ?b then _ else _) => destruct b
  | |- well_bounded (assert ?b _) => destruct b; simpl
  | |- well_bounded (match ?x with Some _ => _ | None => _ end) =>
      destruct x
  | |- forall _, _ => intro
  | |- _ /\ _ => split
  | |- True => exact I
  | |- well_bounded _ => progress simpl
  end.

Lemma monitor_bound_decreases (vm : VM) (f : option OopClosure)
    (s s' : State) :
  exec (SynchronizerIterator_parallel_oops_do vm f) s = (Normal true, s') ->
  om_remaining vm s' < om_remaining vm s.
Proof.
  rewrite exec_parallel_oops_do. unfold om_remaining.
  destruct (Nat.ltb_spec (om_cur s) (monitor_blocks vm)); intros Hx;
    inversion Hx; subst; simpl; lia.
Qed.

Ltac solve_monitor_bound :=
  match goal with
  | H : _ = (Normal true, ?s') |- om_remaining ?vm ?s' < om_remaining ?vm ?s =>
      unfold om_remaining;
      destruct (Nat.ltb_spec (om_cur s) (monitor_blocks vm));
      simpl in H; inversion H; subst; simpl; lia
  end.

Lemma process_vm_roots_well_bounded (vm : VM)
    (strong_roots weak_roots : option OopClosure)
    (is_alive : option BoolObjectClosure) (w : nat) :
  well_bounded (process_vm_roots vm strong_roots weak_roots is_alive w).
Proof.
  unfold process_vm_roots.
  well_bounded_tac; solve_monitor_bound.
Qed.

Lemma process_evacuate_roots_well_bounded (vm : VM) (self : Thread)
    (oops : option OopClosure) (blobs : option CodeBlobClosure) (w : nat) :
  well_bounded (process_evacuate_roots vm self oops blobs w).
Proof.
  unfold process_evacuate_roots, root_cld_do.
  well_bounded_tac; solve_monitor_bound.
Qed.

(** A worker alone in its pool runs its call as [exec] does. *)
Lemma single_worker_schedule (p : Prog unit) :
  forall k s,
    is_fatal p = false ->
    is_fatal (fst (steps k p s)) = false ->
    run_schedule (repeat 0 k) [p] s
    = ([fst (steps k p s)], snd (steps k p s)).
Proof.
  intros k. revert p. induction k as [| k IH]; intros p s Hp Hk; simpl.
  - reflexivity.
  - unfold pool_step. simpl. rewrite Hp. simpl.
    simpl in Hk. destruct (step p s) as [p' s'] eqn:Hs.
    destruct (is_fatal p') eqn:Hf.
    + destruct p'; try discriminate.
      assert (Hstuck : forall n, steps n (@Fatal unit msg) s'
                                 = (Fatal msg, s'))
        by (induction n; simpl; auto).
      rewrite Hstuck in Hk. discriminate.
    + apply IH; assumption.
Qed.

Lemma process_evacuate_roots_single_worker (vm : VM) (self : Thread)
    (oops : option OopClosure) (blobs : option CodeBlobClosure)
    (w : nat) (s : State) :
  is_evacuation_in_progress vm = true ->
  exists k,
    run_schedule (repeat 0 k)
      [process_evacuate_roots vm self oops blobs w] s
    = ([Ret tt], snd (exec (process_evacuate_roots vm self oops blobs w) s)).
Proof.
  intros Hevac.
  destruct (@exec_steps _ _ (process_evacuate_roots_well_bounded
                               vm self oops blobs w) s) as [k Hk].
  destruct (process_evacuate_roots_runs vm self oops blobs w s Hevac)
    as (s' & Hx & _).
  rewrite Hx in Hk. simpl in Hk.
  exists k. rewrite Hx. simpl.
  rewrite single_worker_schedule.
  - rewrite Hk. reflexivity.
  - unfold process_evacuate_roots. rewrite Hevac.
    destruct (UseCompressedOops vm); reflexivity.
  - rewrite Hk. reflexivity.
Qed.

Lemma process_vm_roots_single_worker (vm : VM)
    (strong_roots weak_roots : option OopClosure)
    (is_alive : option BoolObjectClosure) (w : nat) (s : State) :
  exists k,
    run_schedule (repeat 0 k)
      [process_vm_roots vm strong_roots weak_roots is_alive w] s
    = ([Ret tt],
       snd (exec (process_vm_roots vm strong_roots weak_roots is_alive w) s)).
Proof.
  destruct (@exec_steps _ _ (process_vm_roots_well_bounded
                               vm strong_roots weak_roots is_alive w) s)
    as [k Hk].
  destruct (process_vm_roots_runs vm strong_roots weak_roots is_alive w s)
    as (s' & Hx & _).
  rewrite Hx in Hk. simpl in Hk.
  exists k. rewrite Hx. simpl.
  rewrite single_worker_schedule.
  - rewrite Hk. reflexivity.
  - reflexivity.
  - rewrite Hk. reflexivity.
Qed.

(** ** Disciplines by status: general facts *)

Section TypestateFacts.

Variable Q : Type.
Variable trans : Q -> State -> State -> Q -> Prop.
Hypothesis trans_refl : forall q s, trans q s s q.
Hypothesis trans_trans :
  forall q1 q2 q3 s1 s2 s3,
    trans q1 s1 s2 q2 -> trans q2 s2 s3 q3 -> trans q1 s1 s3 q3.

Lemma obeys_mono {A : Type} (p : Prog A) (post post' : A -> Q -> Prop)
    (q : Q) :
  (forall a q', post a q' -> post' a q') ->
  obeys trans post q p -> obeys trans post' q p.
Proof.
  revert post post' q.
  induction p as [A a | A X a k IH | A c IHc m k IH | A msg];
    intros post post' q Himp H; simpl in *; auto.
  - intros s. destruct (H s) as [q' [Ht Hk]]. exists q'. split; eauto.
  - eapply IHc; [| exact H].
    intros [|] q' Hb; [exact Hb | eapply IH; eauto].
Qed.

Lemma obeys_bind {A B : Type} (p : Prog A) (f : A -> Prog B)
    (post : B -> Q -> Prop) (q : Q) :
  obeys trans (fun a q' => obeys trans post q' (f a)) q p ->
  obeys trans post q (bind p f).
Proof.
  revert B f post q.
  induction p as [A a | A X a k IH | A c _ m k IH | A msg];
    intros B f post q H; simpl in *; auto.
  - intros s. destruct (H s) as [q' [Ht Hk]]. exists q'. split; auto.
  - eapply obeys_mono; [| exact H].
    intros [|] q' Hb; [exact Hb | apply IH, Hb].
Qed.

Lemma obeys_seq {A B : Type} (p : Prog A) (f : A -> Prog B)
    (post : B -> Q -> Prop) (q q1 : Q) :
  obeys trans (fun _ q' => q' = q1) q p ->
  (forall x, obeys trans post q1 (f x)) ->
  obeys trans post q (bind p f).
Proof.
  intros Hp Hf. apply obeys_bind.
  eapply obeys_mono; [| exact Hp].
  intros a q' ->. apply Hf.
Qed.

(** A program whose actions all keep any status keeps its status. *)
Lemma obeys_idle {A : Type} (p : Prog A) (q : Q) :
  respects (fun s s' => trans q s s' q) p ->
  obeys trans (fun _ q' => q' = q) q p.
Proof.
  induction p as [A a | A X a k IH | A c IHc m k IH | A msg]; simpl;
    intros H; auto.
  - intros s. exists q. destruct (H s) as [Ha Hk]. split; auto.
  - destruct H as [Hc Hk].
    eapply obeys_mono; [| apply (IHc Hc)].
    intros [|] q' ->; [reflexivity | apply IH, Hk].
Qed.

Lemma obeys_step {A : Type} (post : A -> Q -> Prop) (p : Prog A) (q : Q)
    (s : State) :
  obeys trans post q p ->
  exists q', trans q s (snd (step p s)) q' /\
             obeys trans post q' (fst (step p s)).
Proof.
  destruct p as [a | X a k | c m k | msg]; simpl; intros H.
  - exists q. split; [apply trans_refl | exact H].
  - destruct (H s) as [q' [Ht Hk]]. exists q'.
    destruct (a s) as [x s']. simpl in *. auto.
  - exists q. split; [apply trans_refl |].
    apply obeys_bind. eapply obeys_mono; [| exact H].
    intros [|] q' Hb; [subst q'; exact H | exact Hb].
  - exists q. split; [apply trans_refl | exact I].
Qed.

(** The loop of [exec], started within its bound, leaves through its
    test in a status the rest of the program obeys. *)
Lemma obeys_loop {A : Type} (post : A -> Q -> Prop)
    (c : Prog bool) (m : State -> nat) (k : Prog A) (q : Q) :
  (forall s s', exec c s = (Normal true, s') -> m s' < m s) ->
  (forall (postc : bool -> Q -> Prop) q0 s b s',
     obeys trans postc q0 c -> exec c s = (Normal b, s') ->
     exists q', trans q0 s s' q' /\ postc b q') ->
  obeys trans post q (While c m k) ->
  forall n s s', m s <= n -> loop (exec c) n s = (Normal tt, s') ->
    exists q', trans q s s' q' /\ obeys trans post q' k.
Proof.
  intros Hdec Hc H. simpl in H.
  induction n as [| n IH]; intros s s' Hn; cbn [loop];
    pose proof (Hdec s) as Hd;
    destruct (exec c s) as [[[|] | msg] s1] eqn:Hx; intros Hl;
    try discriminate;
    destruct (Hc _ q s _ s1 H Hx) as [q1 [Ht Hp]]; simpl in Hp.
  - specialize (Hd s1 eq_refl). lia.
  - inversion Hl; subst. exists q1. auto.
  - subst q1.
    destruct (IH s1 s') as [q' [Ht' Hk]];
      [specialize (Hd s1 eq_refl); lia | exact Hl |].
    exists q'. split; [eapply trans_trans; eauto | exact Hk].
  - inversion Hl; subst. exists q1. auto.
Qed.

(** A call that returns has moved its status, by [trans] from the state
    before to the state after, into one that [post] accepts. *)
Lemma obeys_exec {A : Type} (post : A -> Q -> Prop) (p : Prog A) :
  well_bounded p ->
  forall q s a s',
    obeys trans post q p -> exec p s = (Normal a, s') ->
    exists q', trans q s s' q' /\ post a q'.
Proof.
  revert post.
  induction p as [A x | A X act k IH | A c IHc m k IH | A msg]; simpl;
    intros post Hwb q s a s' H Hx.
  - inversion Hx; subst. exists q. split; [apply trans_refl | exact H].
  - destruct (H s) as [q1 [Ht Hk]].
    destruct (act s) as [x s1]. simpl in *.
    destruct (IH x post (Hwb x) q1 s1 a s' Hk Hx) as [q' [Ht' Hp]].
    exists q'. split; [eapply trans_trans; eauto | exact Hp].
  - destruct Hwb as (Hwc & Hdec & Hk).
    destruct (loop (exec c) (m s) s) as [[u | msg] s1] eqn:Hl;
      [| discriminate].
    destruct u.
    destruct (@obeys_loop A post c m k q Hdec
                (fun postc q0 s0 b s0' => IHc postc Hwc q0 s0 b s0')
                H (m s) s s1 (le_n _) Hl) as [q1 [Ht Hk1]].
    destruct (IH post Hk q1 s1 a s' Hk1 Hx) as [q' [Ht' Hp]].
    exists q'. split; [eapply trans_trans; eauto | exact Hp].
  - discriminate.
Qed.

Lemma step_worker_obeys (post : unit -> Q -> Prop) (pool : Pool) :
  forall qs w s,
    Forall2 (obeys trans post) qs pool ->
    exists qs',
      Forall2 (obeys trans post) qs' (fst (step_worker w pool s)) /\
      pool_moved trans qs s qs' (snd (step_worker w pool s)).
Proof.
  induction pool as [| p rest IH]; intros qs w s H.
  - inversion H; subst. exists [].
    destruct w; simpl; (split; [constructor | apply pool_still; reflexivity]).
  - inversion H as [| q ? qs0 ? Hq Hrest]; subst.
    destruct w as [| w]; simpl.
    + destruct (obeys_step post p q s Hq) as [q' [Ht Hf]].
      destruct (step p s) as [p' s']. simpl in *.
      exists (q' :: qs0). split; [constructor; auto |].
      apply (@pool_one Q trans _ _ _ _ [] qs0 q q'); auto.
    + destruct (IH qs0 w s Hrest) as [qs' [HF Hm]].
      destruct (step_worker w rest s) as [rest' s']. simpl in *.
      exists (q :: qs'). split; [constructor; auto |].
      destruct Hm as [-> -> | before after q1 q1' -> -> Ht].
      * apply pool_still; reflexivity.
      * apply (@pool_one Q trans _ _ _ _ (q :: before) after q1 q1');
          auto.
Qed.

(** An invariant that every move of one worker keeps holds after any
    schedule. *)
Lemma run_schedule_obeys (post : unit -> Q -> Prop)
    (I : list Q -> State -> Prop) :
  (forall qs s qs' s', I qs s -> pool_moved trans qs s qs' s' -> I qs' s') ->
  forall sched pool qs s,
    Forall2 (obeys trans post) qs pool -> I qs s ->
    exists qs',
      Forall2 (obeys trans post) qs' (fst (run_schedule sched pool s)) /\
      I qs' (snd (run_schedule sched pool s)).
Proof.
  intros Hinv. induction sched as [| w sched IH]; intros pool qs s HF HI;
    simpl.
  - exists qs. auto.
  - unfold pool_step. destruct (existsb is_fatal pool).
    + apply IH with (qs := qs); auto.
    + destruct (@step_worker_obeys post pool qs w s HF) as [qs' [HF' Hm]].
      destruct (step_worker w pool s) as [pool' s']. simpl in *.
      apply IH with (qs := qs'); eauto.
Qed.

End TypestateFacts.

(** ** Lasting conditions a call brings about *)

Lemma reaching_refl (P : State -> Prop) (b : bool) (s : State) :
  reaching P b s s b.
Proof. split; auto. Qed.

Lemma reaching_trans (P : State -> Prop) (b1 b2 b3 : bool)
    (s1 s2 s3 : State) :
  reaching P b1 s1 s2 b2 -> reaching P b2 s2 s3 b3 ->
  reaching P b1 s1 s3 b3.
Proof.
  intros [H1 [-> | [-> HP2]]] [H2 [-> | [-> HP3]]]; split; auto.
Qed.

(** Once a worker of a non-empty pool has returned from a program that
    brings [P] about, [P] holds, whatever the other workers did. *)
Lemma reached_when_returned (P : State -> Prop) (sched : list nat)
    (pool : Pool) (s : State) :
  pool <> [] ->
  Forall (obeys (reaching P) returned_true false) pool ->
  all_returned (fst (run_schedule sched pool s)) = true ->
  P (snd (run_schedule sched pool s)).
Proof.
  intros Hne Hpool Hret.
  assert (HF : Forall2 (obeys (reaching P) returned_true)
                 (map (fun _ => false) pool) pool).
  { clear -Hpool. induction Hpool; simpl; constructor; auto. }
  destruct (@run_schedule_obeys bool (reaching P) (reaching_refl P)
              returned_true (fun qs st => In true qs -> P st))
    with (sched := sched) (pool := pool) (qs := map (fun _ => false) pool)
         (s := s) as [qs' [HF' Hinv]].
  - intros qs st qs' st' HI Hm.
    destruct Hm as [-> -> | before after q q' -> -> [Hst Hq]];
      [exact HI |].
    intros Hin. destruct Hq as [-> | [-> HP]]; auto.
  - exact HF.
  - intros Hin. apply in_map_iff in Hin.
    destruct Hin as [x [Hx _]]. discriminate.
  - apply Hinv.
    pose proof (run_schedule_length sched pool s) as Hlen.
    destruct (fst (run_schedule sched pool s)) as [| p pl];
      [destruct pool; [congruence | discriminate] |].
    inversion HF' as [| q ? qs0 ? Hq _]; subst.
    simpl in Hret. apply andb_true_iff in Hret. destruct Hret as [Hp _].
    destruct p; simpl in *; try discriminate.
    unfold returned_true in Hq. subst q. left. reflexivity.
Qed.

(** A call that returns from a program that brings [P] about leaves [P]
    holding. *)
Lemma reached_when_executed (P : State -> Prop) (p : Prog unit)
    (s s' : State) (o : unit) :
  well_bounded p ->
  obeys (reaching P) returned_true false p ->
  exec p s = (Normal o, s') -> P s'.
Proof.
  intros Hwb Hob Hx.
  destruct (@obeys_exec bool (reaching P) (reaching_refl P)
              (@reaching_trans P) unit returned_true p Hwb
              false s o s' Hob Hx) as [q' [[_ [Hq | [_ HP]]] Hpost]].
  - unfold returned_true in Hpost. congruence.
  - exact HP.
Qed.

(** The guarded block of a task leaves the task claimed. *)
Lemma reach_guarded (t : Task) (phase : Phase) (w : nat) (e : Event) :
  obeys (reaching (task_claimed t)) (fun _ b => b = true) false
    (claimed <- SubTasksDone_is_task_claimed t ;;
     when (negb claimed)
       (ShenandoahWorkerTimingsTracker phase w (call e))).
Proof.
  simpl. intros s. exists true.
  pose proof (tasks_claimed t s) as Hset. split.
  - split; [intros _; exact Hset | right; split; [reflexivity | exact Hset]].
  - destruct (tasks s t); simpl; [reflexivity |].
    intros s1. exists true. split; [split; auto |].
    intros s2. exists true. split; [split; auto |].
    intros s3. exists true. split; [split; auto | reflexivity].
Qed.

(** The monitor loop leaves the monitor iterator exhausted. *)
Lemma reach_monitors (vm : VM) (f : option OopClosure) (w : nat) :
  obeys (reaching (monitors_exhausted vm)) (fun _ b => b = true) false
    (ShenandoahWorkerTimingsTracker ObjectSynchronizerRoots w
       (While (SynchronizerIterator_parallel_oops_do vm f)
              (om_remaining vm) (Ret tt))).
Proof.
  simpl. intros s. exists false. split; [split; auto |].
  intros s1.
  destruct (Nat.ltb_spec (om_cur s1) (monitor_blocks vm)) as [Hlt | Hge];
    simpl.
  - exists false. split.
    + split; [| left; reflexivity].
      unfold monitors_exhausted. simpl. lia.
    + intros s2. exists false. split; [split; auto | reflexivity].
  - exists true. split.
    + split; [auto | right; split; [reflexivity | exact Hge]].
    + intros s2. exists true. split; [split; auto | reflexivity].
Qed.

(** The unlinking traversal leaves the StringTable wholly claimed. *)
Lemma reach_strings (vm : VM) (is_alive : option BoolObjectClosure)
    (f : option OopClosure) (w : nat) :
  obeys (reaching (strings_claimed vm)) (fun _ b => b = true) false
    (ShenandoahWorkerTimingsTracker StringTableRoots w
       (let processed := 0 in
        let removed := 0 in
        _ <- StringTable_unlink_or_oops_do vm is_alive f processed removed ;;
        Ret tt)).
Proof.
  simpl. intros s. exists false. split; [split; auto |].
  intros s1. exists true. split.
  - split; [intros _ | right; split; [reflexivity |]];
      unfold strings_claimed; simpl; lia.
  - intros s2. exists true. split; [split; auto | reflexivity].
Qed.

Ltac solve_lasting :=
  unfold task_claimed, monitors_exhausted, strings_claimed;
  repeat match goal with
  | |- context [if ?b then (_, _) else (_, _)] => destruct b
  | |- context [match forwardee ?s ?p with _ => _ end] =>
      destruct (forwardee s p)
  | |- context [match free_space ?s with _ => _ end] =>
      destruct (free_space s)
  end;
  simpl;
  (split; [intros; solve [assumption | lia | reflexivity] | left; reflexivity]).

(** Walks the blocks of a scan: the block that brings the condition about
    turns the status, every other block keeps it. *)
Ltac walk_reaching :=
  lazymatch goal with
  | |- obeys _ _ ?q (bind _ _) =>
      first
        [ apply obeys_seq with (q1 := true);
          [ solve [ apply reach_guarded | apply reach_monitors
                  | apply reach_strings ]
          | intros _; walk_reaching ]
        | apply obeys_seq with (q1 := q);
          [ solve [apply obeys_idle; respects_tac; solve_lasting]
          | intros _; walk_reaching ] ]
  | |- obeys _ _ false _ =>
      apply obeys_mono with (post := fun _ b => b = true);
      [ intros _ b Hb; exact Hb
      | solve [ apply reach_guarded | apply reach_monitors
              | apply reach_strings ] ]
  | |- obeys _ _ true _ =>
      apply obeys_mono with (post := fun _ b => b = true);
      [ intros _ b Hb; exact Hb
      | apply obeys_idle; respects_tac; solve_lasting ]
  end.

Lemma process_vm_roots_claims (vm : VM)
    (strong_roots weak_roots : option OopClosure)
    (is_alive : option BoolObjectClosure) (w : nat) (src : RootSource) :
  In src claimed_singletons ->
  obeys (reaching (task_claimed (rp_task src))) returned_true false
    (process_vm_roots vm strong_roots weak_roots is_alive w).
Proof.
  intros Hin. unfold returned_true, process_vm_roots. simpl in Hin.
  destruct Hin as [<- | [<- | [<- | [<- | [<- | [<- | []]]]]]];
    unfold rp_task; walk_reaching.
Qed.

Lemma process_vm_roots_exhausts (vm : VM)
    (strong_roots weak_roots : option OopClosure)
    (is_alive : option BoolObjectClosure) (w : nat) :
  obeys (reaching (monitors_exhausted vm)) returned_true false
    (process_vm_roots vm strong_roots weak_roots is_alive w).
Proof. unfold returned_true, process_vm_roots. walk_reaching. Qed.

Lemma process_evacuate_roots_claims (vm : VM) (self : Thread)
    (oops : option OopClosure) (blobs : option CodeBlobClosure) (w : nat)
    (src : RootSource) :
  In src (JNIWeakTable :: claimed_singletons) ->
  obeys (reaching (task_claimed (evac_task src))) returned_true false
    (process_evacuate_roots vm self oops blobs w).
Proof.
  intros Hin. unfold returned_true, process_evacuate_roots, root_cld_do.
  simpl in Hin.
  destruct Hin as [<- | [<- | [<- | [<- | [<- | [<- | [<- | []]]]]]]];
    unfold evac_task; walk_reaching.
Qed.

Lemma process_evacuate_roots_exhausts (vm : VM) (self : Thread)
    (oops : option OopClosure) (blobs : option CodeBlobClosure) (w : nat) :
  obeys (reaching (monitors_exhausted vm)) returned_true false
    (process_evacuate_roots vm self oops blobs w).
Proof.
  unfold returned_true, process_evacuate_roots, root_cld_do. walk_reaching.
Qed.

(** ** Monitor blocks across a session *)

Lemma blocks_visited_app (l l' : list Event) :
  blocks_visited (l ++ l') = blocks_visited l ++ blocks_visited l'.
Proof. unfold blocks_visited. apply flat_map_app. Qed.

(** Both constructors put the monitor cursor on the first block and visit
    no block. *)
Lemma ShenandoahRootProcessor_ctor_cursor (vm : VM) (n : nat)
    (phase : Phase) (s s1 : State) (o : unit) :
  exec (ShenandoahRootProcessor_ctor vm n phase) s = (Normal o, s1) ->
  om_cur s1 = 0 /\
  exists l, log s1 = log s ++ l /\ blocks_visited l = [].
Proof.
  unfold ShenandoahRootProcessor_ctor, ParallelCLDRootIterator_ctor.
  destruct (is_at_safepoint vm), (ShenandoahStringDedup_is_enabled vm);
    simpl; intros H; inversion H; subst; simpl;
    (split; [reflexivity |]); eexists;
    (split; [rewrite <- ?app_assoc; simpl; reflexivity | reflexivity]).
Qed.

Lemma ShenandoahRootEvacuator_ctor_cursor (vm : VM) (n : nat)
    (phase : Phase) (s s1 : State) (o : unit) :
  exec (ShenandoahRootEvacuator_ctor vm n phase) s = (Normal o, s1) ->
  om_cur s1 = 0 /\
  exists l, log s1 = log s ++ l /\ blocks_visited l = [].
Proof.
  unfold ShenandoahRootEvacuator_ctor, ParallelCLDRootIterator_ctor.
  destruct (is_at_safepoint vm), (ShenandoahStringDedup_is_enabled vm);
    simpl; intros H; inversion H; subst; simpl;
    (split; [reflexivity |]); eexists;
    (split; [rewrite <- ?app_assoc; simpl; reflexivity | reflexivity]).
Qed.

Lemma holding_refl (b : nat) (q : bool) (s : State) : holding b q s s q.
Proof. apply h_other; reflexivity. Qed.

Lemma count_true_flip (before after : list bool) :
  count_true (before ++ true :: after)
  = S (count_true (before ++ false :: after)).
Proof.
  unfold count_true. rewrite !filter_app, !length_app. simpl. lia.
Qed.

(** The monitor loop, for block [b]: the round whose claim takes [b]
    visits [b] before its test answers; no other round touches it. *)
Lemma hold_monitors (vm : VM) (f : option OopClosure) (w : nat) (b : nat) :
  obeys (holding b) (fun _ q => q = false) false
    (ShenandoahWorkerTimingsTracker ObjectSynchronizerRoots w
       (While (SynchronizerIterator_parallel_oops_do vm f)
              (om_remaining vm) (Ret tt))).
Proof.
  simpl. intros s. exists false. split.
  { apply h_other; [reflexivity |].
    unfold block_visits. simpl. rewrite count_events_snoc. simpl. lia. }
  intros s1.
  destruct (Nat.ltb_spec (om_cur s1) (monitor_blocks vm)) as [Hlt | Hge];
    simpl.
  - destruct (Nat.eq_dec (om_cur s1) b) as [Heq | Hne].
    + exists true. split.
      * apply h_take; unfold block_taken, block_visits; simpl;
          [apply Nat.ltb_ge; lia | apply Nat.ltb_lt; lia | reflexivity].
      * intros s2. exists false. split; [| reflexivity].
        apply h_visit; [reflexivity |].
        unfold block_visits. simpl. rewrite count_events_snoc. simpl.
        rewrite Heq, Nat.eqb_refl. lia.
    + exists false. split.
      * apply h_other; unfold block_taken, block_visits; simpl;
          [| reflexivity].
        destruct (Nat.ltb_spec b (S (om_cur s1))),
                 (Nat.ltb_spec b (om_cur s1)); try reflexivity; lia.
      * intros s2. exists false. split; [| reflexivity].
        apply h_other; [reflexivity |].
        unfold block_visits. simpl. rewrite count_events_snoc. simpl.
        apply Nat.eqb_neq in Hne. rewrite Hne. lia.
  - exists false. split; [apply holding_refl |].
    intros s2. exists false. split; [| reflexivity].
    apply h_other; [reflexivity |].
    unfold block_visits. simpl. rewrite count_events_snoc. simpl. lia.
Qed.

Ltac solve_holding :=
  apply h_other; unfold block_taken, block_visits;
  repeat match goal with
  | |- context [if ?b then (_, _) else (_, _)] => destruct b
  | |- context [match forwardee ?s ?p with _ => _ end] =>
      destruct (forwardee s p)
  | |- context [match free_space ?s with _ => _ end] =>
      destruct (free_space s)
  end;
  simpl; rewrite ?count_events_snoc; simpl;
  solve [reflexivity | lia].

Ltac walk_holding :=
  lazymatch goal with
  | |- obeys _ _ ?q (bind _ _) =>
      first
        [ apply obeys_seq with (q1 := false);
          [ solve [apply hold_monitors]
          | intros _; walk_holding ]
        | apply obeys_seq with (q1 := q);
          [ solve [apply obeys_idle; respects_tac; solve_holding]
          | intros _; walk_holding ] ]
  | |- obeys _ _ false _ =>
      apply obeys_mono with (post := fun _ q' => q' = false);
      [ intros _ q' Hq; exact Hq
      | apply obeys_idle; respects_tac; solve_holding ]
  end.

Lemma process_vm_roots_holds (vm : VM)
    (strong_roots weak_roots : option OopClosure)
    (is_alive : option BoolObjectClosure) (w : nat) (b : nat) :
  obeys (holding b) returned_false false
    (process_vm_roots vm strong_roots weak_roots is_alive w).
Proof. unfold returned_false, process_vm_roots. walk_holding. Qed.

Lemma process_evacuate_roots_holds (vm : VM) (self : Thread)
    (oops : option OopClosure) (blobs : option CodeBlobClosure) (w : nat)
    (b : nat) :
  obeys (holding b) returned_false false
    (process_evacuate_roots vm self oops blobs w).
Proof.
  unfold returned_false, process_evacuate_roots, root_cld_do. walk_holding.
Qed.

(** A block within the list is visited exactly once by a pool of workers
    that loop over the monitor iterator, once all have returned. *)
Lemma block_visited_once (vm : VM) (b : nat) (sched : list nat)
    (pool : Pool) (s : State) :
  pool <> [] ->
  Forall (obeys (holding b) returned_false false) pool ->
  Forall (obeys (reaching (monitors_exhausted vm)) returned_true false)
         pool ->
  b < monitor_blocks vm -> block_taken b s = false ->
  all_returned (fst (run_schedule sched pool s)) = true ->
  block_visits b (snd (run_schedule sched pool s)) = S (block_visits b s).
Proof.
  intros Hne Hhold Hreach Hb Hfree Hret.
  pose proof (@reached_when_returned (monitors_exhausted vm) sched pool s
                Hne Hreach Hret) as Hex.
  assert (HF : Forall2 (obeys (holding b) returned_false)
                 (map (fun _ => false) pool) pool).
  { clear -Hhold. induction Hhold; simpl; constructor; auto. }
  destruct (@run_schedule_obeys bool (holding b) (holding_refl b)
              returned_false
              (fun qs st => block_visits b st + count_true qs
                            = block_visits b s
                              + (if block_taken b st then 1 else 0)))
    with (sched := sched) (pool := pool) (qs := map (fun _ => false) pool)
         (s := s) as [qs' [HF' Hinv]].
  - intros qs st qs' st' HI Hm.
    destruct Hm as [-> -> | before after q q' -> -> Ht]; [exact HI |].
    inversion Ht; subst.
    + match goal with
      | H1 : block_taken b st' = block_taken b st,
        H2 : block_visits b st' = block_visits b st |- _ =>
          rewrite H1, H2
      end. exact HI.
    + rewrite count_true_flip.
      match goal with
      | H1 : block_taken b st = false, H2 : block_taken b st' = true,
        H3 : block_visits b st' = block_visits b st |- _ =>
          rewrite H1 in HI; rewrite H2, H3
      end. lia.
    + rewrite count_true_flip in HI.
      match goal with
      | H1 : block_taken b st' = block_taken b st,
        H2 : block_visits b st' = S (block_visits b st) |- _ =>
          rewrite H1, H2
      end. lia.
  - exact HF.
  - rewrite Hfree.
    assert (Hz : count_true (map (fun _ => false) pool) = 0)
      by (clear; induction pool; simpl; auto).
    lia.
  - assert (Hz : count_true qs' = 0).
    { clear -HF' Hret.
      induction HF' as [| q p qs pl Hq _ IH]; simpl in *; [reflexivity |].
      apply andb_true_iff in Hret. destruct Hret as [Hp Hr].
      destruct p; simpl in *; try discriminate.
      unfold returned_false in Hq. subst q. apply IH, Hr. }
    assert (Ht : block_taken b (snd (run_schedule sched pool s)) = true).
    { unfold block_taken. apply Nat.ltb_lt.
      unfold monitors_exhausted in Hex. lia. }
    rewrite Hz, Ht in Hinv. lia.
Qed.

Ltac solve_in_range :=
  repeat match goal with
  | H : (_ <? _) = true |- _ => apply Nat.ltb_lt in H
  end;
  solve_only_calls_by ltac:(simpl; auto).

Lemma process_vm_roots_in_range (vm : VM)
    (strong_roots weak_roots : option OopClosure)
    (is_alive : option BoolObjectClosure) (w : nat) :
  respects (only_calls (block_in_range vm))
           (process_vm_roots vm strong_roots weak_roots is_alive w).
Proof. unfold process_vm_roots. respects_tac; solve_in_range. Qed.

Lemma process_evacuate_roots_in_range (vm : VM) (self : Thread)
    (oops : option OopClosure) (blobs : option CodeBlobClosure) (w : nat) :
  respects (only_calls (block_in_range vm))
           (process_evacuate_roots vm self oops blobs w).
Proof.
  unfold process_evacuate_roots, root_cld_do. respects_tac; solve_in_range.
Qed.

Lemma is_block_count (b : nat) (l : list Event) :
  count_events (is_block b) l = count_occ Nat.eq_dec (blocks_visited l) b.
Proof.
  unfold count_events. induction l as [| e l IH]; [reflexivity |].
  simpl. destruct e; simpl; try exact IH.
  destruct (Nat.eqb_spec block b), (Nat.eq_dec block b);
    simpl; try congruence; lia.
Qed.

Lemma count_occ_seq (n b : nat) :
  count_occ Nat.eq_dec (seq 0 n) b = if b <? n then 1 else 0.
Proof.
  pose proof (seq_NoDup n 0) as Hnd.
  destruct (Nat.ltb_spec b n) as [Hlt | Hge].
  - apply NoDup_count_occ'; [exact Hnd | apply in_seq; lia].
  - apply count_occ_not_In. rewrite in_seq. lia.
Qed.

(** What a pool of workers that loop over the monitor iterator has
    visited when all have returned: every block of the list, each once. *)
Lemma monitors_all_visited (vm : VM) (sched : list nat) (pool : Pool)
    (s0 s1 : State) (l0 : list Event) :
  pool <> [] ->
  Forall (respects (only_calls (block_in_range vm))) pool ->
  (forall b, Forall (obeys (holding b) returned_false false) pool) ->
  Forall (obeys (reaching (monitors_exhausted vm)) returned_true false)
         pool ->
  om_cur s1 = 0 -> log s1 = log s0 ++ l0 -> blocks_visited l0 = [] ->
  all_returned (fst (run_schedule sched pool s1)) = true ->
  Permutation
    (blocks_visited (delta s0 (snd (run_schedule sched pool s1))))
    (seq 0 (monitor_blocks vm)).
Proof.
  intros Hne Hrange Hhold Hreach Hcur Hlog Hl0 Hret.
  pose proof (@respects_run_schedule (only_calls (block_in_range vm))
                (only_calls_refl _) (@only_calls_trans _)
                sched pool s1 Hrange) as [(l & Hl & Hin) _].
  unfold delta. rewrite Hl, Hlog, <- app_assoc.
  rewrite skipn_app, skipn_all, Nat.sub_diag. simpl.
  rewrite blocks_visited_app, Hl0. simpl.
  apply (Permutation_count_occ Nat.eq_dec). intros b.
  rewrite <- is_block_count, count_occ_seq.
  destruct (Nat.ltb_spec b (monitor_blocks vm)) as [Hlt | Hge].
  - pose proof (@block_visited_once vm b sched pool s1 Hne (Hhold b)
                  Hreach Hlt) as Hb.
    unfold block_taken, block_visits in Hb.
    rewrite Hcur, Hl, count_events_app in Hb.
    specialize (Hb eq_refl Hret). lia.
  - unfold count_events. rewrite filter_none; [reflexivity |].
    eapply Forall_impl; [| exact Hin].
    intros e He. destruct e; simpl in *; try reflexivity.
    apply Nat.eqb_neq. lia.
Qed.

(** X1.  In a completed session of [n >= 1] workers, under every
    schedule, the monitor blocks handed to closures are the blocks
    [0 .. monitor_blocks - 1], each exactly once, in the strong-root scan
    and in the evacuation scan: the workers' loops neither skip nor repeat
    a block.  The order in which the blocks are visited depends on the
    schedule, since taking a block and visiting it are two steps. *)
Theorem monitor_blocks_visited_exactly_once
    (vm : VM) (n : nat) (phase : Phase)
    (vargs : nat -> VmRootsArgs) (eargs : nat -> EvacArgs)
    (sched : list nat) (s : State) :
  1 <= n ->
  (completed (vm_roots_session vm n phase vargs sched s) = true ->
   Permutation
     (blocks_visited
        (session_calls s (vm_roots_session vm n phase vargs sched s)))
     (seq 0 (monitor_blocks vm))) /\
  (completed (evacuate_session vm n phase eargs sched s) = true ->
   Permutation
     (blocks_visited
        (session_calls s (evacuate_session vm n phase eargs sched s)))
     (seq 0 (monitor_blocks vm))).
Proof.
  intros Hn. split.
  - unfold vm_roots_session.
    destruct (exec (ShenandoahRootProcessor_ctor vm n phase) s)
      as [[o | msg] s1] eqn:Hctor; simpl; [| discriminate].
    destruct (ShenandoahRootProcessor_ctor_cursor _ _ _ _ Hctor)
      as (Hcur & l0 & Hlog & Hl0).
    pose proof (@monitors_all_visited vm sched (vm_roots_workers vm vargs n)
                  s s1 l0) as Hall.
    destruct (run_schedule sched (vm_roots_workers vm vargs n) s1)
      as [pool s'] eqn:Hrun. simpl in *.
    intros Hdone. apply Hall; auto.
    + apply workers_nonempty, Hn.
    + apply Forall_forall. intros p Hp.
      apply in_map_iff in Hp. destruct Hp as [w [<- _]].
      apply process_vm_roots_in_range.
    + intros b. apply Forall_forall. intros p Hp.
      apply in_map_iff in Hp. destruct Hp as [w [<- _]].
      apply process_vm_roots_holds.
    + apply Forall_forall. intros p Hp.
      apply in_map_iff in Hp. destruct Hp as [w [<- _]].
      apply process_vm_roots_exhausts.
  - unfold evacuate_session.
    destruct (exec (ShenandoahRootEvacuator_ctor vm n phase) s)
      as [[o | msg] s1] eqn:Hctor; simpl; [| discriminate].
    destruct (ShenandoahRootEvacuator_ctor_cursor _ _ _ _ Hctor)
      as (Hcur & l0 & Hlog & Hl0).
    pose proof (@monitors_all_visited vm sched (evacuate_workers vm eargs n)
                  s s1 l0) as Hall.
    destruct (run_schedule sched (evacuate_workers vm eargs n) s1)
      as [pool s'] eqn:Hrun. simpl in *.
    intros Hdone. apply Hall; auto.
    + apply workers_nonempty, Hn.
    + apply evacuate_workers_respect.
      intros. apply process_evacuate_roots_in_range.
    + intros b. apply Forall_forall. intros p Hp.
      apply in_map_iff in Hp. destruct Hp as [w [<- _]].
      apply process_evacuate_roots_holds.
    + apply Forall_forall. intros p Hp.
      apply in_map_iff in Hp. destruct Hp as [w [<- _]].
      apply process_evacuate_roots_exhausts.
Qed.

(** Worker 0 takes block 0 and is held up before it visits; worker 1 runs
    to its end in the meantime. *)
Lemma monitor_blocks_visited_exactly_once_witness :
  blocks_visited
    (session_calls example_state
       (vm_roots_session example_vm 2 (CollectorPhase 0) example_vm_args
          (repeat 0 34 ++ repeat 1 73 ++ repeat 0 73) example_state))
  = [1; 2; 0] /\
  Permutation
    (blocks_visited
       (session_calls example_state
          (vm_roots_session example_vm 2 (CollectorPhase 0) example_vm_args
             (repeat 0 34 ++ repeat 1 73 ++ repeat 0 73) example_state)))
    [0; 1; 2] /\
  Permutation
    (blocks_visited
       (session_calls example_state
          (evacuate_session example_vm 2 (CollectorPhase 0)
             example_evac_args (round_robin 2 73) example_state)))
    [0; 1; 2].
Proof.
  split; [vm_compute; reflexivity |].
  split.
  - destruct (@monitor_blocks_visited_exactly_once example_vm 2
                (CollectorPhase 0) example_vm_args example_evac_args
                (repeat 0 34 ++ repeat 1 73 ++ repeat 0 73) example_state)
      as [H1 _]; [lia |].
    apply H1. vm_compute. reflexivity.
  - destruct (@monitor_blocks_visited_exactly_once example_vm 2
                (CollectorPhase 0) example_vm_args example_evac_args
                (round_robin 2 73) example_state)
      as [_ H2]; [lia |].
    apply H2. vm_compute. reflexivity.
Defined.

(** ** A call after a call *)

Lemma process_vm_roots_leaves_claimed (vm : VM)
    (strong_roots weak_roots : option OopClosure)
    (is_alive : option BoolObjectClosure) (w : nat) (s : State) :
  let s1 := snd (exec (process_vm_roots vm strong_roots weak_roots
                         is_alive w) s) in
  (forall src, In src claimed_singletons -> tasks s1 (rp_task src) = true) /\
  monitor_blocks vm <= om_cur s1.
Proof.
  destruct (process_vm_roots_runs vm strong_roots weak_roots is_alive w s)
    as (s' & Hx & _).
  rewrite Hx. simpl. split.
  - intros src Hsrc.
    apply (@reached_when_executed (task_claimed (rp_task src)) _ s s' tt
             (process_vm_roots_well_bounded vm strong_roots weak_roots
                is_alive w)
             (@process_vm_roots_claims vm strong_roots weak_roots
                is_alive w src Hsrc) Hx).
  - apply (@reached_when_executed (monitors_exhausted vm) _ s s' tt
             (process_vm_roots_well_bounded vm strong_roots weak_roots
                is_alive w)
             (process_vm_roots_exhausts vm strong_roots weak_roots
                is_alive w) Hx).
Qed.

(** X2.  Once a call of [process_vm_roots] has returned, a further call
    on the same processor, by any worker and with any closures, visits
    none of the claimed singleton sources and no monitor block. *)
Theorem repeated_process_vm_roots_visits_nothing
    (vm : VM) (strong_roots weak_roots : option OopClosure)
    (is_alive : option BoolObjectClosure) (w : nat)
    (strong_roots' weak_roots' : option OopClosure)
    (is_alive' : option BoolObjectClosure) (w' : nat)
    (s : State) (src : RootSource) :
  In src (MonitorTable :: claimed_singletons) ->
  filter (visits src)
    (trace (process_vm_roots vm strong_roots' weak_roots' is_alive' w')
       (snd (exec (process_vm_roots vm strong_roots weak_roots is_alive w)
               s)))
  = [].
Proof.
  intros Hsrc.
  destruct (process_vm_roots_leaves_claimed vm strong_roots weak_roots
              is_alive w s) as [Hclaimed Hom].
  set (s1 := snd (exec (process_vm_roots vm strong_roots weak_roots
                          is_alive w) s)) in *.
  rewrite process_vm_roots_trace.
  unfold process_vm_roots_calls, guarded_calls, monitor_calls.
  pose proof (Hclaimed UniverseTable ltac:(simpl; tauto)) as H1.
  pose proof (Hclaimed JNIHandleTable ltac:(simpl; tauto)) as H2.
  pose proof (Hclaimed ProfilerTable ltac:(simpl; tauto)) as H3.
  pose proof (Hclaimed ManagementTable ltac:(simpl; tauto)) as H4.
  pose proof (Hclaimed JvmtiTable ltac:(simpl; tauto)) as H5.
  pose proof (Hclaimed Dictionary ltac:(simpl; tauto)) as H6.
  simpl in H1, H2, H3, H4, H5, H6.
  rewrite H1, H2, H3, H4, H5, H6.
  replace (monitor_blocks vm - om_cur s1) with 0 by lia.
  simpl in Hsrc.
  destruct (not_null weak_roots'), (ShenandoahStringDedup_is_enabled vm),
    (tasks s1 SHENANDOAH_RP_PS_JNIHandles_weak_oops_do);
    destruct Hsrc as [<- | [<- | [<- | [<- | [<- | [<- | [<- | []]]]]]]];
    reflexivity.
Qed.

Lemma repeated_process_vm_roots_visits_nothing_witness :
  In MonitorTable (MonitorTable :: claimed_singletons) /\
  filter (visits MonitorTable)
    (trace (process_vm_roots example_vm (Some 1) (Some 2)
              (Some (CallerIsAliveClosure 0)) 1)
       (snd (exec (process_vm_roots example_vm (Some 1) None None 0)
               example_state)))
  = [].
Proof.
  split; [simpl; auto |].
  apply (@repeated_process_vm_roots_visits_nothing example_vm
           (Some 1) None None 0 (Some 1) (Some 2)
           (Some (CallerIsAliveClosure 0)) 1 example_state MonitorTable).
  simpl; auto.
Defined.

Lemma process_evacuate_roots_leaves_claimed (vm : VM) (self : Thread)
    (oops : option OopClosure) (blobs : option CodeBlobClosure)
    (w : nat) (s : State) :
  is_evacuation_in_progress vm = true ->
  let s1 := snd (exec (process_evacuate_roots vm self oops blobs w) s) in
  (forall src, In src (JNIWeakTable :: claimed_singletons) ->
               tasks s1 (evac_task src) = true) /\
  monitor_blocks vm <= om_cur s1.
Proof.
  intros Hevac.
  destruct (process_evacuate_roots_runs vm self oops blobs w s Hevac)
    as (s' & Hx & _).
  rewrite Hx. simpl. split.
  - intros src Hsrc.
    apply (@reached_when_executed (task_claimed (evac_task src)) _ s s' tt
             (process_evacuate_roots_well_bounded vm self oops blobs w)
             (@process_evacuate_roots_claims vm self oops blobs w src Hsrc)
             Hx).
  - apply (@reached_when_executed (monitors_exhausted vm) _ s s' tt
             (process_evacuate_roots_well_bounded vm self oops blobs w)
             (process_evacuate_roots_exhausts vm self oops blobs w) Hx).
Qed.

(** X3.  Once a call of [process_evacuate_roots] has returned, a further
    call on the same evacuator visits none of the seven claimed sources
    (the six singletons and the weak native-handle table) and no monitor
    block; it still makes its own class-loader, thread and StringTable
    traversals. *)
Theorem repeated_process_evacuate_roots_visits_nothing
    (vm : VM) (self self' : Thread) (oops oops' : option OopClosure)
    (blobs blobs' : option CodeBlobClosure) (w w' : nat) (s : State) :
  let s1 := snd (exec (process_evacuate_roots vm self oops blobs w) s) in
  (forall src, In src (MonitorTable :: JNIWeakTable :: claimed_singletons) ->
     filter (visits src)
       (trace (process_evacuate_roots vm self' oops' blobs' w') s1) = []) /\
  (forall src, In src [ClassLoaderGraph; ThreadStacks; InternTable] ->
     count_events (visits src)
       (trace (process_evacuate_roots vm self' oops' blobs' w') s1)
     = if is_evacuation_in_progress vm then 1 else 0).
Proof.
  intros s1. destruct (is_evacuation_in_progress vm) eqn:Hevac.
  - destruct (process_evacuate_roots_leaves_claimed vm self oops blobs w s
                Hevac) as [Hclaimed Hom].
    fold s1 in Hclaimed, Hom.
    rewrite process_evacuate_roots_trace by exact Hevac.
    unfold process_evacuate_roots_calls, evacuate_singletons_calls,
      guarded_calls, monitor_calls, code_roots_calls.
    pose proof (Hclaimed UniverseTable ltac:(simpl; tauto)) as H1.
    pose proof (Hclaimed JNIHandleTable ltac:(simpl; tauto)) as H2.
    pose proof (Hclaimed ProfilerTable ltac:(simpl; tauto)) as H3.
    pose proof (Hclaimed ManagementTable ltac:(simpl; tauto)) as H4.
    pose proof (Hclaimed JvmtiTable ltac:(simpl; tauto)) as H5.
    pose proof (Hclaimed Dictionary ltac:(simpl; tauto)) as H6.
    pose proof (Hclaimed JNIWeakTable ltac:(simpl; tauto)) as H7.
    simpl in H1, H2, H3, H4, H5, H6, H7.
    rewrite H1, H2, H3, H4, H5, H6, H7.
    replace (monitor_blocks vm - om_cur s1) with 0 by lia.
    split; intros src Hsrc; simpl in Hsrc.
    + rewrite filter_app.
      rewrite filter_pll_calls
        by (intros; apply visits_evacuation; assumption).
      destruct (not_null blobs'), (ShenandoahStringDedup_is_enabled vm);
        destruct Hsrc
          as [<- | [<- | [<- | [<- | [<- | [<- | [<- | [<- | []]]]]]]]];
        reflexivity.
    + unfold count_events. rewrite filter_app.
      rewrite filter_pll_calls
        by (intros; apply visits_evacuation; assumption).
      destruct (not_null blobs'), (ShenandoahStringDedup_is_enabled vm);
        destruct Hsrc as [<- | [<- | [<- | []]]]; reflexivity.
  - split; intros src Hsrc;
      rewrite trace_not_evacuating by exact Hevac; reflexivity.
Qed.

Lemma repeated_process_evacuate_roots_visits_nothing_witness :
  In JNIWeakTable (MonitorTable :: JNIWeakTable :: claimed_singletons) /\
  filter (visits JNIWeakTable)
    (trace (process_evacuate_roots example_vm 1 (Some 2) None 1)
       (snd (exec (process_evacuate_roots example_vm 0 (Some 1) None 0)
               example_state)))
  = [].
Proof.
  split; [simpl; auto |].
  apply (proj1 (@repeated_process_evacuate_roots_visits_nothing example_vm
                  0 1 (Some 1) (Some 2) None None 0 1 example_state)).
  simpl; auto.
Defined.

(** ** The weak native-handle table *)

Lemma process_evacuate_roots_follows_weak (vm : VM) (self : Thread)
    (oops : option OopClosure) (blobs : option CodeBlobClosure) (w : nat) :
  follows SHENANDOAH_EVAC_JNIHandles_weak_oops_do (visits JNIWeakTable)
    done ToClaim (process_evacuate_roots vm self oops blobs w).
Proof. unfold done, process_evacuate_roots. walk. Qed.

Lemma process_vm_roots_follows_weak (vm : VM)
    (strong_roots : option OopClosure) (weak : OopClosure)
    (is_alive : option BoolObjectClosure) (w : nat) :
  follows SHENANDOAH_RP_PS_JNIHandles_weak_oops_do (visits JNIWeakTable)
    done ToClaim (process_vm_roots vm strong_roots (Some weak) is_alive w).
Proof. unfold done, process_vm_roots. simpl not_null. walk. Qed.

(** X4.  The weak native-handle table is behind a claim of its own.  In a
    completed evacuation session of [n >= 1] workers it is traversed
    exactly once, under every schedule; so it is in a completed
    strong-root session in which every worker passes a weak visitor. *)
Theorem weak_handles_visited_exactly_once
    (vm : VM) (n : nat) (phase : Phase)
    (vargs : nat -> VmRootsArgs) (eargs : nat -> EvacArgs)
    (sched : list nat) (s : State) :
  1 <= n ->
  (completed (evacuate_session vm n phase eargs sched s) = true ->
   visited_once JNIWeakTable s (evacuate_session vm n phase eargs sched s)) /\
  ((forall w, vm_weak_roots (vargs w) <> None) ->
   completed (vm_roots_session vm n phase vargs sched s) = true ->
   visited_once JNIWeakTable s (vm_roots_session vm n phase vargs sched s)).
Proof.
  intros Hn. split.
  - unfold evacuate_session.
    destruct (exec (ShenandoahRootEvacuator_ctor vm n phase) s)
      as [[o | msg] s1] eqn:Hctor; simpl; [| discriminate].
    destruct (ShenandoahRootEvacuator_ctor_fresh _ _ _ _ Hctor)
      as [Hfree Hlog].
    intros Hdone.
    pose proof (@exactly_once SHENANDOAH_EVAC_JNIHandles_weak_oops_do
                  (visits JNIWeakTable) sched
                  (evacuate_workers vm eargs n) s1) as Hex.
    destruct (run_schedule sched (evacuate_workers vm eargs n) s1)
      as [pool s'] eqn:Hrun. simpl in *.
    unfold visited in Hex. rewrite <- Hlog. apply Hex; auto.
    + apply workers_nonempty, Hn.
    + apply Forall_forall. intros p Hp.
      apply in_map_iff in Hp. destruct Hp as [w [<- _]].
      apply process_evacuate_roots_follows_weak.
  - intros Hweak. unfold vm_roots_session.
    destruct (exec (ShenandoahRootProcessor_ctor vm n phase) s)
      as [[o | msg] s1] eqn:Hctor; simpl; [| discriminate].
    destruct (ShenandoahRootProcessor_ctor_fresh _ _ _ _ Hctor)
      as [Hfree Hlog].
    intros Hdone.
    pose proof (@exactly_once SHENANDOAH_RP_PS_JNIHandles_weak_oops_do
                  (visits JNIWeakTable) sched
                  (vm_roots_workers vm vargs n) s1) as Hex.
    destruct (run_schedule sched (vm_roots_workers vm vargs n) s1)
      as [pool s'] eqn:Hrun. simpl in *.
    unfold visited in Hex. rewrite <- Hlog. apply Hex; auto.
    + apply workers_nonempty, Hn.
    + apply Forall_forall. intros p Hp.
      apply in_map_iff in Hp. destruct Hp as [w [<- _]].
      specialize (Hweak w).
      destruct (vm_weak_roots (vargs w)) as [weak |]; [| congruence].
      apply process_vm_roots_follows_weak.
Qed.

Lemma weak_handles_visited_exactly_once_witness :
  visited_once JNIWeakTable example_state
    (evacuate_session example_vm 2 (CollectorPhase 0) example_evac_args
       (round_robin 2 64) example_state) /\
  visited_once JNIWeakTable example_state
    (vm_roots_session example_vm 2 (CollectorPhase 0) example_vm_args
       (round_robin 2 64) example_state).
Proof.
  destruct (@weak_handles_visited_exactly_once example_vm 2
              (CollectorPhase 0) example_vm_args example_evac_args
              (round_robin 2 64) example_state) as [H1 H2]; [lia |].
  split.
  - apply H1. vm_compute. reflexivity.
  - apply H2; [intros w; discriminate | vm_compute; reflexivity].
Defined.

(** ** Calls every worker makes *)

Lemma tallying_refl (kind : Event -> bool) (b : bool) (s : State) :
  tallying kind b s s b.
Proof. left. auto. Qed.

Lemma tallying_trans (kind : Event -> bool) (b1 b2 b3 : bool)
    (s1 s2 s3 : State) :
  tallying kind b1 s1 s2 b2 -> tallying kind b2 s2 s3 b3 ->
  tallying kind b1 s1 s3 b3.
Proof.
  unfold tallying.
  intros [[-> H1] | (-> & -> & H1)] [[-> H2] | (E & -> & H2)];
    try discriminate; [left | right | right]; repeat split; congruence.
Qed.

Lemma count_true_app (l l' : list bool) :
  count_true (l ++ l') = count_true l + count_true l'.
Proof. unfold count_true. rewrite filter_app, length_app. reflexivity. Qed.

(** When all workers have returned from a program that makes one call of
    a kind, the session has made as many such calls as it has workers. *)
Lemma tallied_when_returned (kind : Event -> bool) (sched : list nat)
    (pool : Pool) (s : State) :
  Forall (obeys (tallying kind) returned_true false) pool ->
  all_returned (fst (run_schedule sched pool s)) = true ->
  count_events kind (log (snd (run_schedule sched pool s)))
  = count_events kind (log s) + length pool.
Proof.
  intros Hpool Hret.
  assert (HF : Forall2 (obeys (tallying kind) returned_true)
                 (map (fun _ => false) pool) pool).
  { clear -Hpool. induction Hpool; simpl; constructor; auto. }
  destruct (@run_schedule_obeys bool (tallying kind) (tallying_refl kind)
              returned_true
              (fun qs st => count_events kind (log st)
                            = count_events kind (log s) + count_true qs))
    with (sched := sched) (pool := pool) (qs := map (fun _ => false) pool)
         (s := s) as [qs' [HF' Hinv]].
  - intros qs st qs' st' HI Hm.
    destruct Hm as [-> -> | before after q q' -> -> Ht]; [exact HI |].
    rewrite count_true_app in *. unfold count_true in *. simpl in *.
    destruct Ht as [[-> Hc] | (-> & -> & Hc)]; rewrite Hc, HI; simpl; lia.
  - exact HF.
  - assert (Hz : count_true (map (fun _ : Prog unit => false) pool) = 0)
      by (clear; induction pool; simpl; auto).
    rewrite Hz. lia.
  - rewrite Hinv. f_equal.
    pose proof (run_schedule_length sched pool s) as Hlen.
    rewrite <- Hlen. clear -HF' Hret.
    induction HF' as [| q p qs pl Hq _ IH]; simpl in *; [reflexivity |].
    apply andb_true_iff in Hret. destruct Hret as [Hp Hr].
    destruct p; simpl in *; try discriminate.
    unfold returned_true in Hq. subst q.
    unfold count_true in *. simpl. rewrite IH by exact Hr. reflexivity.
Qed.

(** A traversal under a tracker is the one call of its kind. *)
Lemma tally_timed_call (kind : Event -> bool) (phase : Phase) (w : nat)
    (e : Event) :
  kind e = true ->
  kind (WorkerTimingsTracker_begin phase w) = false ->
  kind (WorkerTimingsTracker_end phase w) = false ->
  obeys (tallying kind) (fun _ b => b = true) false
    (ShenandoahWorkerTimingsTracker phase w (call e)).
Proof.
  intros He Hb Hn. simpl. intros s. exists false. split.
  { left. split; [reflexivity |]. simpl.
    rewrite count_events_snoc, Hb. lia. }
  intros s1. exists true. split.
  { right. repeat split. simpl. rewrite count_events_snoc, He. lia. }
  intros s2. exists true. split; [| reflexivity].
  left. split; [reflexivity |]. simpl. rewrite count_events_snoc, Hn. lia.
Qed.

Ltac solve_tally :=
  unfold tallying;
  repeat match goal with
  | |- context [if ?b then (_, _) else (_, _)] => destruct b
  | |- context [match forwardee ?s ?p with _ => _ end] =>
      destruct (forwardee s p)
  | |- context [match free_space ?s with _ => _ end] =>
      destruct (free_space s)
  end;
  simpl; left;
  (split; [reflexivity | rewrite ?count_events_snoc; simpl; lia]).

Ltac walk_tally :=
  lazymatch goal with
  | |- obeys _ _ ?q (bind _ _) =>
      first
        [ apply obeys_seq with (q1 := true);
          [ solve [apply tally_timed_call; reflexivity]
          | intros _; walk_tally ]
        | apply obeys_seq with (q1 := q);
          [ solve [apply obeys_idle; respects_tac; solve_tally]
          | intros _; walk_tally ] ]
  | |- obeys _ _ false _ =>
      apply obeys_mono with (post := fun _ b => b = true);
      [ intros _ b Hb; exact Hb
      | solve [apply tally_timed_call; reflexivity] ]
  | |- obeys _ _ true _ =>
      apply obeys_mono with (post := fun _ b => b = true);
      [ intros _ b Hb; exact Hb
      | apply obeys_idle; respects_tac; solve_tally ]
  end.

Lemma process_evacuate_roots_tallies (vm : VM) (self : Thread)
    (oops : option OopClosure) (blobs : option CodeBlobClosure) (w : nat)
    (src : RootSource) :
  In src [ClassLoaderGraph; ThreadStacks; InternTable] ->
  obeys (tallying (visits src)) returned_true false
    (process_evacuate_roots vm self oops blobs w).
Proof.
  intros Hin. unfold returned_true, process_evacuate_roots, root_cld_do.
  cbv zeta. simpl in Hin.
  destruct Hin as [<- | [<- | [<- | []]]]; walk_tally.
Qed.

Lemma log_grows_refl (s : State) : only_calls (fun _ => True) s s.
Proof. apply only_calls_refl. Qed.

Lemma evacuation_log_grows (vm : VM) (self : Thread)
    (oops : option OopClosure) (blobs : option CodeBlobClosure) (w : nat) :
  respects (only_calls (fun _ => True))
           (process_evacuate_roots vm self oops blobs w).
Proof.
  unfold process_evacuate_roots, root_cld_do.
  respects_tac; solve_only_calls_by ltac:(exact I).
Qed.

Lemma process_vm_roots_log_grows (vm : VM)
    (strong_roots weak_roots : option OopClosure)
    (is_alive : option BoolObjectClosure) (w : nat) :
  respects (only_calls (fun _ => True))
           (process_vm_roots vm strong_roots weak_roots is_alive w).
Proof.
  unfold process_vm_roots.
  respects_tac; solve_only_calls_by ltac:(exact I).
Qed.

Lemma evacuator_ctor_log_grows (vm : VM) (n : nat) (phase : Phase) :
  respects (only_calls (fun _ => True))
           (ShenandoahRootEvacuator_ctor vm n phase).
Proof.
  unfold ShenandoahRootEvacuator_ctor, ParallelCLDRootIterator_ctor.
  respects_tac; solve_only_calls_by ltac:(exact I).
Qed.

Lemma count_events_delta (kind : Event -> bool) (s s' : State) :
  only_calls (fun _ => True) s s' ->
  count_events kind (log s')
  = count_events kind (log s) + count_events kind (delta s s').
Proof.
  intros [l [Hl _]]. unfold delta. rewrite Hl.
  rewrite skipn_app, skipn_all, Nat.sub_diag. simpl.
  apply count_events_app.
Qed.

(** X5.  The class-loader graph, the thread stacks and the StringTable are
    behind no claim in the evacuation scan: every worker traverses them
    in its own call, so a completed session of [n] workers has made
    exactly [n] traversals of each, under every schedule. *)
Theorem every_evacuation_worker_traverses_unclaimed_sources
    (vm : VM) (n : nat) (phase : Phase) (eargs : nat -> EvacArgs)
    (sched : list nat) (s : State) (src : RootSource) :
  In src [ClassLoaderGraph; ThreadStacks; InternTable] ->
  completed (evacuate_session vm n phase eargs sched s) = true ->
  count_events (visits src)
    (session_calls s (evacuate_session vm n phase eargs sched s)) = n.
Proof.
  intros Hsrc. unfold evacuate_session.
  destruct (exec (ShenandoahRootEvacuator_ctor vm n phase) s)
    as [[o | msg] s1] eqn:Hctor; simpl; [| discriminate].
  destruct (ShenandoahRootEvacuator_ctor_fresh _ _ _ _ Hctor) as [_ Hlog].
  pose proof (@tallied_when_returned (visits src) sched
                (evacuate_workers vm eargs n) s1) as Htally.
  pose proof (@respects_run_schedule (only_calls (fun _ => True))
                log_grows_refl (@only_calls_trans (fun _ => True)) sched
                (evacuate_workers vm eargs n) s1
                (evacuate_workers_respect _ vm eargs n
                   (evacuation_log_grows vm))) as [Hgrow _].
  pose proof (respects_exec (only_calls (fun _ => True))
                log_grows_refl (@only_calls_trans (fun _ => True))
                (ShenandoahRootEvacuator_ctor vm n phase)) as Hctor_grow.
  destruct (run_schedule sched (evacuate_workers vm eargs n) s1)
    as [pool s'] eqn:Hrun. simpl in *.
  intros Hdone.
  assert (Hlen : length (evacuate_workers vm eargs n) = n)
    by (unfold evacuate_workers; rewrite length_map, length_seq; reflexivity).
  rewrite Hlen in Htally.
  assert (Hall : only_calls (fun _ => True) s s').
  { eapply only_calls_trans; [| exact Hgrow].
    specialize (Hctor_grow
                  (evacuator_ctor_log_grows vm n phase) s).
    rewrite Hctor in Hctor_grow. exact Hctor_grow. }
  pose proof (count_events_delta (visits src) Hall) as Hd.
  rewrite Htally, Hlog in Hd.
  - lia.
  - apply Forall_forall. intros p Hp.
    apply in_map_iff in Hp. destruct Hp as [w [<- _]].
    apply process_evacuate_roots_tallies, Hsrc.
  - exact Hdone.
Qed.

Lemma every_evacuation_worker_traverses_unclaimed_sources_witness :
  count_events (visits ThreadStacks)
    (session_calls example_state
       (evacuate_session example_vm 2 (CollectorPhase 0) example_evac_args
          (round_robin 2 64) example_state)) = 2.
Proof.
  apply (@every_evacuation_worker_traverses_unclaimed_sources example_vm 2
           (CollectorPhase 0) example_evac_args (round_robin 2 64)
           example_state ThreadStacks).
  - simpl. auto.
  - vm_compute. reflexivity.
Defined.

(** ** Timing of the traversals *)

Lemma same_phase_refl (phase : Phase) : same_phase (Some phase) phase = true.
Proof.
  unfold same_phase. destruct (Phase_eq_dec phase phase); congruence.
Qed.

(** Calls read to a closed tracker can be read apart from what follows. *)
Lemma well_timed_app (w : nat) (l1 l2 : list Event) :
  forall open,
    well_timed w open l1 = true ->
    well_timed w open (l1 ++ l2) = well_timed w None l2.
Proof.
  induction l1 as [| e l1 IH]; intros open H; simpl in *.
  - destruct open; [discriminate | reflexivity].
  - destruct e; simpl in *;
      repeat (apply andb_true_iff in H; destruct H as [H ?]);
      repeat match goal with
      | Hx : _ = true |- _ => rewrite Hx
      end; simpl;
      try (apply IH; assumption).
    all: rewrite H; simpl; apply IH; assumption.
Qed.

(** Traversals of one phase under the tracker of that phase. *)
Lemma well_timed_timed (phase : Phase) (w : nat) (l : list Event) :
  Forall (fun e => phase_of e = Some phase /\ is_tracker e = false) l ->
  well_timed w None (timed phase w l) = true.
Proof.
  intros Hl. unfold timed. cbn [well_timed]. rewrite Nat.eqb_refl.
  cbn [andb].
  induction Hl as [| e l [Hp Ht] _ IH]; cbn [app well_timed].
  - rewrite same_phase_refl, Nat.eqb_refl. reflexivity.
  - destruct e; cbn in Hp, Ht; try discriminate;
      cbn [well_timed phase_of]; inversion Hp; subst;
      rewrite same_phase_refl; exact IH.
Qed.

Lemma well_timed_guarded (s : State) (t : Task) (phase : Phase) (w : nat)
    (e : Event) :
  phase_of e = Some phase -> is_tracker e = false ->
  well_timed w None (guarded_calls s t phase w e) = true.
Proof.
  intros Hp Ht. unfold guarded_calls. destruct (tasks s t); [reflexivity |].
  apply well_timed_timed. repeat constructor; assumption.
Qed.

Lemma well_timed_monitors (vm : VM) (f : option OopClosure) (w : nat)
    (s : State) :
  well_timed w None
    (timed ObjectSynchronizerRoots w (monitor_calls vm f s)) = true.
Proof.
  apply well_timed_timed. unfold monitor_calls. apply Forall_forall.
  intros e He. apply in_map_iff in He. destruct He as [b [<- _]].
  split; reflexivity.
Qed.

Lemma well_timed_pll (vm : VM) (self : Thread) (w : nat) (s : State) :
  well_timed w None (pll_calls vm self s) = true.
Proof.
  unfold pll_calls. destruct (pll_to_evacuate vm s); [| reflexivity].
  destruct (forwardee s (pending_list_lock vm)), (free_space s); reflexivity.
Qed.

Lemma process_java_roots_trace (strong_roots : option OopClosure)
    (strong_clds weak_clds : option CLDClosure)
    (strong_code : option CodeBlobClosure)
    (thread_cl : option ThreadClosure) (w : nat) (s : State) :
  trace (process_java_roots strong_roots strong_clds weak_clds strong_code
           thread_cl w) s
  = timed CLDGRoots w
      [ClassLoaderDataGraph_roots_cld_do strong_clds weak_clds] ++
    timed ThreadRoots w
      [Threads_possibly_parallel_oops_do strong_roots strong_clds
         strong_code].
Proof.
  apply trace_of_log. simpl. rewrite <- !app_assoc. reflexivity.
Qed.

Ltac well_timed_pieces :=
  repeat first
    [ rewrite well_timed_app
    | apply well_timed_guarded; reflexivity
    | apply well_timed_monitors
    | apply well_timed_pll
    | apply well_timed_timed; repeat constructor
    | reflexivity ].

(** X6.  In every call of [process_java_roots], [process_vm_roots] and
    [process_evacuate_roots] the trackers of the call are for the caller's
    worker id, are opened one at a time and all closed at return, and every
    traversal of a root source runs under the tracker of its own phase. *)
Theorem traversals_timed_under_their_phase (vm : VM) (w : nat) (s : State) :
  (forall strong_roots strong_clds weak_clds strong_code thread_cl,
     well_timed w None
       (trace (process_java_roots strong_roots strong_clds weak_clds
                 strong_code thread_cl w) s) = true) /\
  (forall strong_roots weak_roots is_alive,
     well_timed w None
       (trace (process_vm_roots vm strong_roots weak_roots is_alive w) s)
     = true) /\
  (forall self oops blobs,
     well_timed w None
       (trace (process_evacuate_roots vm self oops blobs w) s) = true).
Proof.
  split; [| split].
  - intros. rewrite process_java_roots_trace. well_timed_pieces.
  - intros. rewrite process_vm_roots_trace.
    unfold process_vm_roots_calls.
    destruct (not_null weak_roots), (ShenandoahStringDedup_is_enabled vm);
      simpl andb; cbv iota; well_timed_pieces.
  - intros. destruct (is_evacuation_in_progress vm) eqn:Hevac.
    + rewrite process_evacuate_roots_trace by exact Hevac.
      unfold process_evacuate_roots_calls, evacuate_singletons_calls,
        code_roots_calls.
      destruct (not_null blobs), (ShenandoahStringDedup_is_enabled vm);
        well_timed_pieces.
    + rewrite trace_not_evacuating by exact Hevac. reflexivity.
Qed.

(** ** Construction and safepoints *)

(** X7.  Both constructors need a safepoint: the assertion of the
    class-loader iterator they hold stops the construction with "Must at
    safepoint" before the constructor body runs, so that no worker count
    is set, no phase start is recorded and no session exists.  At a
    safepoint the claimed marks of the class-loader graph are cleared
    once, and the processor starts with every task unclaimed, no worker
    done, the monitor cursor on the first block and, for the strong-root
    processor, the claim set sized for its workers. *)
Theorem constructors_need_safepoint
    (vm : VM) (n : nat) (phase : Phase) (s : State) :
  let rp := exec (ShenandoahRootProcessor_ctor vm n phase) s in
  let ev := exec (ShenandoahRootEvacuator_ctor vm n phase) s in
  fst rp = (if is_at_safepoint vm then Normal tt
            else FatalError "Must at safepoint") /\
  fst ev = (if is_at_safepoint vm then Normal tt
            else FatalError "Must at safepoint") /\
  (forall body_call,
     In body_call [is_set_par_threads; is_workers_start;
                   is_clear_claimed_marks] ->
     count_events body_call
       (trace (ShenandoahRootEvacuator_ctor vm n phase) s)
     = if is_at_safepoint vm then 1 else 0) /\
  (forall body_call,
     In body_call [is_set_par_threads; is_clear_claimed_marks] ->
     count_events body_call
       (trace (ShenandoahRootProcessor_ctor vm n phase) s)
     = if is_at_safepoint vm then 1 else 0) /\
  (if is_at_safepoint vm
   then (forall t, tasks (snd rp) t = false) /\
        (forall t, tasks (snd ev) t = false) /\
        threads_completed (snd rp) = 0 /\ threads_completed (snd ev) = 0 /\
        om_cur (snd rp) = 0 /\ om_cur (snd ev) = 0 /\
        n_threads (snd rp) = n
   else forall vargs eargs sched,
        vm_roots_session vm n phase vargs sched s = None /\
        evacuate_session vm n phase eargs sched s = None /\
        evacuator_lifetime vm n phase eargs sched s = None).
Proof.
  unfold evacuator_lifetime, vm_roots_session, evacuate_session, trace,
    ShenandoahRootProcessor_ctor, ShenandoahRootEvacuator_ctor,
    ParallelCLDRootIterator_ctor, count_events.
  destruct (is_at_safepoint vm), (ShenandoahStringDedup_is_enabled vm);
    simpl;
    rewrite <- ?app_assoc; simpl;
    rewrite ?skipn_app, ?skipn_all, ?Nat.sub_diag; simpl;
    repeat split; auto;
    intros body_call Hin; simpl in Hin;
    repeat (destruct Hin as [<- | Hin]; [reflexivity |]); destruct Hin.
Qed.

Lemma constructors_need_safepoint_witness :
  In is_workers_start
     [is_set_par_threads; is_workers_start; is_clear_claimed_marks] /\
  count_events is_workers_start
    (trace (ShenandoahRootEvacuator_ctor example_vm 2 (CollectorPhase 0))
       example_state)
  = 1.
Proof.
  split; [simpl; auto |].
  apply (proj1 (proj2 (proj2
           (@constructors_need_safepoint example_vm 2 (CollectorPhase 0)
              example_state)))).
  simpl; auto.
Defined.

(** ** A session outside evacuation *)

Lemma stopped_pool (sched : list nat) (pool : Pool) (s : State) :
  existsb is_fatal pool = true -> run_schedule sched pool s = (pool, s).
Proof.
  intros H. induction sched as [| w sched IH]; simpl; [reflexivity |].
  unfold pool_step. rewrite H. exact IH.
Qed.

Lemma evacuate_workers_stopped (vm : VM) (args : nat -> EvacArgs) (n : nat) :
  is_evacuation_in_progress vm = false -> 1 <= n ->
  existsb is_fatal (evacuate_workers vm args n) = true /\
  all_returned (evacuate_workers vm args n) = false.
Proof.
  intros Hevac Hn. unfold evacuate_workers, all_returned.
  destruct n as [| n]; [lia |]. simpl.
  unfold process_evacuate_roots at 1 3. rewrite Hevac. simpl. auto.
Qed.

(** X8.  Outside evacuation the assertion of [process_evacuate_roots]
    stops the first worker that moves: whatever the schedule, a session
    of [n >= 1] workers visits no root source, never completes, and its
    evacuator is never destroyed, so no phase end is recorded. *)
Theorem evacuation_session_outside_evacuation
    (vm : VM) (n : nat) (phase : Phase) (eargs : nat -> EvacArgs)
    (sched : list nat) (s : State) :
  is_evacuation_in_progress vm = false ->
  1 <= n ->
  Forall (fun e => source_of e = None /\ is_workers_end e = false)
    (session_calls s (evacuate_session vm n phase eargs sched s)) /\
  completed (evacuate_session vm n phase eargs sched s) = false /\
  evacuator_lifetime vm n phase eargs sched s = None.
Proof.
  intros Hevac Hn.
  destruct (evacuate_workers_stopped vm eargs Hevac Hn) as [Hfatal Hret].
  unfold evacuator_lifetime, evacuate_session.
  pose proof (@trace_only_calls unit
                (fun e => source_of e = None /\ is_workers_end e = false)
                (ShenandoahRootEvacuator_ctor vm n phase) s) as Hctor.
  unfold trace, delta in *.
  destruct (exec (ShenandoahRootEvacuator_ctor vm n phase) s)
    as [[o | msg] s1]; simpl in *.
  - rewrite stopped_pool by exact Hfatal. simpl. rewrite Hret.
    split; [| auto]. apply Hctor.
    unfold ShenandoahRootEvacuator_ctor, ParallelCLDRootIterator_ctor.
    respects_tac; solve_only_calls_by ltac:(split; reflexivity).
  - split; [constructor | auto].
Qed.

Lemma evacuation_session_outside_evacuation_witness :
  completed (evacuate_session example_vm_idle 2 (CollectorPhase 0)
               example_evac_args (round_robin 2 64) example_state) = false.
Proof.
  assert (H : is_evacuation_in_progress example_vm_idle = false)
    by reflexivity.
  assert (Hn : 1 <= 2) by lia.
  exact (proj1 (proj2
           (@evacuation_session_outside_evacuation example_vm_idle 2
              (CollectorPhase 0) example_evac_args (round_robin 2 64)
              example_state H Hn))).
Defined.

(** ** Claims and cursor only move forward *)







(** ** The strong-root entry point *)

Lemma process_vm_roots_calls_frame (vm : VM)
    (strong_roots weak_roots : option OopClosure)
    (is_alive : option BoolObjectClosure) (w : nat) (s s' : State) :
  (forall u, tasks s' u = tasks s u) ->
  om_cur s' = om_cur s ->
  string_table_claimed s' = string_table_claimed s ->
  process_vm_roots_calls vm strong_roots weak_roots is_alive w s'
  = process_vm_roots_calls vm strong_roots weak_roots is_alive w s.
Proof.
  intros Ht Ho Hs.
  unfold process_vm_roots_calls, guarded_calls, monitor_calls, unlink_call,
    dead_strings, unclaimed_strings.
  rewrite !Ht, Ho, Hs. reflexivity.
Qed.

(** X10.  With a null thread closure [process_strong_roots] is
    [process_java_roots] followed by [process_vm_roots] without a weak
    visitor: it hands the class-loader graph a null weak closure, visits
    neither the weak native-handle table, nor the deduplication table,
    nor the StringTable, and consults no liveness predicate.  It then
    reports its worker done: while the claim set still expects a worker
    the call returns with one more worker counted; once all configured
    workers have reported it stops on the contract violation, after the
    same calls. *)
Theorem process_strong_roots_scans_strong_only
    (vm : VM) (oops : option OopClosure) (clds : option CLDClosure)
    (blobs : option CodeBlobClosure) (w : nat) (s : State) :
  let calls := trace (process_strong_roots vm oops clds blobs None w) s in
  let r := exec (process_strong_roots vm oops clds blobs None w) s in
  calls = trace (process_java_roots oops clds None blobs None w) s ++
          trace (process_vm_roots vm oops None None w) s /\
  filter (visits ClassLoaderGraph) calls
    = [ClassLoaderDataGraph_roots_cld_do clds None] /\
  (forall src, In src [JNIWeakTable; DedupTable; InternTable] ->
     filter (visits src) calls = []) /\
  Forall (fun e => liveness_of e = None) calls /\
  (threads_completed s < n_threads s ->
   fst r = Normal tt /\
   threads_completed (snd r) = S (threads_completed s)) /\
  (n_threads s <= threads_completed s ->
   fst r = FatalError "more workers done than configured" /\
   threads_completed (snd r) = threads_completed s).
Proof.
  assert (Hrun :
    exists s2,
      exec (process_strong_roots vm oops clds blobs None w) s
      = exec SubTasksDone_all_tasks_completed s2 /\
      log s2 = log s ++
               (timed CLDGRoots w
                  [ClassLoaderDataGraph_roots_cld_do clds None] ++
                timed ThreadRoots w
                  [Threads_possibly_parallel_oops_do oops clds blobs]) ++
               process_vm_roots_calls vm oops None None w s /\
      same_worker_count s s2).
  { unfold process_strong_roots.
    change (negb (not_null (@None ThreadClosure))) with true.
    rewrite exec_assert_true.
    pose proof (respects_exec same_worker_count same_worker_count_refl
                  same_worker_count_trans _
                  (process_java_roots_keeps_count oops clds None blobs
                     None w) s) as Hj.
    unfold process_java_roots, root_cld_do in *.
    destruct (timed_call_block CLDGRoots w
                (ClassLoaderDataGraph_roots_cld_do clds None)
                (reached_start s)) as (sa & Xa & Ra).
    destruct (timed_call_block ThreadRoots w
                (Threads_possibly_parallel_oops_do oops clds blobs) Ra)
      as (sb & Xb & (Hlogb & Htb & Hob & Hsb)).
    assert (Xj : exec
              (ShenandoahWorkerTimingsTracker CLDGRoots w
                 (call (ClassLoaderDataGraph_roots_cld_do clds None)) ;;
               ShenandoahWorkerTimingsTracker ThreadRoots w
                 (call (Threads_possibly_parallel_oops_do oops clds blobs)))
              s = (Normal tt, sb)).
    { rewrite (@exec_seq _ _ _ _ _ _ _ Xa). exact Xb. }
    rewrite Xj in Hj. simpl in Hj.
    rewrite (@exec_seq _ _ _ _ _ _ _ Xj).
    pose proof (respects_exec same_worker_count same_worker_count_refl
                  same_worker_count_trans _
                  (process_vm_roots_keeps_count vm oops None None w) sb)
      as Hv.
    destruct (process_vm_roots_runs vm oops None None w sb)
      as (s2 & X2 & Hlog2).
    rewrite X2 in Hv. simpl in Hv.
    rewrite (@exec_seq _ _ _ _ _ _ _ X2).
    exists s2. split; [reflexivity |].
    split; [| eapply same_worker_count_trans; eauto].
    rewrite Hlog2, Hlogb.
    rewrite (@process_vm_roots_calls_frame vm oops None None w s sb)
      by (intros; auto).
    simpl; rewrite <- ?app_assoc; reflexivity. }
  destruct Hrun as (s2 & Hx & Hlog & Hc1 & Hc2).
  assert (Hdone : log (snd (exec SubTasksDone_all_tasks_completed s2))
                  = log s2).
  { unfold SubTasksDone_all_tasks_completed. simpl.
    destruct (threads_completed s2 <? n_threads s2); reflexivity. }
  assert (Hcalls :
    trace (process_strong_roots vm oops clds blobs None w) s
    = (timed CLDGRoots w [ClassLoaderDataGraph_roots_cld_do clds None] ++
       timed ThreadRoots w
         [Threads_possibly_parallel_oops_do oops clds blobs]) ++
      process_vm_roots_calls vm oops None None w s).
  { apply trace_of_log. rewrite Hx, Hdone. exact Hlog. }
  cbv zeta. rewrite Hcalls, Hx.
  rewrite process_java_roots_trace, process_vm_roots_trace.
  split; [reflexivity |].
  unfold process_vm_roots_calls. simpl not_null. rewrite andb_false_r.
  cbv iota.
  split; [| split; [| split; [| split]]].
  - rewrite !filter_app.
    rewrite !filter_guarded_none by reflexivity.
    rewrite !filter_timed by reflexivity.
    unfold monitor_calls. rewrite filter_map_none by reflexivity.
    reflexivity.
  - intros src Hsrc. rewrite !filter_app.
    assert (Hmon : forall b,
              visits src (SynchronizerIterator_block_do oops b) = false).
    { intros b. simpl in Hsrc.
      destruct Hsrc as [<- | [<- | [<- | []]]]; reflexivity. }
    rewrite !filter_guarded_none, !filter_timed; try reflexivity;
      try (simpl in Hsrc; destruct Hsrc as [<- | [<- | [<- | []]]];
           reflexivity).
    unfold monitor_calls. rewrite (filter_map_none _ _ _ Hmon).
    simpl in Hsrc; destruct Hsrc as [<- | [<- | [<- | []]]]; reflexivity.
  - repeat (apply Forall_app; split);
      try (apply Forall_guarded_calls; reflexivity);
      try (apply Forall_timed; try reflexivity;
           try (apply Forall_monitor_calls; reflexivity);
           repeat constructor);
      constructor.
  - intros Hlt. unfold SubTasksDone_all_tasks_completed. simpl.
    rewrite Hc1, Hc2.
    destruct (Nat.ltb_spec (threads_completed s) (n_threads s)); [| lia].
    simpl. auto.
  - intros Hge. unfold SubTasksDone_all_tasks_completed. simpl.
    rewrite Hc1, Hc2.
    destruct (Nat.ltb_spec (threads_completed s) (n_threads s)); [lia |].
    simpl. auto.
Qed.

Lemma process_strong_roots_scans_strong_only_witness :
  let s1 := snd (exec (ShenandoahRootProcessor_ctor example_vm 1
                         (CollectorPhase 0)) example_state) in
  threads_completed s1 < n_threads s1 /\
  fst (exec (process_strong_roots example_vm (Some 1)
               (Some (CallerCLDClosure 4)) None None 0) s1) = Normal tt /\
  threads_completed
    (snd (exec (process_strong_roots example_vm (Some 1)
                  (Some (CallerCLDClosure 4)) None None 0) s1)) = 1.
Proof.
  cbv zeta. split; [vm_compute; lia |].
  apply (proj1 (proj2 (proj2 (proj2 (proj2
           (@process_strong_roots_scans_strong_only example_vm (Some 1)
              (Some (CallerCLDClosure 4)) None 0
              (snd (exec (ShenandoahRootProcessor_ctor example_vm 1
                            (CollectorPhase 0)) example_state)))))))).
  vm_compute; lia.
Defined.

(** ** The serial scan and the claims *)

Lemma process_all_roots_slow_untouched (vm : VM) (oops : option OopClosure) :
  respects (fun s s' =>
              (forall t, tasks s' t = tasks s t) /\
              om_cur s' = om_cur s /\
              string_table_claimed s' = string_table_claimed s /\
              threads_completed s' = threads_completed s)
           (process_all_roots_slow vm oops).
Proof.
  unfold process_all_roots_slow.
  respects_tac; repeat split; reflexivity.
Qed.

(** X11.  [process_all_roots_slow] takes no claim and asks for none: from
    any state of the processor, also one in which every task is claimed
    and the monitor cursor is at its end, it visits each root source
    exactly once (the deduplication table when deduplication is enabled),
    opens no timing tracker, and leaves the claims, the monitor cursor,
    the StringTable cursor and the count of finished workers as they
    were. *)
Theorem process_all_roots_slow_visits_every_source_once
    (vm : VM) (oops : option OopClosure) (s : State) :
  let calls := trace (process_all_roots_slow vm oops) s in
  let s' := snd (exec (process_all_roots_slow vm oops) s) in
  (forall src,
     count_events (visits src) calls
     = match src with
       | DedupTable => if ShenandoahStringDedup_is_enabled vm then 1 else 0
       | _ => 1
       end) /\
  Forall (fun e => source_of e <> None /\ is_tracker e = false) calls /\
  (forall t, tasks s' t = tasks s t) /\
  om_cur s' = om_cur s /\
  string_table_claimed s' = string_table_claimed s /\
  threads_completed s' = threads_completed s.
Proof.
  cbv zeta. rewrite process_all_roots_slow_trace.
  unfold slow_calls_before_threads.
  split; [| split].
  - intros src. unfold count_events.
    destruct (ShenandoahStringDedup_is_enabled vm), src; reflexivity.
  - destruct (ShenandoahStringDedup_is_enabled vm); simpl;
      repeat constructor; discriminate.
  - apply (@respects_exec unit
             (fun a b =>
                (forall t, tasks b t = tasks a t) /\
                om_cur b = om_cur a /\
                string_table_claimed b = string_table_claimed a /\
                threads_completed b = threads_completed a)).
    + intros a. repeat split; reflexivity.
    + intros a b c (H1 & H2 & H3 & H4) (K1 & K2 & K3 & K4).
      repeat split; congruence.
    + apply process_all_roots_slow_untouched.
Qed.

(** ** The closures handed on *)

Ltac solve_routes :=
  solve_only_calls_by ltac:(simpl; auto).

Lemma process_vm_roots_routes (vm : VM)
    (strong_roots weak_roots : option OopClosure)
    (is_alive : option BoolObjectClosure) (w : nat) :
  respects (only_calls (fun e =>
              routes strong_roots weak_roots e /\
              (liveness_of e = None \/ liveness_of e = Some is_alive)))
           (process_vm_roots vm strong_roots weak_roots is_alive w).
Proof. unfold process_vm_roots. respects_tac; solve_routes. Qed.

Lemma process_evacuate_roots_routes (vm : VM) (self : Thread)
    (oops : option OopClosure) (blobs : option CodeBlobClosure) (w : nat) :
  respects (only_calls (fun e => routes oops oops e /\ wraps oops blobs e))
           (process_evacuate_roots vm self oops blobs w).
Proof.
  unfold process_evacuate_roots, root_cld_do.
  respects_tac; solve_routes.
Qed.

Lemma process_all_roots_slow_routes (vm : VM) (oops : option OopClosure)
    (blobs : option CodeBlobClosure) :
  respects (only_calls (fun e => routes oops oops e /\ wraps oops blobs e))
           (process_all_roots_slow vm oops).
Proof. unfold process_all_roots_slow. respects_tac; solve_routes. Qed.

(** X12.  The closures are handed on by strength.  [process_vm_roots]
    gives its strong visitor to the strong tables and to the monitors, its
    weak visitor to the weak native-handle table, the deduplication table
    and the StringTable, both to the system dictionary, and its liveness
    predicate to every call that takes one.  [process_evacuate_roots] and
    [process_all_roots_slow] have one visitor and give it to every source,
    strong or weak, and build their class-loader closures on it; the
    evacuation scan hands the code roots the caller's code closure and
    nothing else. *)
Theorem closures_handed_on_by_strength (vm : VM) (w : nat) (s : State) :
  (forall strong_roots weak_roots is_alive,
     Forall (fun e =>
               routes strong_roots weak_roots e /\
               (liveness_of e = None \/ liveness_of e = Some is_alive))
       (trace (process_vm_roots vm strong_roots weak_roots is_alive w) s)) /\
  (forall self oops blobs,
     Forall (fun e => routes oops oops e /\ wraps oops blobs e)
       (trace (process_evacuate_roots vm self oops blobs w) s)) /\
  (forall oops,
     Forall (fun e => routes oops oops e /\ wraps oops None e)
       (trace (process_all_roots_slow vm oops) s)).
Proof.
  split; [| split]; intros.
  - apply trace_only_calls, process_vm_roots_routes.
  - apply trace_only_calls, process_evacuate_roots_routes.
  - apply trace_only_calls, process_all_roots_slow_routes.
Qed.
